(** * MindsMakingVoice: the speech request orchestrator and the audio player

    A shallow embedding of [services/ttsService.js] (class [TTSService]),
    of [handleGenerate] of the text-to-speech page, of
    [SupabaseService.saveAudioGeneration] and of the seek and volume
    handlers of the [AudioPlayer] component, with the properties the
    specification states about them.

    JavaScript strings are sequences of UTF-16 code units, JavaScript numbers
    are IEEE 754 binary64 values (the standard library's [spec_float] with
    [prec = 53] and [emax = 1024]), [async] functions are computations that
    log the events they perform and end by returning or by throwing. *)

From Stdlib Require Import ZArith NArith List Bool Lia String Ascii DecimalString.
From Stdlib Require Import SpecFloat.
From Stdlib Require Import Reals Lra.
Import ListNotations.

Local Open Scope Z_scope.

(* ================================================================== *)
(** * JavaScript strings *)

Module JsString.

(** A string is its list of UTF-16 code units. *)
Definition jsstring := list N.

Fixpoint lit (s : string) : jsstring :=
  match s with
  | EmptyString => []
  | String a s' => N_of_ascii a :: lit s'
  end.

Definition eqb (a b : jsstring) : bool :=
  if list_eq_dec N.eq_dec a b then true else false.

(** The code units [String.prototype.trim] strips and the class [\s] of a
    regular expression matches: WhiteSpace and LineTerminator. *)
Definition isWhiteSpace (c : N) : bool :=
  (existsb (N.eqb c)
     [9; 10; 11; 12; 13; 32; 160; 5760; 8232; 8233; 8239; 8287; 12288; 65279]
   || ((8192 <=? c) && (c <=? 8202)))%N.

Fixpoint trimStart (s : jsstring) : jsstring :=
  match s with
  | [] => []
  | c :: s' => if isWhiteSpace c then trimStart s' else s
  end.

Definition trimEnd (s : jsstring) : jsstring := rev (trimStart (rev s)).

Definition trim (s : jsstring) : jsstring := trimEnd (trimStart s).

(** [s.split(/\s+/)]: the scan of the split algorithm.  [in_sep] tells that
    the scan stands behind a separator match, [cur] holds the code units of
    the current piece in reverse.  A separator at the very start leaves an
    empty first piece, one at the very end an empty last piece, and the
    empty string splits into one empty piece. *)
Fixpoint split_scan (in_sep : bool) (cur s : jsstring) : list jsstring :=
  match s with
  | [] => [rev cur]
  | c :: s' =>
      if isWhiteSpace c
      then if in_sep then split_scan true cur s'
           else rev cur :: split_scan true [] s'
      else split_scan false (c :: cur) s'
  end.

Definition split_whitespace (s : jsstring) : list jsstring :=
  split_scan false [] s.

Fixpoint startsWith (s p : jsstring) : bool :=
  match p, s with
  | [], _ => true
  | _ :: _, [] => false
  | a :: p', b :: s' => N.eqb a b && startsWith s' p'
  end.

(** [s.includes(needle)] *)
Fixpoint includes (s needle : jsstring) : bool :=
  startsWith s needle
  || match s with
     | [] => false
     | _ :: s' => includes s' needle
     end.

End JsString.
Import JsString.

(* ================================================================== *)
(** * JavaScript numbers *)

Module Num.

Definition prec : Z := 53.
Definition emax : Z := 1024.

Definition number := spec_float.

Definition NaN : number := S754_nan.

(** The number [m * 2^e]. *)
Definition dyadic (m e : Z) : number := binary_normalize prec emax m e false.

Definition ofZ (z : Z) : number := dyadic z 0.

Definition div : number -> number -> number := SFdiv prec emax.
Definition mul : number -> number -> number := SFmul prec emax.
Definition sub : number -> number -> number := SFsub prec emax.
Definition leb : number -> number -> bool := SFleb.
Definition ltb : number -> number -> bool := SFltb.

Definition valid (x : number) : bool := valid_binary prec emax x.

Definition isFinite (x : number) : bool :=
  match x with
  | S754_zero _ | S754_finite _ _ _ => true
  | _ => false
  end.

(** ToBoolean of a number: [0], [-0] and [NaN] are falsy. *)
Definition truthy (x : number) : bool :=
  match x with
  | S754_zero _ | S754_nan => false
  | _ => true
  end.

(** [Math.ceil] *)
Definition ceil (x : number) : number :=
  match x with
  | S754_finite s m e =>
      if 0 <=? e then x
      else
        let d := 2 ^ (- e) in
        let n := if s then - (Zpos m / d) else (Zpos m + d - 1) / d in
        if n =? 0 then S754_zero s else ofZ n
  | _ => x
  end.

End Num.

(* ================================================================== *)
(** * Values, errors and computations *)

(** The values a property read of the two lookup tables can give. *)
Inductive value :=
| VUndefined
| VString (s : jsstring)
| VNumber (x : Num.number)
| VInherited (name : jsstring).
  (** a member every object inherits from [Object.prototype] *)

Definition truthy (v : value) : bool :=
  match v with
  | VUndefined => false
  | VString s => negb (eqb s [])
  | VNumber x => Num.truthy x
  | VInherited _ => true
  end.

(** [a || b] *)
Definition or_else (a b : value) : value := if truthy a then a else b.

(** The property names of [Object.prototype]. *)
Definition objectPrototypeKeys : list jsstring :=
  map lit [ "constructor"; "hasOwnProperty"; "isPrototypeOf";
            "propertyIsEnumerable"; "toLocaleString"; "toString"; "valueOf";
            "__proto__"; "__defineGetter__"; "__defineSetter__";
            "__lookupGetter__"; "__lookupSetter__" ]%string.

(** An object literal: its own properties, in source order. *)
Definition object := list (jsstring * value).

Fixpoint own (o : object) (key : jsstring) : option value :=
  match o with
  | [] => None
  | (k, v) :: o' => if eqb k key then Some v else own o' key
  end.

(** [o?.[key]] on an object literal: an own property first, then the
    prototype chain, which for a literal is [Object.prototype]. *)
Definition get (o : object) (key : jsstring) : value :=
  match own o key with
  | Some v => v
  | None => if existsb (eqb key) objectPrototypeKeys
            then VInherited key else VUndefined
  end.

(** A thrown value, read through [error?.message]. *)
Record JsError := mkError { message : option jsstring }.

(** [new Error(msg)] *)
Definition Error (msg : string) : JsError := mkError (Some (lit msg)).

Record Blob := mkBlob { blob_bytes : list N; blob_type : jsstring }.

Definition blob_size (b : Blob) : Z := Z.of_nat (List.length (blob_bytes b)).

(** The body of the request to the speech endpoint. *)
Record SpeechRequest := mkSpeechRequest {
  req_model : value;
  req_voice : value;
  req_input : jsstring;
  req_speed : value;
  req_response_format : jsstring
}.

(** The record [saveAudioGeneration] receives. *)
Record AudioData := mkAudioData {
  text_content : jsstring;
  audio_url : option jsstring;
  duration_seconds : option Num.number;
  preset_id : option jsstring;
  user_id : jsstring
}.

Inductive Event :=
| Progress (v : Z)                       (** [onProgress(v)] *)
| SpeechCreate (r : SpeechRequest)       (** the request to the vendor *)
| Insert (d : AudioData)                 (** the insert into [audio_generations] *)
| ConsoleError (tag : jsstring) (e : JsError)
| ConsoleWarn (tag : jsstring) (e : JsError)
| SetTimeout (ms : Z).

(** A computation: the events it performed, then a thrown value or a result. *)
Definition M (A : Type) : Type := list Event * (JsError + A).

Definition ret {A} (a : A) : M A := ([], inr a).

Definition throw {A} (e : JsError) : M A := ([], inl e).

Definition emit (ev : Event) : M unit := ([ev], inr tt).

Definition bind {A B} (c : M A) (k : A -> M B) : M B :=
  match c with
  | (tr, inl e) => (tr, inl e)
  | (tr, inr a) => let '(tr', r) := k a in (tr ++ tr', r)
  end.

(** [try { c } catch (e) { h e }] *)
Definition try_catch {A} (c : M A) (h : JsError -> M A) : M A :=
  match c with
  | (tr, inl e) => let '(tr', r) := h e in (tr ++ tr', r)
  | (tr, inr a) => (tr, inr a)
  end.

Definition lift {A} (r : JsError + A) : M A := ([], r).

Declare Scope js_scope.
Delimit Scope js_scope with js.
Notation "x <- c ;; k" := (bind c (fun x => k))
  (at level 61, c at next level, right associativity) : js_scope.
Notation "c ;; k" := (bind c (fun _ => k))
  (at level 61, right associativity) : js_scope.

Definition trace {A} (c : M A) : list Event := fst c.
Definition outcome {A} (c : M A) : JsError + A := snd c.

(** The values handed to the progress callback, in order. *)
Fixpoint progress_values (tr : list Event) : list Z :=
  match tr with
  | [] => []
  | Progress v :: tr' => v :: progress_values tr'
  | _ :: tr' => progress_values tr'
  end.

Definition is_vendor_request (ev : Event) : bool :=
  match ev with SpeechCreate _ => true | _ => false end.

(* ================================================================== *)
(** * The world outside the program *)

(** The response of the speech endpoint; reading its body can fail. *)
Record Response := mkResponse { arrayBuffer : JsError + list N }.

(** The result object of the insert: [{ data, error }]. *)
Record InsertResult := mkInsertResult {
  ins_data : option jsstring;
  ins_error : option JsError
}.

Record Env := mkEnv {
  (** [import.meta.env?.VITE_OPENAI_API_KEY] *)
  VITE_OPENAI_API_KEY : option jsstring;
  (** [openai.audio.speech.create]: it rejects or resolves to a response *)
  speech_create : SpeechRequest -> JsError + Response;
  (** [URL.createObjectURL] *)
  createObjectURL : Blob -> jsstring;
  (** [supabase.from('audio_generations').insert(..).select().single()] *)
  audio_generations_insert : AudioData -> JsError + InsertResult
}.

(** A progress callback returns, or throws. *)
Definition ProgressCallback := Z -> option JsError.

(** [onProgress?.(v)] *)
Definition call_progress (onProgress : option ProgressCallback) (v : Z) : M unit :=
  match onProgress with
  | None => ret tt
  | Some f =>
      (emit (Progress v) ;;
       match f v with
       | Some e => throw e
       | None => ret tt
       end)%js
  end.

(* ================================================================== *)
(** * services/ttsService.js *)

Module TTSService.

Record VoiceSettings := mkVoiceSettings {
  voiceStyle : jsstring;
  voiceSpeed : jsstring;
  voicePitch : jsstring;
  emotion : jsstring;
  character : jsstring
}.

Record TtsSettings := mkTtsSettings {
  voice : value;
  speed : value;
  model : value
}.

Record GenerationResult := mkGenerationResult {
  audioUrl : jsstring;
  audioBlob : Blob;
  duration : Num.number;
  fileSize : Z;
  format : jsstring
}.


Definition voiceMapping : object :=
  [ (lit "chloe", VString (lit "alloy"));
    (lit "kelly", VString (lit "echo"));
    (lit "racheal", VString (lit "fable"));
    (lit "david", VString (lit "onyx"));
    (lit "alex", VString (lit "nova"));
    (lit "sarah", VString (lit "shimmer")) ].

Definition speedMapping : object :=
  [ (lit "slow", VNumber (Num.dyadic 3 (-2)));     (* 0.75 *)
    (lit "normal", VNumber (Num.ofZ 1));           (* 1.0 *)
    (lit "fast", VNumber (Num.dyadic 5 (-2))) ].   (* 1.25 *)

Definition mapVoiceSettings (settings : VoiceSettings) : TtsSettings :=
  {| voice := or_else (get voiceMapping (character settings)) (VString (lit "alloy"));
     speed := or_else (get speedMapping (voiceSpeed settings)) (VNumber (Num.ofZ 1));
     model := VString (lit "tts-1") |}.

(** [text?.trim()?.split(/\s+/)?.length] *)
Definition wordCount (text : jsstring) : Z :=
  Z.of_nat (List.length (split_whitespace (trim text))).

(** [Math.ceil((wordCount / 150) * 60)] *)
Definition estimatedDuration (wordCount : Z) : Num.number :=
  Num.ceil (Num.mul (Num.div (Num.ofZ wordCount) (Num.ofZ 150)) (Num.ofZ 60)).

(** The test on the key at the head of [generateSpeech]. *)
Definition api_key_missing (env : Env) : bool :=
  match VITE_OPENAI_API_KEY env with
  | None => true
  | Some k => eqb k [] || eqb k (lit "your-openai-api-key-here")
  end.

(** [error?.message?.includes(needle)] *)
Definition message_includes (e : JsError) (needle : string) : bool :=
  match message e with
  | Some m => includes m (lit needle)
  | None => false
  end.

(** [error?.message || 'Unknown error'] *)
Definition message_or_unknown (e : JsError) : jsstring :=
  match message e with
  | Some m => if eqb m [] then lit "Unknown error" else m
  | None => lit "Unknown error"
  end.

(** The [catch] block of [generateSpeech]. *)
Definition rethrow (error : JsError) : M GenerationResult :=
  (emit (ConsoleError (lit "TTS Generation Error:") error) ;;
   if message_includes error "API key" then
     throw (Error "Invalid or missing OpenAI API key. Please check your configuration.")
   else if message_includes error "quota" then
     throw (Error "OpenAI API quota exceeded. Please check your account limits.")
   else if message_includes error "network" || message_includes error "fetch" then
     throw (Error "Network error. Please check your internet connection and try again.")
   else
     throw (mkError (Some (lit "Speech generation failed: " ++ message_or_unknown error))))%js.

Definition generateSpeech (env : Env) (text : jsstring)
    (voiceSettings : VoiceSettings) (onProgress : option ProgressCallback)
  : M GenerationResult :=
  try_catch
    ((if api_key_missing env then
        throw (Error "OpenAI API key is not configured. Please add your API key to the .env file.")
      else ret tt) ;;
     (if eqb (trim text) [] then
        throw (Error "Text content is required for speech generation.")
      else ret tt) ;;
     call_progress onProgress 10 ;;
     let ttsSettings := mapVoiceSettings voiceSettings in
     call_progress onProgress 30 ;;
     let request :=
       {| req_model := model ttsSettings;
          req_voice := voice ttsSettings;
          req_input := text;
          req_speed := speed ttsSettings;
          req_response_format := lit "mp3" |} in
     emit (SpeechCreate request) ;;
     response <- lift (speech_create env request) ;;
     call_progress onProgress 70 ;;
     bytes <- lift (arrayBuffer response) ;;
     let audioBlob := {| blob_bytes := bytes; blob_type := lit "audio/mpeg" |} in
     call_progress onProgress 90 ;;
     let audioUrl := createObjectURL env audioBlob in
     let estimated := estimatedDuration (wordCount text) in
     call_progress onProgress 100 ;;
     ret {| audioUrl := audioUrl;
            audioBlob := audioBlob;
            duration := estimated;
            fileSize := blob_size audioBlob;
            format := lit "mp3" |})%js
    rethrow.

(** The body of the fallback holds comments only, the [throw] of its
    second line among them: the call resolves to [undefined] ([None]). *)
Definition generateSpeechWithGoogleCloud (text : jsstring)
    (voiceSettings : VoiceSettings) (onProgress : option ProgressCallback)
  : M (option GenerationResult) :=
  ret None.

Definition generateSpeechWithFallback (env : Env) (text : jsstring)
    (voiceSettings : VoiceSettings) (onProgress : option ProgressCallback)
  : M (option GenerationResult) :=
  try_catch
    (r <- generateSpeech env text voiceSettings onProgress ;; ret (Some r))%js
    (fun openaiError =>
       (emit (ConsoleWarn
                (lit "OpenAI TTS failed, attempting Google Cloud TTS fallback:")
                openaiError) ;;
        try_catch
          (generateSpeechWithGoogleCloud text voiceSettings onProgress)
          (fun googleError =>
             (emit (ConsoleError (lit "Google Cloud TTS also failed:") googleError) ;;
              throw (Error "Both OpenAI and Google Cloud TTS services are unavailable. Please try again later."))%js))%js).

End TTSService.

(* ================================================================== *)
(** * services/supabaseService.js *)

Module SupabaseService.

Definition saveAudioGeneration (env : Env) (audioData : AudioData)
  : M (option jsstring) :=
  try_catch
    (let row :=
       {| text_content := text_content audioData;
          audio_url := audio_url audioData;
          duration_seconds := duration_seconds audioData;
          preset_id := preset_id audioData;
          user_id := user_id audioData |} in
     emit (Insert row) ;;
     res <- lift (audio_generations_insert env row) ;;
     match ins_error res with
     | Some error => throw error
     | None => ret (ins_data res)
     end)%js
    (fun error =>
       (emit (ConsoleError (lit "Error saving audio generation:") error) ;;
        throw error)%js).

End SupabaseService.

(* ================================================================== *)
(** * pages/text-to-speech-generator: [handleGenerate] *)

Module TextToSpeechGenerator.

(** A state cell that holds [null], [undefined] or a value. *)
Inductive nullable (A : Type) :=
| JNull
| JUndefined
| JValue (a : A).
Arguments JNull {A}.
Arguments JUndefined {A}.
Arguments JValue {A} a.

Record User := mkUser { id : jsstring }.

(** What [handleGenerate] reads and does not write. *)
Record Inputs := mkInputs {
  text : jsstring;
  voiceStyle : jsstring;
  voiceSpeed : jsstring;
  voicePitch : jsstring;
  emotion : jsstring;
  character : jsstring;
  currentPresetId : option jsstring;
  user : option User
}.

(** The generation states of the page. *)
Record State := mkState {
  isGenerating : bool;
  progress : Z;
  audioUrl : nullable jsstring;
  audioBlob : nullable Blob;
  error : jsstring
}.

Definition setIsGenerating (b : bool) (s : State) : State :=
  mkState b (progress s) (audioUrl s) (audioBlob s) (error s).
Definition setProgress (v : Z) (s : State) : State :=
  mkState (isGenerating s) v (audioUrl s) (audioBlob s) (error s).
Definition setAudioUrl (u : nullable jsstring) (s : State) : State :=
  mkState (isGenerating s) (progress s) u (audioBlob s) (error s).
Definition setAudioBlob (b : nullable Blob) (s : State) : State :=
  mkState (isGenerating s) (progress s) (audioUrl s) b (error s).
Definition setError (e : jsstring) (s : State) : State :=
  mkState (isGenerating s) (progress s) (audioUrl s) (audioBlob s) e.

(** A handler: it updates the state cells, performs events and returns or
    throws; the updates made before a throw stay. *)
Definition P (A : Type) : Type := State -> State * M A.

Definition pret {A} (a : A) : P A := fun s => (s, ret a).

Definition pbind {A B} (c : P A) (k : A -> P B) : P B :=
  fun s =>
    match c s with
    | (s1, (tr, inl e)) => (s1, (tr, inl e))
    | (s1, (tr, inr a)) =>
        let '(s2, (tr', r)) := k a s1 in (s2, (tr ++ tr', r))
    end.

Definition ptry {A} (c : P A) (h : JsError -> P A) : P A :=
  fun s =>
    match c s with
    | (s1, (tr, inl e)) =>
        let '(s2, (tr', r)) := h e s1 in (s2, (tr ++ tr', r))
    | (s1, (tr, inr a)) => (s1, (tr, inr a))
    end.

(** [try { c } finally { f }] for a [finally] block of state updates. *)
Definition pfinally {A} (c : P A) (f : State -> State) : P A :=
  fun s => let '(s1, m) := c s in (f s1, m).

Definition update (f : State -> State) : P unit := fun s => (f s, ret tt).

(** A service call; the values it hands to [setProgress] reach the state. *)
Definition call {A} (m : M A) : P A :=
  fun s => (fold_left (fun s v => setProgress v s) (progress_values (trace m)) s, m).

Declare Scope page_scope.
Delimit Scope page_scope with page.
Notation "x <- c ;; k" := (pbind c (fun x => k))
  (at level 61, c at next level, right associativity) : page_scope.
Notation "c ;; k" := (pbind c (fun _ => k))
  (at level 61, right associativity) : page_scope.

Definition getCurrentSettings (i : Inputs) : TTSService.VoiceSettings :=
  {| TTSService.voiceStyle := voiceStyle i;
     TTSService.voiceSpeed := voiceSpeed i;
     TTSService.voicePitch := voicePitch i;
     TTSService.emotion := emotion i;
     TTSService.character := character i |}.

Definition nonempty (s : jsstring) : bool := negb (eqb s []).

Definition canGenerate (i : Inputs) : bool :=
  nonempty (trim (text i)) && nonempty (voiceStyle i) && nonempty (voiceSpeed i)
  && nonempty (voicePitch i) && nonempty (emotion i) && nonempty (character i).

(** [user?.id], when truthy. *)
Definition user_id_of (i : Inputs) : option jsstring :=
  match user i with
  | Some u => if nonempty (id u) then Some (id u) else None
  | None => None
  end.

(** [result?.audioUrl] and [result?.audioBlob] *)
Definition result_audioUrl (r : option TTSService.GenerationResult) : nullable jsstring :=
  match r with Some g => JValue (TTSService.audioUrl g) | None => JUndefined end.
Definition result_audioBlob (r : option TTSService.GenerationResult) : nullable Blob :=
  match r with Some g => JValue (TTSService.audioBlob g) | None => JUndefined end.

(** [err?.message || 'Failed to generate audio. Please try again.'] *)
Definition message_or_default (e : JsError) : jsstring :=
  match message e with
  | Some m => if eqb m [] then lit "Failed to generate audio. Please try again." else m
  | None => lit "Failed to generate audio. Please try again."
  end.

(** The state setter handed over as progress callback never throws. *)
Definition progressCallback : ProgressCallback := fun _ => None.

Definition handleGenerate (env : Env) (i : Inputs) : P unit :=
  if negb (canGenerate i) then pret tt
  else
    (update (setIsGenerating true) ;;
     update (setProgress 0) ;;
     update (setError []) ;;
     update (setAudioUrl JNull) ;;
     update (setAudioBlob JNull) ;;
     pfinally
       (ptry
          (let voiceSettings := getCurrentSettings i in
           result <- call (TTSService.generateSpeechWithFallback env (text i)
                             voiceSettings (Some progressCallback)) ;;
           update (setAudioUrl (result_audioUrl result)) ;;
           update (setAudioBlob (result_audioBlob result)) ;;
           match user_id_of i with
           | Some uid =>
               ptry
                 (_ <- call (SupabaseService.saveAudioGeneration env
                               {| text_content := text i;
                                  audio_url := None;
                                  duration_seconds := option_map TTSService.duration result;
                                  preset_id := currentPresetId i;
                                  user_id := uid |}) ;;
                  pret tt)
                 (fun dbError =>
                    call (emit (ConsoleWarn
                                  (lit "Failed to save generation to database:")
                                  dbError)))
           | None => pret tt
           end ;;
           call (emit (SetTimeout 1500)))
          (fun err =>
             update (setError (message_or_default err)) ;;
             call (emit (ConsoleError (lit "Generation error:") err))))
       (setIsGenerating false))%page.

End TextToSpeechGenerator.

(* ================================================================== *)
(** * components/AudioPlayer: the seek and volume handlers *)

Module AudioPlayer.

Record State := mkState {
  isPlaying : bool;
  currentTime : Num.number;
  duration : Num.number;
  volume : Num.number
}.

(** The [<audio>] element behind [audioRef]. *)
Record HTMLAudioElement := mkAudio {
  el_currentTime : Num.number;
  el_duration : Num.number;
  el_volume : Num.number;
  el_paused : bool
}.

(** The click on the progress bar: [e.clientX] and the bar's bounding
    rectangle. *)
Record ClickEvent := mkClick {
  clientX : Num.number;
  rect_left : Num.number;
  rect_width : Num.number
}.

(** The change of the volume slider: the number [parseFloat] reads from
    [e.target.value], [NaN] when it reads none. *)
Record ChangeEvent := mkChange { target_value : Num.number }.

Inductive DOMException := TypeError | IndexSizeError.

(** The element's [currentTime] setter: a value that is not finite is
    refused, any other is a seek, which the element confines to its media. *)
Definition set_currentTime (audio : HTMLAudioElement) (t : Num.number)
  : DOMException + HTMLAudioElement :=
  if Num.isFinite t then
    let t' := if Num.ltb t (Num.ofZ 0) then Num.ofZ 0
              else if Num.ltb (el_duration audio) t then el_duration audio
              else t in
    inr (mkAudio t' (el_duration audio) (el_volume audio) (el_paused audio))
  else inl TypeError.

(** The element's [volume] setter: it takes a value of [0, 1] only. *)
Definition set_volume (audio : HTMLAudioElement) (v : Num.number)
  : DOMException + HTMLAudioElement :=
  if Num.isFinite v then
    if Num.leb (Num.ofZ 0) v && Num.leb v (Num.ofZ 1) then
      inr (mkAudio (el_currentTime audio) (el_duration audio) v (el_paused audio))
    else inl IndexSizeError
  else inl TypeError.

(** What a handler leaves: the state, the element, and the exception it
    ended with, if any. *)
Definition Result : Type := State * option HTMLAudioElement * option DOMException.

(** [(clickX / rect.width) * duration] *)
Definition seekTime (e : ClickEvent) (duration : Num.number) : Num.number :=
  let clickX := Num.sub (clientX e) (rect_left e) in
  Num.mul (Num.div clickX (rect_width e)) duration.

Definition handleSeek (e : ClickEvent) (audioRef : option HTMLAudioElement)
    (s : State) : Result :=
  match audioRef with
  | None => (s, None, None)
  | Some audio =>
      let newTime := seekTime e (duration s) in
      match set_currentTime audio newTime with
      | inl ex => (s, Some audio, Some ex)
      | inr audio' =>
          (mkState (isPlaying s) newTime (duration s) (volume s), Some audio', None)
      end
  end.

Definition handleVolumeChange (e : ChangeEvent) (audioRef : option HTMLAudioElement)
    (s : State) : Result :=
  let newVolume := target_value e in
  let s' := mkState (isPlaying s) (currentTime s) (duration s) newVolume in
  match audioRef with
  | None => (s', None, None)
  | Some audio =>
      match set_volume audio newVolume with
      | inl ex => (s', Some audio, Some ex)
      | inr audio' => (s', Some audio', None)
      end
  end.

End AudioPlayer.

(* ================================================================== *)
(** * Definitions for the statements *)

(** ** The specification's own wording *)

(** The stages [generateSpeech] reports. *)
Definition stages : list Z := [10; 30; 70; 90; 100].

Fixpoint nondecreasing (l : list Z) : bool :=
  match l with
  | a :: (b :: _) as l' => (a <=? b) && nondecreasing l'
  | _ => true
  end.

(** The words of a text as the specification counts them: its maximal runs
    of code units that are not white space.  [after_ws] tells that the scan
    stands at the start of the text or behind white space. *)
Fixpoint count_tokens (after_ws : bool) (s : jsstring) : nat :=
  match s with
  | [] => 0
  | c :: s' =>
      if isWhiteSpace c then count_tokens true s'
      else ((if after_ws then 1 else 0) + count_tokens false s')%nat
  end.

(** The number of whitespace-separated tokens of the trimmed text. *)
Definition specWordCount (text : jsstring) : Z :=
  Z.of_nat (count_tokens true (trim text)).

(** Whether a scan that starts in state [b] ends behind white space. *)
Fixpoint ends_ws (b : bool) (s : jsstring) : bool :=
  match s with
  | [] => b
  | c :: s' => ends_ws (isWhiteSpace c) s'
  end.

(** The duration estimate as the specification words it, in exact
    arithmetic: the ceiling of [w / 150 * 60]. *)
Definition specDuration (w : Z) : Z := - ((- (w * 60)) / 150).

(** The error the primary call ends with when a precondition fails. *)
Definition precondition_error (env : Env) : JsError :=
  if TTSService.api_key_missing env
  then Error "Invalid or missing OpenAI API key. Please check your configuration."
  else Error "Speech generation failed: Text content is required for speech generation.".

Definition knownCharacters : list jsstring :=
  map lit ["chloe"; "kelly"; "racheal"; "david"; "alex"; "sarah"]%string.

Definition knownSpeeds : list jsstring :=
  map lit ["slow"; "normal"; "fast"]%string.

Definition with_character (c : jsstring) (s : TTSService.VoiceSettings)
  : TTSService.VoiceSettings :=
  TTSService.mkVoiceSettings (TTSService.voiceStyle s) (TTSService.voiceSpeed s)
    (TTSService.voicePitch s) (TTSService.emotion s) c.

Definition with_voiceSpeed (v : jsstring) (s : TTSService.VoiceSettings)
  : TTSService.VoiceSettings :=
  TTSService.mkVoiceSettings (TTSService.voiceStyle s) v
    (TTSService.voicePitch s) (TTSService.emotion s) (TTSService.character s).


(** The click lies on the bar: [0 <= clickX <= rect.width], with a bar of
    positive finite width. *)
Definition on_bar (e : AudioPlayer.ClickEvent) : bool :=
  let clickX := Num.sub (AudioPlayer.clientX e) (AudioPlayer.rect_left e) in
  Num.leb (Num.ofZ 0) clickX && Num.leb clickX (AudioPlayer.rect_width e)
  && Num.ltb (Num.ofZ 0) (AudioPlayer.rect_width e)
  && Num.isFinite (AudioPlayer.rect_width e).

(** The numbers of the event are well-formed binary64 values. *)
Definition wf_event (e : AudioPlayer.ClickEvent) : bool :=
  Num.valid (AudioPlayer.clientX e) && Num.valid (AudioPlayer.rect_left e)
  && Num.valid (AudioPlayer.rect_width e).

(** A well-formed, finite duration that is not negative. *)
Definition wf_duration (d : Num.number) : bool :=
  Num.valid d && Num.leb (Num.ofZ 0) d && Num.isFinite d.

(** ** Sample inputs *)

Definition settings0 : TTSService.VoiceSettings :=
  {| TTSService.voiceStyle := lit "female";
     TTSService.voiceSpeed := lit "normal";
     TTSService.voicePitch := lit "medium";
     TTSService.emotion := lit "neutral";
     TTSService.character := lit "chloe" |}.

Definition settings1 : TTSService.VoiceSettings :=
  {| TTSService.voiceStyle := lit "male";
     TTSService.voiceSpeed := lit "normal";
     TTSService.voicePitch := lit "high";
     TTSService.emotion := lit "excited";
     TTSService.character := lit "chloe" |}.

(** The key is set, the vendor answers, the database is down. *)
Definition env_ok : Env :=
  {| VITE_OPENAI_API_KEY := Some (lit "sk-test");
     speech_create := fun _ => inr {| arrayBuffer := inr [73; 68; 51]%N |};
     createObjectURL := fun _ => lit "blob:1";
     audio_generations_insert := fun _ => inl (Error "connection refused") |}.

(** No key is set. *)
Definition env_nokey : Env :=
  {| VITE_OPENAI_API_KEY := None;
     speech_create := fun _ => inl (Error "401");
     createObjectURL := fun _ => lit "blob:1";
     audio_generations_insert := fun _ => inr (mkInsertResult None None) |}.

(** The key is set, the vendor refuses the request. *)
Definition env_quota : Env :=
  {| VITE_OPENAI_API_KEY := Some (lit "sk-test");
     speech_create := fun _ => inl (Error "You exceeded your current quota");
     createObjectURL := fun _ => lit "blob:1";
     audio_generations_insert := fun _ => inr (mkInsertResult None None) |}.

(** A text of 155 words. *)
Definition text155 : jsstring := List.concat (repeat (lit "word ") 155).

(** A text of 160 words. *)
Definition text160 : jsstring := List.concat (repeat (lit "word ") 160).

Definition inputs0 : TextToSpeechGenerator.Inputs :=
  {| TextToSpeechGenerator.text := lit "Hello world";
     TextToSpeechGenerator.voiceStyle := lit "female";
     TextToSpeechGenerator.voiceSpeed := lit "normal";
     TextToSpeechGenerator.voicePitch := lit "medium";
     TextToSpeechGenerator.emotion := lit "neutral";
     TextToSpeechGenerator.character := lit "chloe";
     TextToSpeechGenerator.currentPresetId := None;
     TextToSpeechGenerator.user := Some (TextToSpeechGenerator.mkUser (lit "user-1")) |}.

Definition page0 : TextToSpeechGenerator.State :=
  TextToSpeechGenerator.mkState false 0 TextToSpeechGenerator.JNull
    TextToSpeechGenerator.JNull [].

(** A player at second 3 of 10, playing, at full volume. *)
Definition player0 : AudioPlayer.State :=
  AudioPlayer.mkState true (Num.ofZ 3) (Num.ofZ 10) (Num.ofZ 1).

Definition audio0 : AudioPlayer.HTMLAudioElement :=
  AudioPlayer.mkAudio (Num.ofZ 3) (Num.ofZ 10) (Num.ofZ 1) false.

(** A click in the middle of a bar of width 100 that starts at 20. *)
Definition click_mid : AudioPlayer.ClickEvent :=
  AudioPlayer.mkClick (Num.ofZ 70) (Num.ofZ 20) (Num.ofZ 100).

(** A click event whose [clientX] lies 100 beyond the right end of the
    bar. *)
Definition click_beyond : AudioPlayer.ClickEvent :=
  AudioPlayer.mkClick (Num.ofZ 200) (Num.ofZ 0) (Num.ofZ 100).

(** ** Binary64 values as real numbers *)

Definition bpow (e : Z) : R := powerRZ 2 e.

Definition F2R (m e : Z) : R := (IZR m * bpow e)%R.

(** The real number a float stands for; zero for what is not finite. *)
Definition SF2R (z : spec_float) : R :=
  match z with
  | S754_finite s m e => F2R (cond_Zopp s (Zpos m)) e
  | _ => 0%R
  end.

(** The relative error of one rounding in the normal range. *)
Definition eps : R := bpow (-52).

Definition inexact (mrs : shr_record) : bool := shr_r mrs || shr_s mrs.

(** [mrs] at exponent [e] holds [x] truncated: [x = (m + f) * 2^e] with
    [0 <= f < 1], and a flag of [mrs] is up only if [0 < f]. *)
Definition inb (x : R) (mrs : shr_record) (e : Z) : Prop :=
  0 <= shr_m mrs
  /\ exists f : R,
      x = ((IZR (shr_m mrs) + f) * bpow e)%R
      /\ (0 <= f < 1)%R
      /\ (inexact mrs = true -> (0 < f)%R).

(** The float a rounded mantissa [m] at exponent [e] is packed into. *)
Definition pack (s : bool) (m e : Z) : spec_float :=
  if m =? 0 then S754_zero s
  else if m =? 2 ^ 53 then
    if e + 1 <=? 971 then S754_finite s (Z.to_pos (2 ^ 52)) (e + 1)
    else S754_infinity s
  else if e <=? 971 then S754_finite s (Z.to_pos m) e
  else S754_infinity s.

(** [z] is [x >= 0] rounded to one of the two floats around it, with sign
    [s]: [m1] is the mantissa of [x] truncated at its canonical exponent
    [e1]. *)
Definition rounded (s : bool) (x : R) (z : spec_float) : Prop :=
  exists m1 e1 m1',
    -1074 <= e1
    /\ 0 <= m1 < 2 ^ 53
    /\ (e1 = -1074 \/ 2 ^ 52 <= m1)
    /\ (IZR m1 * bpow e1 <= x < IZR (m1 + 1) * bpow e1)%R
    /\ (m1' = m1 \/ (m1' = m1 + 1 /\ (IZR m1 * bpow e1 < x)%R))
    /\ z = pack s m1' e1.

(** Zero of either sign or a canonical positive float. *)
Definition nonneg_finite (z : spec_float) : bool :=
  match z with
  | S754_zero _ => true
  | S754_finite false m e => SpecFloat.bounded Num.prec Num.emax m e
  | _ => false
  end.

(* ================================================================== *)
(** * services/ttsService.js: options, validation, download *)

Module TTSServiceHelpers.

Definition required : list jsstring :=
  map lit ["voiceStyle"; "voiceSpeed"; "voicePitch"; "emotion"; "character"]%string.

(** A settings object, for the reads [settings?.[key]]. *)
Definition settings_object (settings : TTSService.VoiceSettings) : object :=
  [ (lit "voiceStyle", VString (TTSService.voiceStyle settings));
    (lit "voiceSpeed", VString (TTSService.voiceSpeed settings));
    (lit "voicePitch", VString (TTSService.voicePitch settings));
    (lit "emotion", VString (TTSService.emotion settings));
    (lit "character", VString (TTSService.character settings)) ].

Definition validateVoiceSettings (settings : TTSService.VoiceSettings) : bool :=
  forallb (fun key => truthy (get (settings_object settings) key)) required.

Record CharacterOption := mkCharacterOption {
  c_value : jsstring;
  c_label : jsstring;
  openaiVoice : jsstring
}.

Record SpeedOption := mkSpeedOption {
  s_value : jsstring;
  s_label : jsstring;
  multiplier : Num.number
}.

Record ModelOption := mkModelOption {
  m_value : jsstring;
  m_label : jsstring;
  description : jsstring
}.

Record VoiceOptions := mkVoiceOptions {
  characters : list CharacterOption;
  speeds : list SpeedOption;
  models : list ModelOption
}.

Definition getVoiceOptions : VoiceOptions :=
  {| characters :=
       [ mkCharacterOption (lit "chloe") (lit "Chloe") (lit "alloy");
         mkCharacterOption (lit "kelly") (lit "Kelly") (lit "echo");
         mkCharacterOption (lit "racheal") (lit "Racheal") (lit "fable");
         mkCharacterOption (lit "david") (lit "David") (lit "onyx");
         mkCharacterOption (lit "alex") (lit "Alex") (lit "nova");
         mkCharacterOption (lit "sarah") (lit "Sarah") (lit "shimmer") ];
     speeds :=
       [ mkSpeedOption (lit "slow") (lit "Slow (0.75x)") (Num.dyadic 3 (-2));
         mkSpeedOption (lit "normal") (lit "Normal (1.0x)") (Num.ofZ 1);
         mkSpeedOption (lit "fast") (lit "Fast (1.25x)") (Num.dyadic 5 (-2)) ];
     models :=
       [ mkModelOption (lit "tts-1") (lit "Standard Quality") (lit "Faster processing");
         mkModelOption (lit "tts-1-hd") (lit "High Quality")
           (lit "Better audio quality, slower") ] |}.

(** The anchor element [downloadAudio] builds. *)
Record Anchor := mkAnchor { href : jsstring; download : jsstring }.

(** What [downloadAudio] does to the document and to the URL store. *)
Inductive DomEvent :=
| CreateObjectURL (b : Blob)
| AppendChild (a : Anchor)
| Click (a : Anchor)
| RemoveChild (a : Anchor)
| RevokeObjectURLAfter (ms : Z) (url : jsstring).

(** The time value [Date.now()] in a template literal: its decimal digits. *)
Definition decimal (n : N) : jsstring := lit (NilEmpty.string_of_uint (N.to_uint n)).

(** [filename || `tts-audio-${Date.now()}.mp3`] *)
Definition download_name (now : N) (filename : option jsstring) : jsstring :=
  match filename with
  | Some f => if eqb f [] then lit "tts-audio-" ++ decimal now ++ lit ".mp3" else f
  | None => lit "tts-audio-" ++ decimal now ++ lit ".mp3"
  end.

Definition downloadAudio (env : Env) (now : N) (audioBlob : Blob)
    (filename : option jsstring) : list DomEvent :=
  let link := {| href := createObjectURL env audioBlob;
                 download := download_name now filename |} in
  [ CreateObjectURL audioBlob; AppendChild link; Click link; RemoveChild link;
    RevokeObjectURLAfter 1000 (href link) ].

End TTSServiceHelpers.

(* ================================================================== *)
(** * pages/text-to-speech-generator: presets and download *)

Module PageHandlers.

(** The settings object of a preset; a field may be missing. *)
Record LoadedSettings := mkLoadedSettings {
  l_voiceStyle : option jsstring;
  l_voiceSpeed : option jsstring;
  l_voicePitch : option jsstring;
  l_emotion : option jsstring;
  l_character : option jsstring
}.

(** [x || d] for a string that may be missing. *)
Definition or_default (x : option jsstring) (d : string) : jsstring :=
  match x with
  | Some v => if eqb v [] then lit d else v
  | None => lit d
  end.

(** [handleLoadPreset(settings, presetId = null)]; [presetId] is [None]
    for [null] and for an argument left out. *)
Definition handleLoadPreset (settings : LoadedSettings) (presetId : option jsstring)
    (i : TextToSpeechGenerator.Inputs) : TextToSpeechGenerator.Inputs :=
  {| TextToSpeechGenerator.text := TextToSpeechGenerator.text i;
     TextToSpeechGenerator.voiceStyle := or_default (l_voiceStyle settings) "female";
     TextToSpeechGenerator.voiceSpeed := or_default (l_voiceSpeed settings) "normal";
     TextToSpeechGenerator.voicePitch := or_default (l_voicePitch settings) "medium";
     TextToSpeechGenerator.emotion := or_default (l_emotion settings) "neutral";
     TextToSpeechGenerator.character := or_default (l_character settings) "chloe";
     TextToSpeechGenerator.currentPresetId := presetId;
     TextToSpeechGenerator.user := TextToSpeechGenerator.user i |}.

(** [toISOString().slice(0, 19).replace(/[:.]/g, '-')] of the string
    [iso] that [toISOString] gives. *)
Definition timestamp (iso : jsstring) : jsstring :=
  map (fun c => if (c =? 58) || (c =? 46) then 45 else c)%N (firstn 19 iso).

(** [`tts-${character}-${voiceSpeed}-${timestamp}.mp3`] *)
Definition filename (currentSettings : TTSService.VoiceSettings) (iso : jsstring)
  : jsstring :=
  lit "tts-" ++ TTSService.character currentSettings ++ lit "-"
  ++ TTSService.voiceSpeed currentSettings ++ lit "-" ++ timestamp iso ++ lit ".mp3".

Definition handleDownload (env : Env) (iso : jsstring) (now : N)
    (i : TextToSpeechGenerator.Inputs) (s : TextToSpeechGenerator.State)
  : list TTSServiceHelpers.DomEvent :=
  match TextToSpeechGenerator.audioBlob s with
  | TextToSpeechGenerator.JValue audioBlob =>
      let currentSettings := TextToSpeechGenerator.getCurrentSettings i in
      TTSServiceHelpers.downloadAudio env now audioBlob
        (Some (filename currentSettings iso))
  | _ => []
  end.

End PageHandlers.

(* ================================================================== *)
(** * components/AudioPlayer: play, pause and the media events *)

Module PlayerControls.

(** How [audio.play()] ends: it resolves or it rejects with an error; in
    both cases the element is left in some state [after]. *)
Inductive PlayOutcome :=
| Resolved (after : AudioPlayer.HTMLAudioElement)
| Rejected (error : JsError) (after : AudioPlayer.HTMLAudioElement).

(** [audio.pause()] *)
Definition pause (audio : AudioPlayer.HTMLAudioElement) : AudioPlayer.HTMLAudioElement :=
  AudioPlayer.mkAudio (AudioPlayer.el_currentTime audio) (AudioPlayer.el_duration audio)
    (AudioPlayer.el_volume audio) true.

Definition setIsPlaying (b : bool) (s : AudioPlayer.State) : AudioPlayer.State :=
  AudioPlayer.mkState b (AudioPlayer.currentTime s) (AudioPlayer.duration s)
    (AudioPlayer.volume s).

Definition setCurrentTime (t : Num.number) (s : AudioPlayer.State) : AudioPlayer.State :=
  AudioPlayer.mkState (AudioPlayer.isPlaying s) t (AudioPlayer.duration s)
    (AudioPlayer.volume s).

Definition setDuration (d : Num.number) (s : AudioPlayer.State) : AudioPlayer.State :=
  AudioPlayer.mkState (AudioPlayer.isPlaying s) (AudioPlayer.currentTime s) d
    (AudioPlayer.volume s).

(** The state, the element and the console output a handler leaves. *)
Definition Outcome : Type :=
  AudioPlayer.State * option AudioPlayer.HTMLAudioElement * list Event.

Definition togglePlayPause (play : PlayOutcome)
    (audioRef : option AudioPlayer.HTMLAudioElement) (s : AudioPlayer.State)
  : Outcome :=
  match audioRef with
  | None => (s, None, [])
  | Some audio =>
      if AudioPlayer.isPlaying s then
        (setIsPlaying false s, Some (pause audio), [])
      else
        match play with
        | Resolved after => (setIsPlaying true s, Some after, [])
        | Rejected error after =>
            (setIsPlaying false s, Some after,
             [ConsoleWarn (lit "Audio playback error:") error])
        end
  end.

(** [x || 0] *)
Definition or_zero (x : Num.number) : Num.number :=
  if Num.truthy x then x else Num.ofZ 0.

(** The listeners the component registers on the element. *)
Definition updateTime (audio : AudioPlayer.HTMLAudioElement) (s : AudioPlayer.State)
  : AudioPlayer.State :=
  setCurrentTime (or_zero (AudioPlayer.el_currentTime audio)) s.

Definition updateDuration (audio : AudioPlayer.HTMLAudioElement) (s : AudioPlayer.State)
  : AudioPlayer.State :=
  setDuration (or_zero (AudioPlayer.el_duration audio)) s.

Definition handleLoadedData (audio : AudioPlayer.HTMLAudioElement) (s : AudioPlayer.State)
  : AudioPlayer.State :=
  setDuration (or_zero (AudioPlayer.el_duration audio)) s.

Definition handleEnded (s : AudioPlayer.State) : AudioPlayer.State :=
  setIsPlaying false s.

(** [e] is the event object, logged as it comes. *)
Definition handleError (e : JsError) (s : AudioPlayer.State)
  : AudioPlayer.State * list Event :=
  (setIsPlaying false s, [ConsoleWarn (lit "Audio loading error:") e]).

Inductive MediaEvent :=
| timeupdate
| loadedmetadata
| loadeddata
| ended
| error (e : JsError).

(** The listener of each event: the state and the console output it
    leaves. *)
Definition listener (ev : MediaEvent) (audio : AudioPlayer.HTMLAudioElement)
    (s : AudioPlayer.State) : AudioPlayer.State * list Event :=
  match ev with
  | timeupdate => (updateTime audio s, [])
  | loadedmetadata => (updateDuration audio s, [])
  | loadeddata => (handleLoadedData audio s, [])
  | ended => (handleEnded s, [])
  | error e => handleError e s
  end.

End PlayerControls.

(* ================================================================== *)
(** * services/supabaseService.js: the queries *)

Module SupabaseQueries.

(** [Math.round]: the nearest integer, a tie going up. *)
Definition Math_round (x : Num.number) : Num.number :=
  match x with
  | S754_finite s m e =>
      if 0 <=? e then x
      else
        let d := 2 ^ (- e) in
        let n := (2 * cond_Zopp s (Zpos m) + d) / (2 * d) in
        if n =? 0 then S754_zero s else Num.ofZ n
  | _ => x
  end.

Definition add : Num.number -> Num.number -> Num.number := SFadd Num.prec Num.emax.

(** The result object of a query: [{ data, error }]. *)
Record Answer (A : Type) := mkAnswer {
  data : option A;
  error : option JsError
}.
Arguments mkAnswer {A} data error.
Arguments data {A} a.
Arguments error {A} a.

(** A row of [user_profiles], as far as it is read. *)
Record Profile := mkProfile {
  role : option jsstring;
  subscription_active : option bool
}.

(** A row of [audio_generations] as selected for the statistics:
    [duration_seconds], and the time value of [new Date(generated_at)],
    [None] for an invalid date. *)
Record UsageRow := mkUsageRow {
  duration_seconds : option Num.number;
  generated_at : option Z
}.

(** The queries, each rejecting or resolving to a result object; rows that
    are handed on unread are objects. *)
Record Backend := mkBackend {
  (** [from('audio_generations').select(..).eq('user_id', userId).order(..).limit(limit)] *)
  select_audio_generations : jsstring -> Z -> JsError + Answer (list object);
  (** [from('voice_presets').select('*').eq('user_id', userId).order(..).order(..)] *)
  select_voice_presets : jsstring -> JsError + Answer (list object);
  (** [from('voice_presets').delete().eq('id', presetId).eq('user_id', userId)] *)
  delete_voice_preset : jsstring -> jsstring -> JsError + Answer unit;
  (** [from('user_profiles').select('*').eq('id', userId).single()] *)
  select_user_profile : jsstring -> JsError + Answer Profile;
  (** [auth.getUser()], read through [data.user] *)
  auth_getUser : JsError + option jsstring;
  (** [from('audio_generations').select('id, duration_seconds, generated_at').eq('user_id', userId)] *)
  select_usage : jsstring -> JsError + Answer (list UsageRow);
  (** the time value of the first day of the current month, 00:00 *)
  currentMonth : Z
}.

(** [if (error) throw error; return data], where [k] reads [data]. *)
Definition unwrap {A B} (k : option A -> B) (r : Answer A) : M B :=
  match error r with
  | Some e => throw e
  | None => ret (k (data r))
  end.

(** [catch (error) { console.error(tag, error); throw error; }] *)
Definition log_and_rethrow {A} (tag : string) (e : JsError) : M A :=
  (emit (ConsoleError (lit tag) e) ;; throw e)%js.





Definition getUserProfile (db : Backend) (userId : jsstring) : M (option Profile) :=
  try_catch
    (r <- lift (select_user_profile db userId) ;; unwrap (fun d => d) r)%js
    (log_and_rethrow "Error fetching user profile:").

Definition getCurrentUser (db : Backend) : M (option jsstring) :=
  try_catch
    (lift (auth_getUser db))
    (fun e => (emit (ConsoleError (lit "Error getting current user:") e) ;; ret None)%js).

(** [profile?.role === 'premium' && profile?.subscription_active === true] *)
Definition is_premium (profile : option Profile) : bool :=
  match profile with
  | Some p =>
      match role p with
      | Some r => eqb r (lit "premium")
      | None => false
      end
      && match subscription_active p with
         | Some b => b
         | None => false
         end
  | None => false
  end.

Definition checkPremiumAccess (db : Backend) (userId : jsstring) : M bool :=
  try_catch
    (profile <- getUserProfile db userId ;; ret (is_premium profile))%js
    (fun e => (emit (ConsoleError (lit "Error checking premium access:") e) ;; ret false)%js).

Record UsageStats := mkUsageStats {
  totalGenerations : Z;
  totalDurationSeconds : Num.number;
  thisMonthGenerations : Z;
  averageDuration : Num.number
}.

(** [(sum, item) => sum + (item?.duration_seconds || 0)] *)
Definition add_duration (sum : Num.number) (item : UsageRow) : Num.number :=
  add sum (match duration_seconds item with
           | Some d => PlayerControls.or_zero d
           | None => Num.ofZ 0
           end).

(** [new Date(item.generated_at) >= currentMonth] *)
Definition in_current_month (db : Backend) (item : UsageRow) : bool :=
  match generated_at item with
  | Some t => currentMonth db <=? t
  | None => false
  end.

Definition usage_stats (db : Backend) (data : option (list UsageRow)) : UsageStats :=
  let totalGenerations :=
    match data with Some l => Z.of_nat (List.length l) | None => 0 end in
  let totalDuration :=
    match data with
    | Some l => PlayerControls.or_zero (fold_left add_duration l (Num.ofZ 0))
    | None => Num.ofZ 0
    end in
  let thisMonthGenerations :=
    match data with
    | Some l => Z.of_nat (List.length (filter (in_current_month db) l))
    | None => 0
    end in
  {| totalGenerations := totalGenerations;
     totalDurationSeconds := totalDuration;
     thisMonthGenerations := thisMonthGenerations;
     averageDuration :=
       if 0 <? totalGenerations
       then Math_round (Num.div totalDuration (Num.ofZ totalGenerations))
       else Num.ofZ 0 |}.

Definition getUserUsageStats (db : Backend) (userId : jsstring) : M UsageStats :=
  try_catch
    (r <- lift (select_usage db userId) ;; unwrap (usage_stats db) r)%js
    (fun e =>
       (emit (ConsoleError (lit "Error fetching usage stats:") e) ;;
        ret {| totalGenerations := 0;
               totalDurationSeconds := Num.ofZ 0;
               thisMonthGenerations := 0;
               averageDuration := Num.ofZ 0 |})%js).

End SupabaseQueries.

(* ================================================================== *)
(** * components/PresetManager: saving, loading and deleting presets *)

Module PresetManager.

(** A preset of the list, as far as the handlers read it: a row of
    [voice_presets] for a signed-in user, else an entry of the local
    store with a [settings] object. *)
Record Preset := mkPreset {
  id : jsstring;
  name : option jsstring;
  voice_style : option jsstring;
  voice_speed : option jsstring;
  voice_pitch : option jsstring;
  emotion : option jsstring;
  character : option jsstring;
  settings : option PageHandlers.LoadedSettings
}.

(** The row [handleSavePreset] inserts for a signed-in user. *)
Record NewPreset := mkNewPreset {
  np_user_id : jsstring;
  np_name : jsstring;
  np_voice_style : jsstring;
  np_voice_speed : jsstring;
  np_voice_pitch : jsstring;
  np_emotion : jsstring;
  np_character : jsstring;
  np_is_default : bool
}.

(** What the component has around it: the two queries, each rejecting or
    resolving to a result object, [String.prototype.toLowerCase],
    [Date.now()] and the answer to [window.confirm]. *)
Record Host := mkHost {
  (** [from('voice_presets').insert([newPreset]).select().single()] *)
  insert_voice_preset : NewPreset -> JsError + SupabaseQueries.Answer Preset;
  (** [from('voice_presets').delete().eq('id', presetId).eq('user_id', userId)] *)
  delete_voice_preset : jsstring -> jsstring -> JsError + SupabaseQueries.Answer unit;
  toLowerCase : jsstring -> jsstring;
  now : N;
  confirm : bool
}.

(** The state cells of the component; an entry of [presets] is [None]
    where the list holds [null]. *)
Record State := mkState {
  presets : list (option Preset);
  showSaveDialog : bool;
  presetName : jsstring;
  saveError : jsstring;
  loading : bool
}.

Definition setPresets (l : list (option Preset)) (s : State) : State :=
  mkState l (showSaveDialog s) (presetName s) (saveError s) (loading s).
Definition setShowSaveDialog (b : bool) (s : State) : State :=
  mkState (presets s) b (presetName s) (saveError s) (loading s).
Definition setPresetName (n : jsstring) (s : State) : State :=
  mkState (presets s) (showSaveDialog s) n (saveError s) (loading s).
Definition setSaveError (e : string) (s : State) : State :=
  mkState (presets s) (showSaveDialog s) (presetName s) (lit e) (loading s).
Definition setLoading (b : bool) (s : State) : State :=
  mkState (presets s) (showSaveDialog s) (presetName s) (saveError s) b.

(** What a handler does outside the state. *)
Inductive Effect :=
| InsertPreset (p : NewPreset)
| DeletePreset (presetId userId : jsstring)
| LogError (tag : jsstring) (e : JsError).

(** [preset?.name?.toLowerCase() === presetName?.toLowerCase()] *)
Definition same_name (h : Host) (presetName : jsstring) (p : option Preset) : bool :=
  match p with
  | Some p =>
      match name p with
      | Some n => eqb (toLowerCase h n) (toLowerCase h presetName)
      | None => false
      end
  | None => false
  end.

(** [{ ...currentSettings }] *)
Definition copy_settings (currentSettings : TTSService.VoiceSettings)
  : PageHandlers.LoadedSettings :=
  {| PageHandlers.l_voiceStyle := Some (TTSService.voiceStyle currentSettings);
     PageHandlers.l_voiceSpeed := Some (TTSService.voiceSpeed currentSettings);
     PageHandlers.l_voicePitch := Some (TTSService.voicePitch currentSettings);
     PageHandlers.l_emotion := Some (TTSService.emotion currentSettings);
     PageHandlers.l_character := Some (TTSService.character currentSettings) |}.

(** [x || d] for a string. *)
Definition or_string (x : jsstring) (d : string) : jsstring :=
  if eqb x [] then lit d else x.

Definition handleSavePreset (h : Host) (userId : option jsstring)
    (currentSettings : TTSService.VoiceSettings) (s : State) : State * list Effect :=
  let s := setSaveError EmptyString s in
  if eqb (trim (presetName s)) [] then
    (setSaveError "Please enter a preset name" s, [])
  else if existsb (same_name h (presetName s)) (presets s) then
    (setSaveError "A preset with this name already exists" s, [])
  else
    let s := setLoading true s in
    match userId with
    | Some uid =>
        let newPreset :=
          {| np_user_id := uid;
             np_name := trim (presetName s);
             np_voice_style := or_string (TTSService.voiceStyle currentSettings) "female";
             np_voice_speed := or_string (TTSService.voiceSpeed currentSettings) "normal";
             np_voice_pitch := or_string (TTSService.voicePitch currentSettings) "medium";
             np_emotion := or_string (TTSService.emotion currentSettings) "neutral";
             np_character := or_string (TTSService.character currentSettings) "chloe";
             np_is_default := false |} in
        match insert_voice_preset h newPreset with
        | inl e =>
            (setLoading false (setSaveError "Failed to save preset. Please try again." s),
             [InsertPreset newPreset; LogError (lit "Error saving preset:") e])
        | inr r =>
            match SupabaseQueries.error r with
            | Some e =>
                (setLoading false
                   (setSaveError "Failed to save preset. Please try again." s),
                 [InsertPreset newPreset; LogError (lit "Error saving preset:") e])
            | None =>
                (setLoading false
                   (setShowSaveDialog false
                      (setPresetName [] (setPresets (SupabaseQueries.data r :: presets s) s))),
                 [InsertPreset newPreset])
            end
        end
    | None =>
        let newPreset :=
          {| id := TTSServiceHelpers.decimal (now h);
             name := Some (trim (presetName s));
             voice_style := None;
             voice_speed := None;
             voice_pitch := None;
             emotion := None;
             character := None;
             settings := Some (copy_settings currentSettings) |} in
        (setLoading false
           (setShowSaveDialog false
              (setPresetName [] (setPresets (Some newPreset :: presets s) s))),
         [])
    end.

(** [p?.id === presetId] *)
Definition has_id (presetId : jsstring) (p : option Preset) : bool :=
  match p with
  | Some p => eqb (id p) presetId
  | None => false
  end.

(** [presets?.find(p => p?.id === presetId)], [None] when the result is
    not truthy. *)
Definition find_preset (l : list (option Preset)) (presetId : jsstring)
  : option Preset :=
  match find (has_id presetId) l with
  | Some (Some p) => Some p
  | _ => None
  end.

(** [{}] *)
Definition empty_settings : PageHandlers.LoadedSettings :=
  PageHandlers.mkLoadedSettings None None None None None.

(** [handleLoadPreset(presetId)]; [onLoadPreset] is the page's
    [handleLoadPreset], called with the settings alone. *)
Definition handleLoadPreset (l : list (option Preset)) (presetId : jsstring)
    (i : TextToSpeechGenerator.Inputs) : TextToSpeechGenerator.Inputs :=
  match find_preset l presetId with
  | None => i
  | Some preset =>
      match TextToSpeechGenerator.user_id_of i with
      | Some _ =>
          let settings :=
            {| PageHandlers.l_voiceStyle :=
                 Some (PageHandlers.or_default (voice_style preset) "female");
               PageHandlers.l_voiceSpeed :=
                 Some (PageHandlers.or_default (voice_speed preset) "normal");
               PageHandlers.l_voicePitch :=
                 Some (PageHandlers.or_default (voice_pitch preset) "medium");
               PageHandlers.l_emotion :=
                 Some (PageHandlers.or_default (emotion preset) "neutral");
               PageHandlers.l_character :=
                 Some (PageHandlers.or_default (character preset) "chloe") |} in
          PageHandlers.handleLoadPreset settings None i
      | None =>
          PageHandlers.handleLoadPreset
            (match settings preset with Some st => st | None => empty_settings end)
            None i
      end
  end.

Definition handleDeletePreset (h : Host) (userId : option jsstring)
    (presetId : jsstring) (s : State) : State * list Effect :=
  if negb (confirm h) then (s, [])
  else
    let s := setLoading true s in
    let remove (s : State) :=
      setPresets (filter (fun p => negb (has_id presetId p)) (presets s)) s in
    match userId with
    | Some uid =>
        match delete_voice_preset h presetId uid with
        | inl e =>
            (setLoading false (setSaveError "Failed to delete preset" s),
             [DeletePreset presetId uid; LogError (lit "Error deleting preset:") e])
        | inr r =>
            match SupabaseQueries.error r with
            | Some e =>
                (setLoading false (setSaveError "Failed to delete preset" s),
                 [DeletePreset presetId uid; LogError (lit "Error deleting preset:") e])
            | None => (setLoading false (remove s), [DeletePreset presetId uid])
            end
        end
    | None => (setLoading false (remove s), [])
    end.

End PresetManager.

(* ================================================================== *)
(** * Definitions for the further statements *)

(** A text of 2500 words in 4999 code units. *)
Definition text2500 : jsstring := lit "a" ++ List.concat (repeat (lit " a") 2499).

(** The request [generateSpeech] sends for a text and settings. *)
Definition request_of (text : jsstring) (voiceSettings : TTSService.VoiceSettings)
  : SpeechRequest :=
  {| req_model := TTSService.model (TTSService.mapVoiceSettings voiceSettings);
     req_voice := TTSService.voice (TTSService.mapVoiceSettings voiceSettings);
     req_input := text;
     req_speed := TTSService.speed (TTSService.mapVoiceSettings voiceSettings);
     req_response_format := lit "mp3" |}.

(** The events of a run of [generateSpeech] that returns, with a callback. *)
Definition skeleton (text : jsstring) (voiceSettings : TTSService.VoiceSettings)
  : list Event :=
  [ Progress 10; Progress 30; SpeechCreate (request_of text voiceSettings);
    Progress 70; Progress 90; Progress 100 ].

Definition is_progress (ev : Event) : bool :=
  match ev with Progress _ => true | _ => false end.

(** What of a run shows when no callback is supplied. *)
Definition visible (onProgress : option ProgressCallback) (tr : list Event)
  : list Event :=
  match onProgress with
  | Some _ => tr
  | None => filter (fun ev => negb (is_progress ev)) tr
  end.

Definition count_requests (tr : list Event) : nat :=
  List.length (filter is_vendor_request tr).

(** The rows handed to the insert, in order. *)
Fixpoint inserted_rows (tr : list Event) : list AudioData :=
  match tr with
  | [] => []
  | Insert d :: tr' => d :: inserted_rows tr'
  | _ :: tr' => inserted_rows tr'
  end.

(** The row [handleGenerate] hands to [saveAudioGeneration]. *)
Definition row_of (i : TextToSpeechGenerator.Inputs)
    (result : option TTSService.GenerationResult) (uid : jsstring) : AudioData :=
  {| text_content := TextToSpeechGenerator.text i;
     audio_url := None;
     duration_seconds := option_map TTSService.duration result;
     preset_id := TextToSpeechGenerator.currentPresetId i;
     user_id := uid |}.

(** The call [handleGenerate] makes. *)
Definition generation (env : Env) (i : TextToSpeechGenerator.Inputs)
  : M (option TTSService.GenerationResult) :=
  TTSService.generateSpeechWithFallback env (TextToSpeechGenerator.text i)
    (TextToSpeechGenerator.getCurrentSettings i)
    (Some TextToSpeechGenerator.progressCallback).

(** A visitor who is not signed in. *)
Definition inputs_anonymous : TextToSpeechGenerator.Inputs :=
  {| TextToSpeechGenerator.text := lit "Hello world";
     TextToSpeechGenerator.voiceStyle := lit "female";
     TextToSpeechGenerator.voiceSpeed := lit "normal";
     TextToSpeechGenerator.voicePitch := lit "medium";
     TextToSpeechGenerator.emotion := lit "neutral";
     TextToSpeechGenerator.character := lit "chloe";
     TextToSpeechGenerator.currentPresetId := None;
     TextToSpeechGenerator.user := None |}.

(** A stored preset of the signed-in user. *)
Definition preset1 : PresetManager.Preset :=
  PresetManager.mkPreset (lit "p1") (Some (lit "Radio")) (Some (lit "male"))
    (Some (lit "fast")) None
    (Some (lit "happy")) (Some (lit "david")) None.

(** No colon and no full stop among the code units of [s]. *)
Definition no_separator (s : jsstring) : bool :=
  forallb (fun c => negb ((c =? 58) || (c =? 46))%N) s.

(** A page that holds generated audio. *)
Definition page_with_audio : TextToSpeechGenerator.State :=
  TextToSpeechGenerator.mkState false 100 (TextToSpeechGenerator.JValue (lit "blob:1"))
    (TextToSpeechGenerator.JValue (mkBlob [73; 68; 51]%N (lit "audio/mpeg"))) [].

(** A seek, then a volume change on what the seek left; the exceptions of
    both handlers are kept. *)
Definition seek_then_volume (e : AudioPlayer.ClickEvent) (c : AudioPlayer.ChangeEvent)
    (audioRef : option AudioPlayer.HTMLAudioElement) (s : AudioPlayer.State)
  : AudioPlayer.State * option AudioPlayer.HTMLAudioElement
    * option AudioPlayer.DOMException * option AudioPlayer.DOMException :=
  let '(s1, ref1, ex1) := AudioPlayer.handleSeek e audioRef s in
  let '(s2, ref2, ex2) := AudioPlayer.handleVolumeChange c ref1 s1 in
  (s2, ref2, ex1, ex2).

(** The same two handlers in the other order. *)
Definition volume_then_seek (e : AudioPlayer.ClickEvent) (c : AudioPlayer.ChangeEvent)
    (audioRef : option AudioPlayer.HTMLAudioElement) (s : AudioPlayer.State)
  : AudioPlayer.State * option AudioPlayer.HTMLAudioElement
    * option AudioPlayer.DOMException * option AudioPlayer.DOMException :=
  let '(s1, ref1, ex2) := AudioPlayer.handleVolumeChange c audioRef s in
  let '(s2, ref2, ex1) := AudioPlayer.handleSeek e ref1 s1 in
  (s2, ref2, ex1, ex2).

(** A player that has not yet heard of its media. *)
Definition player_fresh : AudioPlayer.State :=
  AudioPlayer.mkState false (Num.ofZ 0) (Num.ofZ 0) (Num.ofZ 1).

(** A row of the statistics query with a whole number of seconds, or
    none, and the time value of its date, or none. *)
Definition usage_row (r : option Z * option Z) : SupabaseQueries.UsageRow :=
  SupabaseQueries.mkUsageRow (option_map Num.ofZ (fst r)) (snd r).

Definition seconds_of (r : option Z * option Z) : Z :=
  match fst r with Some d => d | None => 0 end.

Definition seconds_total (l : list (option Z * option Z)) : Z :=
  fold_right (fun r acc => seconds_of r + acc) 0 l.

(** No row has a negative number of seconds. *)
Definition seconds_ok (l : list (option Z * option Z)) : bool :=
  forallb (fun r => 0 <=? seconds_of r) l.


(** A backend whose profile query finds a premium subscriber and whose
    statistics query finds three rows; the other queries are refused. *)
Definition db0 : SupabaseQueries.Backend :=
  {| SupabaseQueries.select_audio_generations := fun _ _ => inl (Error "refused");
     SupabaseQueries.select_voice_presets := fun _ => inl (Error "refused");
     SupabaseQueries.delete_voice_preset := fun _ _ => inl (Error "refused");
     SupabaseQueries.select_user_profile := fun _ =>
       inr (SupabaseQueries.mkAnswer
              (Some (SupabaseQueries.mkProfile (Some (lit "premium")) (Some true)))
              None);
     SupabaseQueries.auth_getUser := inl (Error "refused");
     SupabaseQueries.select_usage := fun _ =>
       inr (SupabaseQueries.mkAnswer
              (Some (map usage_row
                       [(Some 3, Some 100); (None, Some 5); (Some 4, None)]))
              None);
     SupabaseQueries.currentMonth := 50 |}.



(** A host whose queries are refused, with a lower-casing of the letters
    A to Z, a clock and a user who confirms. *)
Definition host0 : PresetManager.Host :=
  {| PresetManager.insert_voice_preset := fun _ => inl (Error "refused");
     PresetManager.delete_voice_preset := fun _ _ => inl (Error "refused");
     PresetManager.toLowerCase :=
       map (fun c => if (65 <=? c) && (c <=? 90) then c + 32 else c)%N;
     PresetManager.now := 1709647629123;
     PresetManager.confirm := true |}.

(** The preset manager with one stored preset and the name [Evening]
    typed into the save dialog. *)
Definition manager0 : PresetManager.State :=
  PresetManager.mkState [Some preset1] true (lit "Evening") [] false.

(* ================================================================== *)
(** * Words of a text *)

Lemma split_scan_length b cur s :
  List.length (split_scan b cur s)
  = (count_tokens b s + (if b then 0 else 1) + (if ends_ws b s then 1 else 0))%nat.
Proof.
  revert b cur. induction s as [|c s IH]; intros b cur; cbn.
  - destruct b; reflexivity.
  - destruct (isWhiteSpace c), b; cbn; rewrite IH; cbn; lia.
Qed.

Lemma trimStart_head s :
  trimStart s = [] \/ exists c l, trimStart s = c :: l /\ isWhiteSpace c = false.
Proof.
  induction s as [|c s IH]; cbn; [now left|].
  destruct (isWhiteSpace c) eqn:W; [exact IH|right; eauto].
Qed.

Lemma trimStart_suffix s : exists w, s = w ++ trimStart s.
Proof.
  induction s as [|c s [w IH]]; cbn; [now exists []|].
  destruct (isWhiteSpace c); [exists (c :: w); cbn; congruence|now exists []].
Qed.

Lemma trimEnd_prefix s : exists w, s = trimEnd s ++ w.
Proof.
  unfold trimEnd. destruct (trimStart_suffix (rev s)) as [w H].
  exists (rev w). rewrite <- rev_app_distr, <- H. now rewrite rev_involutive.
Qed.

Lemma trimEnd_last s :
  trimEnd s = [] \/ exists l c, trimEnd s = l ++ [c] /\ isWhiteSpace c = false.
Proof.
  unfold trimEnd. destruct (trimStart_head (rev s)) as [->|(c & l & -> & W)].
  - now left.
  - right. exists (rev l), c. split; [reflexivity|exact W].
Qed.

Lemma ends_ws_last b l c : ends_ws b (l ++ [c]) = isWhiteSpace c.
Proof. revert b. induction l as [|a l IH]; intros b; cbn; [reflexivity|apply IH]. Qed.

(** A trimmed text that is not empty starts and ends with a code unit that
    is not white space. *)
Lemma trim_ends s :
  trim s <> [] ->
  (exists c l, trim s = c :: l /\ isWhiteSpace c = false)
  /\ ends_ws false (trim s) = false.
Proof.
  unfold trim. intros N. split.
  - destruct (trimStart_head s) as [E|(c & l & E & W)].
    + rewrite E in N. now cbn in N.
    + destruct (trimEnd_prefix (trimStart s)) as [w P].
      destruct (trimEnd (trimStart s)) as [|c' l'] eqn:T; [contradiction|].
      rewrite E in P. cbn in P. injection P as <- _. eauto.
  - destruct (trimEnd_last (trimStart s)) as [E|(l & c & E & W)]; [contradiction|].
    rewrite E, ends_ws_last. exact W.
Qed.

(** The length of the split is the number of words of the trimmed text. *)
Lemma wordCount_spec text :
  trim text <> [] -> TTSService.wordCount text = specWordCount text.
Proof.
  intros N. unfold TTSService.wordCount, specWordCount, split_whitespace.
  rewrite split_scan_length.
  destruct (trim_ends text N) as [(c & l & E & W) ->].
  rewrite E. cbn. rewrite W. f_equal. lia.
Qed.

Lemma wordCount_pos text : 0 < TTSService.wordCount text.
Proof.
  unfold TTSService.wordCount, split_whitespace. rewrite split_scan_length. lia.
Qed.


(* ================================================================== *)
(** * Powers of two and digits *)

Lemma bpow_pos e : (0 < bpow e)%R.
Proof. apply powerRZ_lt. lra. Qed.

Lemma bpow_add a b : bpow (a + b) = (bpow a * bpow b)%R.
Proof. apply powerRZ_add. lra. Qed.

Lemma bpow_IZR n : 0 <= n -> bpow n = IZR (2 ^ n).
Proof.
  intros H. unfold bpow. rewrite <- (Z2Nat.id n H) at 1.
  rewrite <- pow_powerRZ. rewrite <- (Z2Nat.id n H) at 2.
  rewrite <- Zpower_nat_Z. generalize (Z.to_nat n). intros k.
  induction k as [|k IH].
  - reflexivity.
  - rewrite Zpower_nat_succ_r, mult_IZR, <- IH. simpl. ring.
Qed.

Lemma bpow_0 : bpow 0 = 1%R.
Proof. reflexivity. Qed.

Lemma bpow_ge_1 n : 0 <= n -> (1 <= bpow n)%R.
Proof.
  intros H. rewrite bpow_IZR by exact H. apply IZR_le.
  pose proof (Z.pow_pos_nonneg 2 n ltac:(lia) H). lia.
Qed.

Lemma bpow_le a b : a <= b -> (bpow a <= bpow b)%R.
Proof.
  intros H. replace b with (a + (b - a)) by ring. rewrite bpow_add.
  pose proof (bpow_pos a).
  assert (1 <= bpow (b - a))%R by (apply bpow_ge_1; lia). nra.
Qed.

Lemma bpow_lt a b : a < b -> (bpow a < bpow b)%R.
Proof.
  intros H. replace b with (a + 1 + (b - a - 1)) by ring. rewrite !bpow_add.
  pose proof (bpow_pos a).
  assert (1 <= bpow (b - a - 1))%R by (apply bpow_ge_1; lia).
  replace (bpow 1) with 2%R by (unfold bpow; simpl; lra). nra.
Qed.

Lemma bpow_lt_inv a b : (bpow a < bpow b)%R -> a < b.
Proof.
  intros H. destruct (Z_lt_le_dec a b) as [L|L]; [exact L|].
  apply bpow_le in L. lra.
Qed.

Lemma pow2_pos k : 0 <= k -> 0 < 2 ^ k.
Proof. intros H. apply Z.pow_pos_nonneg; lia. Qed.

Lemma digits2_pos_spec p :
  2 ^ (Zpos (digits2_pos p) - 1) <= Zpos p < 2 ^ Zpos (digits2_pos p).
Proof.
  induction p as [p IH|p IH|]; cbn [digits2_pos].
  - rewrite Pos2Z.inj_succ. replace (Z.succ (Zpos (digits2_pos p)) - 1) with (Z.succ (Zpos (digits2_pos p) - 1)) by lia.
    rewrite !Z.pow_succ_r by lia. lia.
  - rewrite Pos2Z.inj_succ. replace (Z.succ (Zpos (digits2_pos p)) - 1) with (Z.succ (Zpos (digits2_pos p) - 1)) by lia.
    rewrite !Z.pow_succ_r by lia. lia.
  - cbn. lia.
Qed.

Lemma Zdigits2_spec m : 0 < m ->
  0 < Zdigits2 m /\ 2 ^ (Zdigits2 m - 1) <= m < 2 ^ Zdigits2 m.
Proof.
  destruct m as [|p|p]; try lia. intros _. cbn [Zdigits2].
  split; [lia|apply digits2_pos_spec].
Qed.

Lemma Zdigits2_nonneg m : 0 <= Zdigits2 m.
Proof. destruct m; cbn; lia. Qed.

(** Bounds of a mantissa give its number of digits. *)
Lemma Zdigits2_unique m d : 0 < d -> 2 ^ (d - 1) <= m < 2 ^ d -> Zdigits2 m = d.
Proof.
  intros Hd [L U].
  assert (0 < m) by (pose proof (pow2_pos (d - 1) ltac:(lia)); lia).
  destruct (Zdigits2_spec m H) as (P & L' & U').
  destruct (Z.lt_trichotomy (Zdigits2 m) d) as [C|[C|C]]; [|exact C|].
  - assert (2 ^ Zdigits2 m <= 2 ^ (d - 1)) by (apply Z.pow_le_mono_r; lia). lia.
  - assert (2 ^ d <= 2 ^ (Zdigits2 m - 1)) by (apply Z.pow_le_mono_r; lia). lia.
Qed.

Lemma Zdigits2_le m k : 0 <= m -> 0 <= k -> m < 2 ^ k -> Zdigits2 m <= k.
Proof.
  intros Hm Hk H. destruct (Z_lt_le_dec 0 m) as [P|P].
  - destruct (Zdigits2_spec m P) as (_ & L & _).
    destruct (Z_lt_le_dec k (Zdigits2 m)) as [C|C]; [|exact C].
    assert (2 ^ k <= 2 ^ (Zdigits2 m - 1)) by (apply Z.pow_le_mono_r; lia). lia.
  - replace m with 0 by lia. cbn. lia.
Qed.

Lemma Zdigits2_ge m k : 0 <= k -> 2 ^ k <= m -> k + 1 <= Zdigits2 m.
Proof.
  intros Hk H.
  assert (P : 0 < m) by (pose proof (pow2_pos k ltac:(lia)); lia).
  destruct (Zdigits2_spec m P) as (_ & _ & U).
  destruct (Z_lt_le_dec (Zdigits2 m) (k + 1)) as [C|C]; [|exact C].
  assert (2 ^ Zdigits2 m <= 2 ^ k) by (apply Z.pow_le_mono_r; lia). lia.
Qed.


(* ================================================================== *)
(** * Rounding *)

Lemma fexp_eq e : fexp Num.prec Num.emax e = Z.max (e - 53) (-1074).
Proof. reflexivity. Qed.

Lemma bpow_succ e : bpow (e + 1) = (2 * bpow e)%R.
Proof. rewrite bpow_add. replace (bpow 1) with 2%R by (unfold bpow; simpl; lra). ring. Qed.

Lemma shr_1_inb x mrs e : inb x mrs e -> inb x (shr_1 mrs) (e + 1).
Proof.
  destruct mrs as [m r s]. intros [Hm (f & Hx & Hf & Hi)].
  unfold inb, inexact in *. cbn [shr_m shr_r shr_s] in *.
  destruct m as [|[p|p|]|p]; try lia; cbn [shr_1 shr_m shr_r shr_s orb];
    (split; [lia|]); rewrite bpow_succ.
  - exists (f / 2)%R. split; [rewrite Hx; field|].
    split; [lra|]. intros H. apply Hi in H. lra.
  - exists ((1 + f) / 2)%R. split; [|split; [lra|intros _; lra]].
    rewrite Hx. change (Z.pos p~1) with (2 * Z.pos p + 1).
    rewrite plus_IZR, mult_IZR. field.
  - exists (f / 2)%R. split; [|split; [lra|]].
    + rewrite Hx. change (Z.pos p~0) with (2 * Z.pos p).
      rewrite mult_IZR. field.
    + intros H. apply Hi in H. lra.
  - exists ((1 + f) / 2)%R. split; [rewrite Hx; field|].
    split; [lra|intros _; lra].
Qed.

Lemma iter_shr_1_inb x n : forall mrs e,
  inb x mrs e -> inb x (SpecFloat.iter_pos shr_1 n mrs) (e + Zpos n).
Proof.
  induction n as [n IH|n IH|]; intros mrs e H; cbn [SpecFloat.iter_pos].
  - replace (e + Z.pos n~1) with (e + 1 + Z.pos n + Z.pos n) by lia.
    apply IH, IH, shr_1_inb, H.
  - replace (e + Z.pos n~0) with (e + Z.pos n + Z.pos n) by lia.
    apply IH, IH, H.
  - apply shr_1_inb, H.
Qed.

Lemma shr_inb x mrs e n :
  inb x mrs e -> 0 <= n ->
  snd (shr mrs e n) = e + n /\ inb x (fst (shr mrs e n)) (e + n).
Proof.
  intros H Hn. destruct n as [|p|p]; try lia; cbn.
  - rewrite Z.add_0_r. auto.
  - split; [reflexivity|]. apply iter_shr_1_inb, H.
Qed.

Lemma round_nearest_even_cases m l :
  round_nearest_even m l = m
  \/ (round_nearest_even m l = m + 1 /\ l <> loc_Exact).
Proof.
  destruct l as [|[]]; cbn; auto.
  - destruct (Z.even m); [auto|right; split; [reflexivity|discriminate]].
  - right; split; [reflexivity|discriminate].
Qed.

Lemma loc_of_shr_record_exact mrs :
  loc_of_shr_record mrs <> loc_Exact -> inexact mrs = true.
Proof. destruct mrs as [m [] []]; cbn; intros H; try reflexivity. congruence. Qed.

Lemma inexact_of_loc m l : inexact (shr_record_of_loc m l) = true -> l <> loc_Exact.
Proof. destruct l as [|[]]; cbn; congruence. Qed.

Lemma shr_m_of_loc m l : shr_m (shr_record_of_loc m l) = m.
Proof. destruct l as [|[]]; reflexivity. Qed.

Lemma IZR_lt_bpow m k : 0 <= k -> (IZR m < bpow k)%R -> m < 2 ^ k.
Proof. intros Hk H. rewrite bpow_IZR in H by exact Hk. now apply lt_IZR. Qed.

Lemma bpow_le_IZR m k : 0 <= k -> (bpow k <= IZR m)%R -> 2 ^ k <= m.
Proof. intros Hk H. rewrite bpow_IZR in H by exact Hk. now apply le_IZR. Qed.

Lemma pack_correct s m' e1 :
  -1074 <= e1 -> 0 <= m' <= 2 ^ 53 -> (e1 = -1074 \/ 2 ^ 52 <= m') ->
  (let '(mrs2, e2) := shr_fexp Num.prec Num.emax m' e1 loc_Exact in
   match shr_m mrs2 with
   | 0 => S754_zero s
   | Z.pos m => if e2 <=? Num.emax - Num.prec then S754_finite s m e2 else S754_infinity s
   | Z.neg _ => S754_nan
   end) = pack s m' e1.
Proof.
  intros He Hm Hn. unfold shr_fexp, pack.
  destruct (Z.eqb_spec m' 0) as [->|N0].
  - cbn [Zdigits2]. rewrite fexp_eq.
    replace (Z.max (0 + e1 - 53) (-1074) - e1) with 0 by lia. reflexivity.
  - destruct (Z.eqb_spec m' (2 ^ 53)) as [->|N53].
    + change (Zdigits2 (2 ^ 53)) with 54. rewrite fexp_eq.
      replace (Z.max (54 + e1 - 53) (-1074) - e1) with 1 by lia.
      reflexivity.
    + assert (D : Zdigits2 m' <= 53) by (apply Zdigits2_le; lia).
      assert (D' : e1 = -1074 \/ Zdigits2 m' = 53).
      { destruct Hn as [Hn|Hn]; [now left|right].
        apply Zdigits2_unique; [lia|]. change (53 - 1) with 52. lia. }
      pose proof (Zdigits2_nonneg m').
      rewrite fexp_eq.
      replace (Z.max (Zdigits2 m' + e1 - 53) (-1074) - e1) with 0 by lia.
      cbn [shr shr_record_of_loc shr_m].
      destruct m' as [|p|p]; try lia. reflexivity.
Qed.

(** The rounding at the heart of every operation: a truncated value
    [x = (m + f) * 2^e] at an exponent not above the canonical one is
    rounded to one of the two mantissas around it at the canonical
    exponent [e1]. *)
Lemma binary_round_aux_spec s x m e l :
  0 <= m ->
  (exists f, x = ((IZR m + f) * bpow e)%R /\ (0 <= f < 1)%R
             /\ (l <> loc_Exact -> (0 < f)%R)) ->
  e <= fexp Num.prec Num.emax (Zdigits2 m + e) ->
  exists m1 e1 m1',
    -1074 <= e1
    /\ 0 <= m1 < 2 ^ 53
    /\ (e1 = -1074 \/ 2 ^ 52 <= m1)
    /\ (IZR m1 * bpow e1 <= x < IZR (m1 + 1) * bpow e1)%R
    /\ (m1' = m1 \/ (m1' = m1 + 1 /\ (IZR m1 * bpow e1 < x)%R))
    /\ binary_round_aux Num.prec Num.emax s m e l = pack s m1' e1.
Proof.
  intros Hm (f & Hx & Hf & Hl) He.
  unfold binary_round_aux, shr_fexp.
  set (d := Zdigits2 m) in *.
  set (e1 := fexp Num.prec Num.emax (d + e)) in *.
  assert (Ee1 : e1 = Z.max (d + e - 53) (-1074)) by reflexivity.
  clearbody e1.
  assert (I0 : inb x (shr_record_of_loc m l) e).
  { split; [now rewrite shr_m_of_loc|]. exists f. rewrite shr_m_of_loc.
    repeat split; try tauto. intros H. apply Hl. now apply inexact_of_loc in H. }
  destruct (shr_inb x _ e (e1 - e) I0 ltac:(lia)) as [E1 I1].
  destruct (shr (shr_record_of_loc m l) e (e1 - e)) as [mrs1 e1'] eqn:S1.
  cbn [fst snd] in E1, I1. replace (e + (e1 - e)) with e1 in * by lia. subst e1'.
  destruct I1 as [Hm1 (f1 & Hx1 & Hf1 & Hi1)].
  set (m1 := shr_m mrs1) in *.
  pose proof (bpow_pos e1) as Be1. pose proof (bpow_pos e) as Be.
  (* bounds on x from the digits of m *)
  assert (Xu : (x < bpow (d + e))%R).
  { destruct (Z.eq_dec m 0) as [->|N].
    - subst d. cbn [Zdigits2]. rewrite Hx. cbn. nra.
    - destruct (Zdigits2_spec m ltac:(lia)) as (Pd & Ld & Ud). fold d in Pd, Ld, Ud.
      rewrite bpow_add, (bpow_IZR d) by lia.
      assert (IZR m + 1 <= IZR (2 ^ d))%R by (rewrite <- plus_IZR; apply IZR_le; lia).
      rewrite Hx. nra. }
  assert (E1min : -1074 <= e1) by lia.
  assert (E1d : d + e - 53 <= e1) by lia.
  assert (M1u : m1 < 2 ^ 53).
  { apply IZR_lt_bpow; [lia|].
    assert (bpow (d + e) <= bpow (e1 + 53))%R by (apply bpow_le; lia).
    rewrite (bpow_add e1 53) in H.
    apply (Rmult_lt_reg_r (bpow e1)); [exact Be1|].
    assert (0 <= f1 * bpow e1)%R by nra. nra. }
  assert (M1n : e1 = -1074 \/ 2 ^ 52 <= m1).
  { destruct (Z.eq_dec e1 (-1074)) as [C|C]; [now left|right].
    assert (e1 = d + e - 53) by lia.
    destruct (Z.eq_dec m 0) as [Z0|N].
    { exfalso. subst m d. cbn [Zdigits2] in *. lia. }
    destruct (Zdigits2_spec m ltac:(lia)) as (Pd & Ld & Ud). fold d in Pd, Ld, Ud.
    assert (bpow (e1 + 52) <= x)%R.
    { replace (e1 + 52) with ((d - 1) + e) by lia.
      rewrite bpow_add, (bpow_IZR (d - 1)) by lia.
      assert (IZR (2 ^ (d - 1)) <= IZR m)%R by (apply IZR_le; lia).
      rewrite Hx. nra. }
    rewrite (bpow_add e1 52) in H0.
    assert (bpow 52 < IZR (m1 + 1))%R.
    { rewrite plus_IZR. apply (Rmult_lt_reg_r (bpow e1)); [exact Be1|]. nra. }
    rewrite bpow_IZR in H1 by lia. apply lt_IZR in H1. lia. }
  exists m1, e1.
  assert (Xl : (IZR m1 * bpow e1 <= x)%R) by (rewrite Hx1; nra).
  assert (Xr : (x < IZR (m1 + 1) * bpow e1)%R) by (rewrite plus_IZR, Hx1; nra).
  destruct (round_nearest_even_cases m1 (loc_of_shr_record mrs1)) as [R|[R NE]];
    rewrite R.
  - exists m1. do 4 (split; [first [assumption | lia | split; assumption]|]).
    split; [now left|]. apply pack_correct; lia.
  - exists (m1 + 1).
    assert (0 < f1)%R by (apply Hi1, loc_of_shr_record_exact, NE).
    do 4 (split; [first [assumption | lia | split; assumption]|]).
    split; [right; split; [reflexivity|rewrite Hx1; nra]|].
    apply pack_correct; lia.
Qed.


Lemma bounded_spec m e :
  SpecFloat.bounded Num.prec Num.emax m e = true <->
  (e = Z.max (Zpos (digits2_pos m) + e - 53) (-1074) /\ e <= 971).
Proof.
  unfold SpecFloat.bounded, canonical_mantissa. rewrite fexp_eq, andb_true_iff, Z.eqb_eq, Z.leb_le.
  change (Num.emax - Num.prec) with 971. intuition lia.
Qed.

(** The value of a canonical mantissa and exponent lies in its binade. *)
Lemma bounded_range m e :
  SpecFloat.bounded Num.prec Num.emax m e = true ->
  let d := Zpos (digits2_pos m) in
  d <= 53 /\ (d = 53 \/ e = -1074) /\ -1074 <= e <= 971
  /\ (bpow (d - 1 + e) <= F2R (Zpos m) e < bpow (d + e))%R.
Proof.
  intros H. apply bounded_spec in H. destruct H as [H1 H2]. cbn zeta.
  pose proof (digits2_pos_spec m) as [L U].
  set (d := Zpos (digits2_pos m)) in *.
  repeat split; try lia.
  - unfold F2R. rewrite bpow_add, (bpow_IZR (d - 1)) by lia.
    apply Rmult_le_compat_r; [left; apply bpow_pos|]. now apply IZR_le.
  - unfold F2R. rewrite bpow_add, (bpow_IZR d) by lia.
    apply Rmult_lt_compat_r; [apply bpow_pos|]. now apply IZR_lt.
Qed.

Lemma F2R_pos m e : (0 < F2R (Zpos m) e)%R.
Proof.
  unfold F2R. apply Rmult_lt_0_compat; [apply IZR_lt; lia|apply bpow_pos].
Qed.

Lemma bounded_lt_max m e : SpecFloat.bounded Num.prec Num.emax m e = true -> (F2R (Zpos m) e < bpow 1024)%R.
Proof.
  intros H. destruct (bounded_range m e H) as (D & _ & E & _ & U).
  eapply Rlt_le_trans; [exact U|]. apply bpow_le; lia.
Qed.

(** What [pack] yields: zero, a canonical float of the packed value, or
    infinity when that value is out of range. *)
Lemma pack_cases s m' e1 :
  -1074 <= e1 -> 0 <= m' <= 2 ^ 53 -> (e1 = -1074 \/ 2 ^ 52 <= m') ->
  (m' = 0 /\ pack s m' e1 = S754_zero s)
  \/ (exists m e, pack s m' e1 = S754_finite s m e
        /\ SpecFloat.bounded Num.prec Num.emax m e = true
        /\ F2R (Zpos m) e = (IZR m' * bpow e1)%R)
  \/ (pack s m' e1 = S754_infinity s /\ (bpow 1024 <= IZR m' * bpow e1)%R).
Proof.
  intros He Hm Hn. unfold pack.
  pose proof (bpow_pos e1) as Be1.
  destruct (Z.eqb_spec m' 0) as [->|N0]; [now left|right].
  destruct (Z.eqb_spec m' (2 ^ 53)) as [->|N53].
  - destruct (Z.leb_spec (e1 + 1) 971) as [L|L].
    + left. eexists _, _. split; [reflexivity|]. split.
      * apply bounded_spec. change (Z.pos (digits2_pos (Z.to_pos (2 ^ 52)))) with 53. lia.
      * unfold F2R. rewrite bpow_succ. change (Z.pos (Z.to_pos (2 ^ 52))) with (2 ^ 52).
        change (2 ^ 53) with (2 * 2 ^ 52). rewrite mult_IZR. ring.
    + right. split; [reflexivity|].
      assert (bpow 971 <= bpow e1)%R by (apply bpow_le; lia).
      change 1024 with (53 + 971). rewrite bpow_add, (bpow_IZR 53) by lia.
      assert (0 < IZR (2 ^ 53))%R by (apply IZR_lt; lia). nra.
  - assert (P : 0 < m') by lia.
    destruct (Z.leb_spec e1 971) as [L|L].
    + left. eexists _, _. split; [reflexivity|].
      rewrite Z2Pos.id by exact P. split; [|reflexivity].
      apply bounded_spec. split; [|exact L].
      change (Z.pos (digits2_pos (Z.to_pos m'))) with (Zdigits2 (Z.pos (Z.to_pos m'))).
      rewrite Z2Pos.id by exact P.
      assert (D : Zdigits2 m' <= 53) by (apply Zdigits2_le; lia).
      destruct Hn as [Hn|Hn]; [lia|].
      rewrite (Zdigits2_unique m' 53); [lia|lia|]. change (53 - 1) with 52. lia.
    + right. split; [reflexivity|].
      destruct Hn as [Hn|Hn]; [lia|].
      assert (bpow 972 <= bpow e1)%R by (apply bpow_le; lia).
      assert (IZR (2 ^ 52) <= IZR m')%R by (apply IZR_le; lia).
      change 1024 with (52 + 972). rewrite bpow_add, (bpow_IZR 52) by lia.
      assert (0 < IZR (2 ^ 52))%R by (apply IZR_lt; lia). 
      pose proof (bpow_pos 972). nra.
Qed.

Lemma nonneg_finite_ge0 z : nonneg_finite z = true -> (0 <= SF2R z)%R.
Proof.
  destruct z as [s|s| |[] m e]; cbn; try discriminate; try lra.
  intros _. left. apply F2R_pos.
Qed.

(** Canonical floats compare by exponent first. *)
Lemma bounded_exponent_lt m1 e1 m2 e2 :
  SpecFloat.bounded Num.prec Num.emax m1 e1 = true -> SpecFloat.bounded Num.prec Num.emax m2 e2 = true ->
  e1 < e2 -> (F2R (Zpos m1) e1 < F2R (Zpos m2) e2)%R.
Proof.
  intros H1 H2 L.
  destruct (bounded_range _ _ H1) as (D1 & _ & E1 & _ & U1).
  destruct (bounded_range _ _ H2) as (D2 & N2 & E2 & L2 & _).
  eapply Rlt_le_trans; [exact U1|]. eapply Rle_trans; [|exact L2].
  apply bpow_le. lia.
Qed.

Lemma F2R_same_exponent m1 m2 e :
  ((F2R m1 e <= F2R m2 e)%R <-> m1 <= m2)
  /\ ((F2R m1 e < F2R m2 e)%R <-> m1 < m2).
Proof.
  unfold F2R. pose proof (bpow_pos e) as B. split; split; intros H.
  - apply le_IZR. apply (Rmult_le_reg_r (bpow e)); assumption.
  - apply Rmult_le_compat_r; [lra|]. now apply IZR_le.
  - apply lt_IZR. apply (Rmult_lt_reg_r (bpow e)); assumption.
  - apply Rmult_lt_compat_r; [lra|]. now apply IZR_lt.
Qed.

Lemma SFcompare_pos m1 e1 m2 e2 :
  SpecFloat.bounded Num.prec Num.emax m1 e1 = true -> SpecFloat.bounded Num.prec Num.emax m2 e2 = true ->
  match SFcompare (S754_finite false m1 e1) (S754_finite false m2 e2) with
  | Some Lt => (F2R (Zpos m1) e1 < F2R (Zpos m2) e2)%R
  | Some Eq => F2R (Zpos m1) e1 = F2R (Zpos m2) e2
  | Some Gt => (F2R (Zpos m2) e2 < F2R (Zpos m1) e1)%R
  | None => False
  end.
Proof.
  intros H1 H2. cbn [SFcompare].
  destruct (Z.compare_spec e1 e2) as [E|L|G].
  - subst e2. change (Pos.compare_cont Eq m1 m2) with (Pos.compare m1 m2).
    destruct (Pos.compare_spec m1 m2) as [E|L|G].
    + now subst.
    + apply F2R_same_exponent. lia.
    + apply F2R_same_exponent. lia.
  - now apply bounded_exponent_lt.
  - apply bounded_exponent_lt; [assumption|assumption|lia].
Qed.

(** On zeros and canonical positive floats the comparisons are those of
    the values. *)
Lemma SFleb_spec a b :
  nonneg_finite a = true -> nonneg_finite b = true ->
  (SFleb a b = true <-> (SF2R a <= SF2R b)%R).
Proof.
  unfold SFleb.
  destruct a as [sa|sa| |[] ma ea], b as [sb|sb| |[] mb eb]; cbn [nonneg_finite];
    try discriminate; intros Ha Hb.
  - cbn. split; [lra|reflexivity].
  - cbn. pose proof (F2R_pos mb eb). split; [lra|reflexivity].
  - cbn [SFcompare SF2R cond_Zopp]. pose proof (F2R_pos ma ea). split; [discriminate|lra].
  - pose proof (SFcompare_pos ma ea mb eb Ha Hb) as C. cbn [SF2R cond_Zopp].
    destruct (SFcompare _ _) as [[]|]; try contradiction; split; try discriminate; try reflexivity; lra.
Qed.

Lemma SFltb_spec a b :
  nonneg_finite a = true -> nonneg_finite b = true ->
  (SFltb a b = true <-> (SF2R a < SF2R b)%R).
Proof.
  unfold SFltb.
  destruct a as [sa|sa| |[] ma ea], b as [sb|sb| |[] mb eb]; cbn [nonneg_finite];
    try discriminate; intros Ha Hb.
  - cbn. split; [discriminate|lra].
  - cbn. pose proof (F2R_pos mb eb). split; [lra|reflexivity].
  - cbn [SFcompare SF2R cond_Zopp]. pose proof (F2R_pos ma ea). split; [discriminate|lra].
  - pose proof (SFcompare_pos ma ea mb eb Ha Hb) as C. cbn [SF2R cond_Zopp].
    destruct (SFcompare _ _) as [[]|]; try contradiction; split; try discriminate; try reflexivity; lra.
Qed.

(** The value a rounding settles on. *)
Lemma rounded_value s x z :
  rounded s x z ->
  exists e1 v,
    -1074 <= e1
    /\ (x < bpow (e1 + 53))%R
    /\ (e1 = -1074 \/ (bpow (e1 + 52) <= x)%R)
    /\ ((v <= x)%R \/ ((x < v)%R /\ forall k, (x <= IZR k * bpow e1 -> v <= IZR k * bpow e1)%R))
    /\ (x - bpow e1 < v < x + bpow e1)%R
    /\ (forall k, x = (IZR k * bpow e1)%R -> v = x)
    /\ (0 <= v)%R
    /\ ((v = 0%R /\ z = S754_zero s)
        \/ (exists m e, z = S754_finite s m e
              /\ SpecFloat.bounded Num.prec Num.emax m e = true /\ F2R (Zpos m) e = v)
        \/ (z = S754_infinity s /\ (bpow 1024 <= v)%R)).
Proof.
  intros (m1 & e1 & m1' & He & Hm & Hn & [Xl Xu] & Hr & ->).
  pose proof (bpow_pos e1) as B.
  exists e1, (IZR m1' * bpow e1)%R.
  assert (M53 : (IZR (m1 + 1) <= bpow 53)%R).
  { rewrite bpow_IZR by lia. apply IZR_le. lia. }
  assert (M52 : 2 ^ 52 <= m1 -> (bpow 52 <= IZR m1)%R).
  { intros H. rewrite bpow_IZR by lia. now apply IZR_le. }
  assert (M0 : (0 <= IZR m1)%R) by (apply IZR_le; lia).
  rewrite plus_IZR in *.
  split; [exact He|]. split; [rewrite bpow_add; nra|].
  split.
  { destruct Hn as [Hn|Hn]; [now left|right]. rewrite bpow_add. specialize (M52 Hn). nra. }
  assert (Hv : (IZR m1' = IZR m1 \/ (IZR m1' = IZR m1 + 1 /\ IZR m1 * bpow e1 < x))%R).
  { destruct Hr as [->|[-> Hr]]; [now left|right]. now rewrite plus_IZR. }
  split.
  { destruct Hv as [->|[-> Hv]]; [left; lra|right]. split; [lra|].
    intros k Hk.
    assert (m1 < k).
    { apply lt_IZR. apply (Rmult_lt_reg_r (bpow e1)); [exact B|]. lra. }
    assert (IZR m1 + 1 <= IZR k)%R by (rewrite <- plus_IZR; apply IZR_le; lia).
    nra. }
  split; [destruct Hv as [->|[-> Hv]]; nra|].
  split.
  { intros k Hk.
    assert (m1 = k).
    { assert (m1 <= k) by (apply le_IZR, (Rmult_le_reg_r (bpow e1)); [exact B|lra]).
      assert (k < m1 + 1).
      { apply lt_IZR, (Rmult_lt_reg_r (bpow e1)); [exact B|]. rewrite plus_IZR. lra. }
      lia. }
    subst k. destruct Hv as [->|[-> Hv]]; lra. }
  split; [destruct Hv as [->|[-> Hv]]; nra|].
  destruct (pack_cases s m1' e1 He) as [[Z P]|[(m & e & P & Bd & V)|[P V]]].
  - destruct Hr as [->|[-> _]]; lia.
  - destruct Hr as [->|[-> _]]; [exact Hn|]. destruct Hn; [now left|right; lia].
  - left. subst m1'. split; [cbn; ring|exact P].
  - right; left. exists m, e. auto.
  - right; right. auto.
Qed.

Lemma rounded_valid s x z : rounded s x z -> valid_binary Num.prec Num.emax z = true.
Proof.
  intros H. destruct (rounded_value s x z H)
    as (e1 & v & _ & _ & _ & _ & _ & _ & _ & [[_ ->]|[(m & e & -> & Bd & _)|[-> _]]]);
    cbn; auto.
Qed.

(** A rounding does not pass a float above the rounded number. *)
Lemma rounded_le_float x z md ed :
  rounded false x z ->
  SpecFloat.bounded Num.prec Num.emax md ed = true ->
  (x <= F2R (Zpos md) ed)%R ->
  nonneg_finite z = true /\ (SF2R z <= F2R (Zpos md) ed)%R.
Proof.
  intros H Bd Hx.
  destruct (rounded_value false x z H)
    as (e1 & v & He & Xu & Xn & Hv & _ & _ & V0 & Hz).
  destruct (bounded_range _ _ Bd) as (Dd & Nd & Ed & Ld & Ud).
  set (d := Z.pos (digits2_pos md)) in *.
  assert (Vd : (v <= F2R (Zpos md) ed)%R).
  { destruct Hv as [Hv|[Hv Hk]]; [lra|].
    destruct (Z_le_gt_dec e1 ed) as [L|G].
    - assert (E : F2R (Zpos md) ed = (IZR (Zpos md * 2 ^ (ed - e1)) * bpow e1)%R).
      { unfold F2R. rewrite mult_IZR, <- bpow_IZR by lia.
        rewrite Rmult_assoc, <- bpow_add. now replace (ed - e1 + e1) with ed by lia. }
      rewrite E in *. now apply Hk.
    - exfalso. destruct Xn as [Xn|Xn]; [lia|].
      assert (bpow (d + ed) <= bpow (e1 + 52))%R by (apply bpow_le; lia). lra. }
  pose proof (bounded_lt_max _ _ Bd).
  destruct Hz as [[Z ->]|[(m & e & -> & Bm & V)|[_ V]]].
  - cbn. split; [reflexivity|]. pose proof (F2R_pos md ed). lra.
  - cbn [nonneg_finite SF2R cond_Zopp]. split; [exact Bm|lra].
  - lra.
Qed.


(* ================================================================== *)
(** * The operations *)

Lemma Pos_iter_xO m d : Zpos (Pos.iter xO m d) = Zpos m * 2 ^ Zpos d.
Proof.
  induction d as [|d IH] using Pos.peano_ind.
  - cbn. lia.
  - rewrite Pos.iter_succ, Pos2Z.inj_succ, Z.pow_succ_r by lia.
    change (Z.pos (Pos.iter xO m d)~0) with (2 * Z.pos (Pos.iter xO m d)). lia.
Qed.

Lemma F2R_shift m e k : 0 <= k -> F2R (m * 2 ^ k) (e - k) = F2R m e.
Proof.
  intros H. unfold F2R. rewrite mult_IZR, <- bpow_IZR by exact H.
  rewrite Rmult_assoc, <- bpow_add. now replace (k + (e - k)) with e by lia.
Qed.

Lemma Zdigits2_shift m k : 0 < m -> 0 <= k -> Zdigits2 (m * 2 ^ k) = Zdigits2 m + k.
Proof.
  intros Hm Hk. destruct (Zdigits2_spec m Hm) as (P & L & U).
  pose proof (pow2_pos k Hk).
  apply Zdigits2_unique; [lia|].
  replace (Zdigits2 m + k - 1) with (Zdigits2 m - 1 + k) by lia.
  rewrite !Z.pow_add_r by lia. nia.
Qed.

Lemma exact_repr x m e :
  x = F2R m e ->
  exists f, x = ((IZR m + f) * bpow e)%R /\ (0 <= f < 1)%R
            /\ (loc_Exact <> loc_Exact -> (0 < f)%R).
Proof.
  intros ->. exists 0%R. split; [unfold F2R; ring|]. split; [lra|congruence].
Qed.

(** [binary_round] rounds the value of its mantissa and exponent. *)
Lemma binary_round_spec s m e :
  rounded s (F2R (Zpos m) e) (binary_round Num.prec Num.emax s m e).
Proof.
  unfold binary_round, shl_align.
  set (e' := fexp Num.prec Num.emax (Z.pos (digits2_pos m) + e)).
  assert (Ee' : e' = fexp Num.prec Num.emax (Zdigits2 (Zpos m) + e)) by reflexivity.
  destruct (e' - e) as [|d|d] eqn:Hd.
  - apply binary_round_aux_spec; [lia|now apply exact_repr|lia].
  - apply binary_round_aux_spec; [lia|now apply exact_repr|lia].
  - assert (Hk : e - e' = Zpos d) by lia.
    apply binary_round_aux_spec; [lia| |].
    + apply exact_repr. rewrite Pos_iter_xO, <- Hk.
      replace e' with (e - (e - e')) at 2 by lia.
      now rewrite F2R_shift by lia.
    + rewrite Pos_iter_xO, Zdigits2_shift by lia.
      rewrite <- Hk. replace (Zdigits2 (Z.pos m) + (e - e') + e') with (Zdigits2 (Zpos m) + e) by lia.
      lia.
Qed.

(** An integer below [2^53] is a float. *)
Lemma rounded_integer s w z :
  0 < w < 2 ^ 53 -> rounded s (IZR w) z ->
  exists m e, z = S754_finite s m e
    /\ SpecFloat.bounded Num.prec Num.emax m e = true /\ F2R (Zpos m) e = IZR w.
Proof.
  intros Hw H.
  destruct (rounded_value s _ z H)
    as (e1 & v & He & Xu & Xn & _ & _ & Hex & V0 & Hz).
  assert (W0 : (0 < IZR w)%R) by (apply IZR_lt; lia).
  assert (W53 : (IZR w < bpow 53)%R) by (rewrite bpow_IZR by lia; apply IZR_lt; lia).
  assert (E1 : e1 <= 0).
  { destruct Xn as [Xn|Xn]; [lia|].
    assert (e1 + 52 < 53); [|lia]. apply bpow_lt_inv. lra. }
  assert (V : v = IZR w).
  { apply (Hex (w * 2 ^ (- e1))).
    rewrite mult_IZR, <- bpow_IZR by lia.
    rewrite Rmult_assoc, <- bpow_add. replace (- e1 + e1) with 0 by lia.
    rewrite bpow_0. ring. }
  destruct Hz as [[Z _]|[(m & e & -> & Bm & Vm)|[_ Vi]]].
  - lra.
  - exists m, e. repeat split; [exact Bm|lra].
  - assert (bpow 53 <= bpow 1024)%R by (apply bpow_le; lia). lra.
Qed.

Lemma new_location_exact n r : new_location n r <> loc_Exact -> r <> 0.
Proof.
  intros H ->. apply H. unfold new_location, new_location_even, new_location_odd.
  destruct (Z.even n); reflexivity.
Qed.

(** Division of positive floats rounds the quotient of their values. *)
Lemma SFdiv_spec ma ea mb eb :
  rounded false (F2R (Zpos ma) ea / F2R (Zpos mb) eb)
    (SFdiv Num.prec Num.emax (S754_finite false ma ea) (S754_finite false mb eb)).
Proof.
  cbn [SFdiv xorb]. unfold SFdiv_core_binary.
  set (d1 := Zdigits2 (Z.pos ma)). set (d2 := Zdigits2 (Z.pos mb)).
  set (e' := Z.min (fexp Num.prec Num.emax (d1 + ea - (d2 + eb))) (ea - eb)).
  assert (Ee' : e' = Z.min (Z.max (d1 + ea - (d2 + eb) - 53) (-1074)) (ea - eb)) by reflexivity.
  clearbody e'.
  set (s := ea - eb - e').
  assert (Hs : 0 <= s) by lia.
  set (m' := match s with Z.pos _ => Z.shiftl (Z.pos ma) s | 0 => Z.pos ma | Z.neg _ => 0 end).
  assert (Hm' : m' = Zpos ma * 2 ^ s).
  { subst m'. destruct s as [|p|p] eqn:Es; try lia.
    now rewrite Z.shiftl_mul_pow2 by lia. }
  clearbody m'.
  pose proof (Z_div_mod m' (Zpos mb) ltac:(lia)) as DM.
  destruct (Z.div_eucl m' (Z.pos mb)) as [q r]. destruct DM as [DM Hr].
  pose proof (pow2_pos s Hs) as P2.
  assert (Hq : 0 <= q) by nia.
  destruct (Zdigits2_spec (Zpos ma) ltac:(lia)) as (P1 & L1 & U1). fold d1 in P1, L1, U1.
  destruct (Zdigits2_spec (Zpos mb) ltac:(lia)) as (Pb & Lb & Ub). fold d2 in Pb, Lb, Ub.
  apply binary_round_aux_spec; [exact Hq| |].
  - exists (IZR r / IZR (Zpos mb))%R.
    assert (B0 : (0 < IZR (Zpos mb))%R) by (apply IZR_lt; lia).
    assert (R0 : (0 <= IZR r)%R) by (apply IZR_le; lia).
    assert (R1 : (IZR r < IZR (Zpos mb))%R) by (apply IZR_lt; lia).
    split; [|split].
    + unfold F2R.
      replace ea with (s + e' + eb) by lia. rewrite !bpow_add.
      pose proof (bpow_pos eb). pose proof (bpow_pos e').
      assert (E : (IZR (Zpos ma) * bpow s = IZR (Zpos mb) * IZR q + IZR r)%R).
      { rewrite bpow_IZR by lia. rewrite <- !mult_IZR, <- plus_IZR. f_equal. lia. }
      transitivity ((IZR (Zpos ma) * bpow s) / IZR (Zpos mb) * bpow e')%R;
        [field; split; lra|].
      rewrite E. field. lra.
    + split.
      * apply Rmult_le_pos; [exact R0|]. left. now apply Rinv_0_lt_compat.
      * apply (Rmult_lt_reg_r (IZR (Zpos mb))); [exact B0|]. field_simplify; lra.
    + intros NE. apply new_location_exact in NE.
      assert (0 < IZR r)%R by (apply IZR_lt; lia).
      apply Rmult_lt_0_compat; [assumption|]. now apply Rinv_0_lt_compat.
  - rewrite fexp_eq.
    destruct (Z_le_gt_dec e' (-1074)) as [C|C]; [lia|].
    assert (S53 : 53 - d1 + d2 <= s) by lia.
    assert (Q : 2 ^ 52 <= q).
    { assert (H : 2 ^ (52 + d2) <= m').
      { rewrite Hm'.
        assert (2 ^ (52 + d2) <= 2 ^ (d1 - 1 + s)) by (apply Z.pow_le_mono_r; lia).
        rewrite (Z.pow_add_r 2 (d1 - 1) s) in H by lia. nia. }
      rewrite Z.pow_add_r in H by lia.
      pose proof (pow2_pos 52 ltac:(lia)). nia. }
    pose proof (Zdigits2_ge q 52 ltac:(lia) Q). lia.
Qed.

(** Multiplication of canonical positive floats rounds the product of
    their values. *)
Lemma SFmul_spec ma ea mb eb :
  SpecFloat.bounded Num.prec Num.emax ma ea = true ->
  SpecFloat.bounded Num.prec Num.emax mb eb = true ->
  rounded false (F2R (Zpos ma) ea * F2R (Zpos mb) eb)
    (SFmul Num.prec Num.emax (S754_finite false ma ea) (S754_finite false mb eb)).
Proof.
  intros Ba Bb. cbn [SFmul xorb].
  destruct (bounded_range _ _ Ba) as (Da & Na & Ea & _).
  destruct (bounded_range _ _ Bb) as (Db & Nb & Eb & _).
  pose proof (digits2_pos_spec ma) as [La Ua].
  pose proof (digits2_pos_spec mb) as [Lb Ub].
  set (da := Z.pos (digits2_pos ma)) in *. set (db := Z.pos (digits2_pos mb)) in *.
  apply binary_round_aux_spec; [lia| |].
  - apply exact_repr. unfold F2R. rewrite Pos2Z.inj_mul, mult_IZR, bpow_add. ring.
  - rewrite fexp_eq.
    destruct (Z_le_gt_dec (ea + eb) (-1074)) as [C|C]; [lia|].
    assert (da + db - 1 <= Zdigits2 (Z.pos (ma * mb))).
    { replace (da + db - 1) with ((da - 1 + (db - 1)) + 1) by lia.
      apply Zdigits2_ge; [lia|]. rewrite Z.pow_add_r, Pos2Z.inj_mul by lia.
      pose proof (pow2_pos (da - 1) ltac:(lia)). pose proof (pow2_pos (db - 1) ltac:(lia)).
      nia. }
    lia.
Qed.

(** Subtraction yields a well-formed float. *)
Lemma SFsub_valid a b :
  valid_binary Num.prec Num.emax a = true -> valid_binary Num.prec Num.emax b = true ->
  valid_binary Num.prec Num.emax (SFsub Num.prec Num.emax a b) = true.
Proof.
  destruct a as [sa|sa| |sa ma ea], b as [sb|sb| |sb mb eb]; intros Ha Hb;
    try (cbn; try destruct sa; try destruct sb; cbn; assumption || reflexivity).
  cbn [SFsub]. unfold binary_normalize.
  destruct (_ - _) as [|p|p].
  - reflexivity.
  - eapply rounded_valid, binary_round_spec.
  - eapply rounded_valid, binary_round_spec.
Qed.


(** A positive integer below [2^53] converts exactly. *)
Lemma ofZ_integer w :
  0 < w < 2 ^ 53 ->
  exists m e, Num.ofZ w = S754_finite false m e
    /\ SpecFloat.bounded Num.prec Num.emax m e = true /\ F2R (Zpos m) e = IZR w.
Proof.
  intros Hw. apply rounded_integer; [exact Hw|].
  destruct w as [|p|p]; try lia.
  unfold Num.ofZ, Num.dyadic, binary_normalize.
  replace (IZR (Zpos p)) with (F2R (Zpos p) 0) by (unfold F2R; rewrite bpow_0; ring).
  apply binary_round_spec.
Qed.

(** In the normal range a rounding is a float within the relative error
    [2^-52] of the rounded number. *)
Lemma rounded_normal x z :
  rounded false x z -> (bpow (-1021) <= x < bpow 1023)%R ->
  exists m e, z = S754_finite false m e
    /\ SpecFloat.bounded Num.prec Num.emax m e = true
    /\ (x * (1 - eps) <= F2R (Zpos m) e <= x * (1 + eps))%R.
Proof.
  intros H [Xl Xu].
  destruct (rounded_value false x z H)
    as (e1 & v & He & Xu1 & Xn & _ & Hv & _ & V0 & Hz).
  pose proof (bpow_pos e1) as B. pose proof (bpow_pos (-1021)) as B'.
  assert (E : (bpow e1 <= x * eps)%R).
  { destruct Xn as [->|Xn]; [change (-1074 + 53) with (-1021) in Xu1; lra|].
    unfold eps. replace e1 with (e1 + 52 + -52) at 1 by lia. rewrite bpow_add.
    pose proof (bpow_pos (-52)). nra. }
  assert (E1 : (eps <= 1 / 2)%R).
  { unfold eps. replace (1 / 2)%R with (bpow (-1)) by (unfold bpow; simpl; lra).
    apply bpow_le. lia. }
  assert (Vp : (0 < v)%R) by nra.
  assert (Vu : (v < bpow 1024)%R).
  { replace 1024 with (1023 + 1) by lia. rewrite bpow_succ. nra. }
  destruct Hz as [[Z _]|[(m & e & -> & Bm & Vm)|[_ Vi]]]; try lra.
  exists m, e. repeat split; try assumption; rewrite Vm; lra.
Qed.

(** [Math.ceil] of a positive float below [2^52]. *)
Lemma ceil_positive m e :
  SpecFloat.bounded Num.prec Num.emax m e = true -> (F2R (Zpos m) e < bpow 52)%R ->
  exists n, 0 < n /\ Num.ceil (S754_finite false m e) = Num.ofZ n
    /\ (IZR n - 1 < F2R (Zpos m) e <= IZR n)%R.
Proof.
  intros Bm Hv.
  destruct (bounded_range _ _ Bm) as (Dd & Nd & Ed & Ld & _).
  set (d := Z.pos (digits2_pos m)) in *.
  assert (En : e < 0).
  { destruct (Z_lt_le_dec e 0) as [C|C]; [exact C|exfalso].
    assert (bpow 52 <= bpow (d - 1 + e))%R by (apply bpow_le; lia). lra. }
  unfold Num.ceil. destruct (Z.leb_spec 0 e) as [C|_]; [lia|].
  set (D := 2 ^ (- e)).
  assert (HD : 0 < D) by (apply pow2_pos; lia).
  set (n := (Z.pos m + D - 1) / D).
  assert (Hn : D * (n - 1) < Z.pos m <= D * n).
  { pose proof (Z.div_mod (Z.pos m + D - 1) D ltac:(lia)) as DM.
    pose proof (Z.mod_pos_bound (Z.pos m + D - 1) D HD) as MB.
    fold n in DM. nia. }
  assert (Np : 0 < n) by nia.
  exists n. split; [exact Np|]. split.
  - destruct (Z.eqb_spec n 0); [lia|reflexivity].
  - assert (B : (bpow e * IZR D = 1)%R).
    { unfold D. rewrite <- bpow_IZR, <- bpow_add by lia.
      replace (e + - e) with 0 by lia. apply bpow_0. }
    assert (HD' : (0 < IZR D)%R) by (apply IZR_lt; lia).
    assert (H1 : (IZR D * (IZR n - 1) < IZR (Zpos m))%R).
    { rewrite <- minus_IZR, <- mult_IZR. apply IZR_lt. lia. }
    assert (H2 : (IZR (Zpos m) <= IZR D * IZR n)%R).
    { rewrite <- mult_IZR. apply IZR_le. lia. }
    unfold F2R. pose proof (bpow_pos e) as Bp.
    split.
    + apply (Rmult_lt_reg_r (IZR D)); [exact HD'|].
      rewrite Rmult_assoc, B. lra.
    + apply (Rmult_le_reg_r (IZR D)); [exact HD'|].
      rewrite Rmult_assoc, B. lra.
Qed.

Lemma estimatedDuration_spec w :
  0 < w < 2 ^ 32 ->
  exists n,
    TTSService.estimatedDuration w = Num.ofZ n
    /\ specDuration w <= n <= specDuration w + 1
    /\ (w mod 5 <> 0 -> n = specDuration w).
Proof.
  intros Hw. unfold TTSService.estimatedDuration.
  destruct (ofZ_integer w ltac:(lia)) as (mw & ew & -> & Bw & Vw).
  destruct (ofZ_integer 150 ltac:(lia)) as (m150 & e150 & -> & B150 & V150).
  destruct (ofZ_integer 60 ltac:(lia)) as (m60 & e60 & -> & B60 & V60).
  assert (W1 : (1 <= IZR w)%R) by (apply IZR_le; lia).
  assert (W2 : (IZR w <= bpow 32)%R) by (rewrite bpow_IZR by lia; apply IZR_le; lia).
  assert (P32 : bpow 32 = 4294967296%R) by (rewrite bpow_IZR by lia; reflexivity).
  assert (Peps : (0 < eps <= / 4503599627370496)%R).
  { unfold eps. split; [apply bpow_pos|]. right.
    apply (Rmult_eq_reg_r (bpow 52)); [|pose proof (bpow_pos 52); lra].
    rewrite <- bpow_add. change (-52 + 52) with 0. rewrite bpow_0, bpow_IZR by lia.
    change (2 ^ 52) with 4503599627370496. field. }
  assert (Plo : (bpow (-1021) <= / 256)%R).
  { replace (/ 256)%R with (bpow (-8)) by (unfold bpow; simpl; lra). apply bpow_le; lia. }
  assert (Phi : (bpow 40 <= bpow 1023)%R) by (apply bpow_le; lia).
  assert (P40 : bpow 40 = 1099511627776%R) by (rewrite bpow_IZR by lia; reflexivity).
  (* the quotient *)
  pose proof (SFdiv_spec mw ew m150 e150) as Rd. rewrite Vw, V150 in Rd.
  destruct (rounded_normal _ _ Rd) as (m1 & e1 & E1 & B1 & V1).
  { split; lra. }
  unfold Num.div, Num.mul.
  rewrite E1.
  (* the product *)
  pose proof (SFmul_spec m1 e1 m60 e60 B1 B60) as Rm. rewrite V60 in Rm.
  set (v1 := F2R (Zpos m1) e1) in *.
  destruct (rounded_normal _ _ Rm) as (m2 & e2 & E2 & B2 & V2).
  { split; nra. }
  rewrite E2. set (v2 := F2R (Zpos m2) e2) in *.
  assert (Hv2 : (2 * IZR w - 1 < 5 * v2 < 2 * IZR w + 1)%R).
  { destruct Peps as [Pe0 Pe1].
    assert (eps * IZR w <= / 1048576)%R.
    { assert (eps * IZR w <= / 4503599627370496 * 4294967296)%R by nra. lra. }
    assert (eps * eps * IZR w <= / 1048576)%R by nra.
    split; nra. }
  destruct (ceil_positive m2 e2 B2) as (n & Np & En & Hn).
  { fold v2. assert (bpow 40 <= bpow 52)%R by (apply bpow_le; lia). lra. }
  fold v2 in Hn. exists n. split; [exact En|].
  assert (N1 : 5 * n < 2 * w + 6).
  { apply lt_IZR. rewrite plus_IZR, !mult_IZR. lra. }
  assert (N2 : 2 * w - 1 < 5 * n).
  { apply lt_IZR. rewrite minus_IZR, !mult_IZR. lra. }
  unfold specDuration.
  pose proof (Z.div_mod (- (w * 60)) 150 ltac:(lia)) as DM.
  pose proof (Z.mod_pos_bound (- (w * 60)) 150 ltac:(lia)) as MB.
  split; [lia|].
  intros H5.
  pose proof (Z.div_mod w 5 ltac:(lia)) as DM5.
  pose proof (Z.mod_pos_bound w 5 ltac:(lia)) as MB5.
  lia.
Qed.


(** The duration estimate grows with the word count. *)
Lemma estimatedDuration_monotone w1 w2 :
  0 < w2 <= w1 -> w1 < 2 ^ 32 ->
  Num.leb (TTSService.estimatedDuration w2) (TTSService.estimatedDuration w1) = true.
Proof.
  intros H1 H2.
  assert (G : exists n1 n2, TTSService.estimatedDuration w1 = Num.ofZ n1
            /\ TTSService.estimatedDuration w2 = Num.ofZ n2
            /\ 0 < n2 <= n1 /\ n1 < 2 ^ 53).
  { destruct (Z.eq_dec w1 w2) as [->|N].
    - destruct (estimatedDuration_spec w2 ltac:(lia)) as (n & E & B & _).
      exists n, n. unfold specDuration in B.
      pose proof (Z.div_mod (- (w2 * 60)) 150 ltac:(lia)).
      pose proof (Z.mod_pos_bound (- (w2 * 60)) 150 ltac:(lia)).
      repeat split; try assumption; lia.
    - destruct (estimatedDuration_spec w1 ltac:(lia)) as (n1 & E1 & B1 & _).
      destruct (estimatedDuration_spec w2 ltac:(lia)) as (n2 & E2 & B2 & X2).
      exists n1, n2. unfold specDuration in *.
      pose proof (Z.div_mod (- (w1 * 60)) 150 ltac:(lia)).
      pose proof (Z.mod_pos_bound (- (w1 * 60)) 150 ltac:(lia)).
      pose proof (Z.div_mod (- (w2 * 60)) 150 ltac:(lia)).
      pose proof (Z.mod_pos_bound (- (w2 * 60)) 150 ltac:(lia)).
      pose proof (Z.div_mod w2 5 ltac:(lia)).
      pose proof (Z.mod_pos_bound w2 5 ltac:(lia)).
      repeat split; try assumption; lia. }
  destruct G as (n1 & n2 & -> & -> & Hn & Hn1).
  destruct (ofZ_integer n1 ltac:(lia)) as (m1 & e1 & -> & B1 & V1).
  destruct (ofZ_integer n2 ltac:(lia)) as (m2 & e2 & -> & B2 & V2).
  apply SFleb_spec; [exact B2|exact B1|].
  cbn [SF2R cond_Zopp]. rewrite V1, V2. apply IZR_le. lia.
Qed.

Section Seek.

Import AudioPlayer.

Lemma ofZ_0 : Num.ofZ 0 = S754_zero false.
Proof. reflexivity. Qed.

Lemma ofZ_1 : exists m e, Num.ofZ 1 = S754_finite false m e
  /\ SpecFloat.bounded Num.prec Num.emax m e = true /\ F2R (Zpos m) e = 1%R.
Proof. apply (ofZ_integer 1). lia. Qed.

(** A well-formed number that is at least zero and finite. *)
Lemma nonneg_finite_intro x :
  Num.valid x = true -> Num.leb (Num.ofZ 0) x = true -> Num.isFinite x = true ->
  nonneg_finite x = true.
Proof.
  destruct x as [s|s| |[] m e]; cbn; auto; discriminate.
Qed.

Lemma nonneg_finite_elim x :
  nonneg_finite x = true ->
  Num.valid x = true /\ Num.leb (Num.ofZ 0) x = true /\ Num.isFinite x = true.
Proof.
  destruct x as [s|s| |[] m e]; cbn; auto; discriminate.
Qed.

Lemma mul_zero_l s d :
  nonneg_finite d = true -> exists s', Num.mul (S754_zero s) d = S754_zero s'.
Proof. destruct d as [sd|sd| |[] m e]; cbn; try discriminate; eauto. Qed.

Lemma leb_zero_l s d : nonneg_finite d = true -> Num.leb (S754_zero s) d = true.
Proof. destruct d as [sd|sd| |[] m e]; cbn; try discriminate; auto. Qed.

(** A product with a factor of at most one does not exceed the other
    factor. *)
Lemma mul_le_one f d :
  nonneg_finite f = true -> (SF2R f <= 1)%R -> nonneg_finite d = true ->
  nonneg_finite (Num.mul f d) = true /\ Num.leb (Num.mul f d) d = true.
Proof.
  intros Hf F1 Hd.
  destruct f as [sf|sf| |[] mf ef]; try discriminate.
  - destruct (mul_zero_l sf d Hd) as [s' ->]. split; [reflexivity|now apply leb_zero_l].
  - destruct d as [sd|sd| |[] md ed]; try discriminate.
    + cbn. auto.
    + cbn [nonneg_finite] in Hf, Hd. cbn [SF2R cond_Zopp] in F1.
      pose proof (SFmul_spec mf ef md ed Hf Hd) as Rm.
      pose proof (F2R_pos md ed). pose proof (F2R_pos mf ef).
      destruct (rounded_le_float _ _ md ed Rm Hd ltac:(nra)) as [N L].
      split; [exact N|]. apply SFleb_spec; [exact N|exact Hd|exact L].
Qed.

(** A quotient of a number by one at least as large is at most one. *)
Lemma div_le_one c w :
  nonneg_finite c = true -> nonneg_finite w = true ->
  Num.leb c w = true -> Num.ltb (Num.ofZ 0) w = true ->
  nonneg_finite (Num.div c w) = true /\ (SF2R (Num.div c w) <= 1)%R.
Proof.
  intros Hc Hw L P.
  destruct w as [sw|sw| |[] mw ew]; try discriminate.
  apply (SFleb_spec _ _ Hc Hw) in L.
  destruct c as [sc|sc| |[] mc ec]; try discriminate.
  - cbn. split; [reflexivity|lra].
  - cbn [nonneg_finite] in Hc, Hw. cbn [SF2R cond_Zopp] in L.
    pose proof (SFdiv_spec mc ec mw ew) as Rd.
    destruct ofZ_1 as (m1 & e1 & E1 & B1 & V1).
    pose proof (F2R_pos mw ew). 
    assert (F2R (Z.pos mc) ec / F2R (Z.pos mw) ew <= F2R (Zpos m1) e1)%R.
    { rewrite V1. apply (Rmult_le_reg_r (F2R (Z.pos mw) ew)); [assumption|].
      field_simplify; lra. }
    destruct (rounded_le_float _ _ m1 e1 Rd B1 H0) as [N Le].
    split; [exact N|]. rewrite V1 in Le. exact Le.
Qed.

(** A click on the bar seeks to a position between zero and the
    duration. *)
Lemma seekTime_in_range e d :
  wf_event e = true -> on_bar e = true -> wf_duration d = true ->
  let t := seekTime e d in
  Num.isFinite t = true /\ Num.leb (Num.ofZ 0) t = true /\ Num.leb t d = true.
Proof.
  unfold wf_event, on_bar, wf_duration, seekTime. cbn zeta.
  rewrite !andb_true_iff.
  intros [[Vx Vl] Vw] [[[C0 Cw] W0] Wf] [[Vd D0] Df].
  set (clickX := Num.sub (clientX e) (rect_left e)) in *.
  assert (Vc : Num.valid clickX = true) by (apply SFsub_valid; assumption).
  assert (Nw : nonneg_finite (rect_width e) = true).
  { apply nonneg_finite_intro; try assumption.
    destruct (rect_width e) as [s|s| |[] m e']; cbn in *; auto; discriminate. }
  assert (Nd : nonneg_finite d = true) by (apply nonneg_finite_intro; assumption).
  assert (Nc : nonneg_finite clickX = true).
  { apply nonneg_finite_intro; try assumption.
    destruct clickX as [s|s| |s m e']; try reflexivity; try discriminate.
    destruct s; [discriminate|].
    destruct (rect_width e) as [s|s| |[] m e']; cbn in *; discriminate. }
  destruct (div_le_one clickX (rect_width e) Nc Nw Cw W0) as [Nf F1].
  destruct (mul_le_one _ d Nf F1 Nd) as [Nt Lt].
  destruct (nonneg_finite_elim _ Nt) as (_ & T0 & Tf).
  auto.
Qed.

End Seek.


(* ================================================================== *)
(** * Properties of the speech request orchestrator *)

Arguments lit : simpl never.
Arguments Error : simpl never.
Arguments TTSService.estimatedDuration : simpl never.
Arguments TTSService.wordCount : simpl never.
Arguments TTSService.mapVoiceSettings : simpl never.
Arguments trim : simpl never.
Arguments TTSService.rethrow : simpl never.

Lemma eqb_eq a b : eqb a b = true <-> a = b.
Proof. unfold eqb. destruct (list_eq_dec N.eq_dec a b); split; congruence. Qed.

Lemma eqb_refl a : eqb a a = true.
Proof. now apply eqb_eq. Qed.

Section Orchestrator.

Import TTSService.

Variable env : Env.
Variable text : jsstring.
Variable voiceSettings : VoiceSettings.

Lemma rethrow_shape e :
  exists e', rethrow e = ([ConsoleError (lit "TTS Generation Error:") e], inl e').
Proof.
  unfold rethrow.
  destruct (message_includes e "API key"); [eexists; reflexivity|].
  destruct (message_includes e "quota"); [eexists; reflexivity|].
  destruct (message_includes e "network" || message_includes e "fetch");
    eexists; reflexivity.
Qed.

(** Closes a failing path of [generateSpeech]: [tr] is the trace before the
    [catch] block, [n] the number of stages reported. *)
Ltac fails tr n R :=
  right;
  match goal with
  | |- context [rethrow ?e] =>
      let e' := fresh "e'" in
      let He' := fresh "He'" in
      destruct (R e) as [e' He']; rewrite He'; cbn;
      exists tr, e, e';
      split; [reflexivity|];
      split; [exact He'|];
      split; [exists n; reflexivity|];
      intros [?|?]; congruence || reflexivity
  end.

(** [generateSpeech] either returns with all five stages reported, or
    throws what its [catch] block makes of an error [e0], with the log of
    [e0] as last event and a proper run of the stages before it. *)
Lemma generateSpeech_cases (onProgress : option ProgressCallback) :
  (exists tr r,
      generateSpeech env text voiceSettings onProgress = (tr, inr r)
      /\ api_key_missing env = false /\ eqb (trim text) [] = false
      /\ duration r = estimatedDuration (wordCount text)
      /\ (forall f, onProgress = Some f -> progress_values tr = stages))
  \/ (exists tr e0 e,
      generateSpeech env text voiceSettings onProgress
      = (tr ++ [ConsoleError (lit "TTS Generation Error:") e0], inl e)
      /\ rethrow e0 = ([ConsoleError (lit "TTS Generation Error:") e0], inl e)
      /\ (exists n, progress_values tr = firstn n stages)
      /\ (api_key_missing env = true \/ eqb (trim text) [] = true -> tr = [])).
Proof.
  unfold generateSpeech, call_progress.
  pose proof rethrow_shape as R.
  cbn.
  destruct (api_key_missing env) eqn:Hk; cbn.
  { fails (@nil Event) 0%nat R. }
  destruct (eqb (trim text) []) eqn:Ht; cbn.
  { fails (@nil Event) 0%nat R. }
  destruct onProgress as [f|]; cbn.
  - destruct (f 10) eqn:?; cbn. { fails [Progress 10] 1%nat R. }
    destruct (f 30) eqn:?; cbn. { fails [Progress 10; Progress 30] 2%nat R. }
    match goal with |- context [SpeechCreate ?r] => set (req := r) end.
    destruct (speech_create env req) as [e|resp] eqn:?; cbn.
    { fails [Progress 10; Progress 30; SpeechCreate req] 2%nat R. }
    destruct (f 70) eqn:?; cbn.
    { fails [Progress 10; Progress 30; SpeechCreate req; Progress 70] 3%nat R. }
    destruct (arrayBuffer resp) as [e|bytes] eqn:?; cbn.
    { fails [Progress 10; Progress 30; SpeechCreate req; Progress 70] 3%nat R. }
    destruct (f 90) eqn:?; cbn.
    { fails [Progress 10; Progress 30; SpeechCreate req; Progress 70; Progress 90]
            4%nat R. }
    destruct (f 100) eqn:?; cbn.
    { fails [Progress 10; Progress 30; SpeechCreate req; Progress 70; Progress 90;
             Progress 100] 5%nat R. }
    left. eexists; eexists. repeat split; reflexivity.
  - match goal with |- context [SpeechCreate ?r] => set (req := r) end.
    destruct (speech_create env req) as [e|resp] eqn:?; cbn.
    { fails [SpeechCreate req] 0%nat R. }
    destruct (arrayBuffer resp) as [e|bytes] eqn:?; cbn.
    { fails [SpeechCreate req] 0%nat R. }
    left. eexists; eexists. repeat split; try reflexivity. discriminate.
Qed.

End Orchestrator.

Section OrchestratorClaims.

Import TTSService.

Lemma progress_values_app tr1 tr2 :
  progress_values (tr1 ++ tr2) = progress_values tr1 ++ progress_values tr2.
Proof.
  induction tr1 as [|[] tr1 IH]; cbn; rewrite ?IH; reflexivity.
Qed.

Lemma nondecreasing_stages n : nondecreasing (firstn n stages) = true.
Proof. do 6 (destruct n as [|n]; [reflexivity|]). reflexivity. Qed.

(** When the primary call throws, the wrapper logs a warning and resolves
    to what the fallback resolves to, [undefined]. *)
Lemma generateSpeechWithFallback_after_failure env text vs cb tr e :
  generateSpeech env text vs cb = (tr, inl e) ->
  generateSpeechWithFallback env text vs cb
  = (tr ++ [ConsoleWarn (lit "OpenAI TTS failed, attempting Google Cloud TTS fallback:") e],
     inr None).
Proof.
  intros H. unfold generateSpeechWithFallback, generateSpeechWithGoogleCloud.
  rewrite H. reflexivity.
Qed.

Lemma generateSpeechWithFallback_after_success env text vs cb tr r :
  generateSpeech env text vs cb = (tr, inr r) ->
  generateSpeechWithFallback env text vs cb = (tr, inr (Some r)).
Proof.
  intros H. unfold generateSpeechWithFallback. rewrite H. cbn.
  now rewrite app_nil_r.
Qed.

(** The wrapper never throws. *)
Lemma generateSpeechWithFallback_never_throws env text vs cb :
  exists r, outcome (generateSpeechWithFallback env text vs cb) = inr r.
Proof.
  destruct (generateSpeech env text vs cb) as [tr [e|r]] eqn:H.
  - rewrite (generateSpeechWithFallback_after_failure _ _ _ _ _ _ H). now eexists.
  - rewrite (generateSpeechWithFallback_after_success _ _ _ _ _ _ H). now eexists.
Qed.

(** C1, at an input where the vendor refuses the request: the fallback
    does not fail, it resolves to [undefined], and so does
    [generateSpeechWithFallback]; the error that names both services is
    never thrown. *)
Theorem fallback_placeholder_resolves :
  outcome (generateSpeech env_quota (lit "Hello world") settings0 None)
  = inl (Error "OpenAI API quota exceeded. Please check your account limits.")
  /\ generateSpeechWithGoogleCloud (lit "Hello world") settings0 None = ([], inr None)
  /\ outcome (generateSpeechWithFallback env_quota (lit "Hello world") settings0 None)
     = inr None.
Proof. repeat split. Qed.

Lemma rethrow_configuration :
  rethrow (Error "OpenAI API key is not configured. Please add your API key to the .env file.")
  = ([ConsoleError (lit "TTS Generation Error:")
        (Error "OpenAI API key is not configured. Please add your API key to the .env file.")],
     inl (Error "Invalid or missing OpenAI API key. Please check your configuration.")).
Proof. reflexivity. Qed.

Lemma rethrow_validation :
  rethrow (Error "Text content is required for speech generation.")
  = ([ConsoleError (lit "TTS Generation Error:")
        (Error "Text content is required for speech generation.")],
     inl (Error "Speech generation failed: Text content is required for speech generation.")).
Proof. reflexivity. Qed.

(** C2 as stated fails: for a text of three spaces, with the key set,
    [generateSpeechWithFallback] does not fail, it resolves to
    [undefined]. *)
Lemma whitespace_text_not_rejected :
  trim (lit "   ") = []
  /\ outcome (generateSpeechWithFallback env_ok (lit "   ") settings0 None) = inr None.
Proof. split; reflexivity. Qed.

(** C2, amended: when the key is missing or the trimmed text is empty, the
    primary call [generateSpeech] throws the corresponding error, having
    logged the failure and nothing else: no request went to the vendor and
    no progress was reported.  [generateSpeechWithFallback] then sends no
    request to the vendor and reports no progress either; it catches that
    error and logs it as a warning on its way to the fallback provider,
    and it does not pass it on: whatever the call ends with, it is not
    that error. *)
Theorem precondition_failure_fails_fast env text vs cb :
  api_key_missing env = true \/ trim text = [] ->
  exists e0,
    generateSpeech env text vs cb
    = ([ConsoleError (lit "TTS Generation Error:") e0], inl (precondition_error env))
    /\ (exists rest,
         trace (generateSpeechWithFallback env text vs cb)
         = [ConsoleError (lit "TTS Generation Error:") e0;
            ConsoleWarn (lit "OpenAI TTS failed, attempting Google Cloud TTS fallback:")
              (precondition_error env)] ++ rest)
    /\ existsb is_vendor_request (trace (generateSpeechWithFallback env text vs cb)) = false
    /\ progress_values (trace (generateSpeechWithFallback env text vs cb)) = []
    /\ outcome (generateSpeechWithFallback env text vs cb) <> inl (precondition_error env).
Proof.
  intros H.
  assert (G : exists e0, generateSpeech env text vs cb
            = ([ConsoleError (lit "TTS Generation Error:") e0],
               inl (precondition_error env))).
  { unfold generateSpeech, precondition_error.
    destruct (api_key_missing env) eqn:Hk; cbn.
    - rewrite rethrow_configuration. now eexists.
    - destruct H as [H|H]; [discriminate|].
      rewrite H, eqb_refl. cbn. rewrite rethrow_validation. now eexists. }
  destruct G as [e0 G]. exists e0. split; [exact G|].
  rewrite (generateSpeechWithFallback_after_failure _ _ _ _ _ _ G).
  split; [now exists []|]. split; [reflexivity|]. split; [reflexivity|].
  discriminate.
Qed.

Lemma precondition_failure_fails_fast_witness :
  (api_key_missing env_nokey = true \/ trim (lit "Hello world") = [])
  /\ precondition_error env_nokey
     = Error "Invalid or missing OpenAI API key. Please check your configuration."
  /\ exists e0,
    generateSpeech env_nokey (lit "Hello world") settings0 None
    = ([ConsoleError (lit "TTS Generation Error:") e0],
       inl (precondition_error env_nokey))
    /\ (exists rest,
         trace (generateSpeechWithFallback env_nokey (lit "Hello world") settings0 None)
         = [ConsoleError (lit "TTS Generation Error:") e0;
            ConsoleWarn (lit "OpenAI TTS failed, attempting Google Cloud TTS fallback:")
              (precondition_error env_nokey)] ++ rest)
    /\ existsb is_vendor_request
         (trace (generateSpeechWithFallback env_nokey (lit "Hello world") settings0 None))
       = false
    /\ progress_values
         (trace (generateSpeechWithFallback env_nokey (lit "Hello world") settings0 None))
       = []
    /\ outcome (generateSpeechWithFallback env_nokey (lit "Hello world") settings0 None)
       <> inl (precondition_error env_nokey).
Proof.
  split; [left; reflexivity|]. split; [reflexivity|].
  apply (precondition_failure_fails_fast env_nokey (lit "Hello world") settings0 None).
  left; reflexivity.
Defined.

(** C6: the values [generateSpeech] hands to the progress callback never
    decrease; when it returns they are 10, 30, 70, 90, 100; when it throws,
    the log of the failure is its last event, so that no value is reported
    after it, and the values reported before are a run of the stages. *)
Theorem progress_sequence env text vs (onProgress : option ProgressCallback) :
  let c := generateSpeech env text vs onProgress in
  nondecreasing (progress_values (trace c)) = true
  /\ (forall f r, onProgress = Some f -> outcome c = inr r ->
      progress_values (trace c) = [10; 30; 70; 90; 100])
  /\ (forall e, outcome c = inl e ->
      exists tr e0 n,
        trace c = tr ++ [ConsoleError (lit "TTS Generation Error:") e0]
        /\ progress_values (trace c) = progress_values tr
        /\ progress_values tr = firstn n stages).
Proof.
  cbn zeta.
  destruct (generateSpeech_cases env text vs onProgress)
    as [(tr & r & E & _ & _ & _ & Hp) | (tr & e0 & e & E & _ & [n Hn] & _)];
    rewrite E; cbn [trace outcome fst snd].
  - split; [|split].
    + destruct onProgress as [f|].
      * rewrite (Hp f eq_refl). reflexivity.
      * clear Hp. revert E. unfold generateSpeech, call_progress. cbn.
        destruct (api_key_missing env); cbn;
          [destruct (rethrow_shape (Error "OpenAI API key is not configured. Please add your API key to the .env file.")) as [? ->]; discriminate|].
        destruct (eqb (trim text) []); cbn;
          [destruct (rethrow_shape (Error "Text content is required for speech generation.")) as [? ->]; discriminate|].
        match goal with |- context [SpeechCreate ?q] => set (req := q) end.
        destruct (speech_create env req) as [e|resp]; cbn;
          [destruct (rethrow_shape e) as [? ->]; discriminate|].
        destruct (arrayBuffer resp) as [e|bytes]; cbn;
          [destruct (rethrow_shape e) as [? ->]; discriminate|].
        intros [= <- _]. reflexivity.
    + intros f r' Hf _. exact (Hp f Hf).
    + intros e' [=].
  - rewrite progress_values_app, app_nil_r. split; [|split].
    + rewrite Hn. apply nondecreasing_stages.
    + intros f r' _ [=].
    + intros e' _. exists tr, e0, n. repeat split. exact Hn.
Qed.

Lemma progress_sequence_witness :
  let c := generateSpeech env_quota (lit "Hello world") settings0
             (Some TextToSpeechGenerator.progressCallback) in
  outcome c = inl (Error "OpenAI API quota exceeded. Please check your account limits.")
  /\ progress_values (trace c) = [10; 30]
  /\ exists tr e0 n,
       trace c = tr ++ [ConsoleError (lit "TTS Generation Error:") e0]
       /\ progress_values (trace c) = progress_values tr
       /\ progress_values tr = firstn n stages.
Proof.
  cbn zeta. split; [reflexivity|]. split; [reflexivity|].
  apply (progress_sequence env_quota (lit "Hello world") settings0
           (Some TextToSpeechGenerator.progressCallback)) with
    (e := Error "OpenAI API quota exceeded. Please check your account limits.").
  reflexivity.
Defined.

End OrchestratorClaims.

(* ================================================================== *)
(** * The mapping of voice settings *)

Section Mapping.

Import TTSService.

Lemma eqb_neq a b : a <> b -> eqb a b = false.
Proof.
  intros H. destruct (eqb a b) eqn:E; [|reflexivity].
  apply eqb_eq in E. contradiction.
Qed.

Lemma existsb_eqb_false key l : ~ In key l -> existsb (eqb key) l = false.
Proof.
  induction l as [|a l IH]; cbn; [reflexivity|].
  intros H.
  rewrite eqb_neq by (intros ->; apply H; now left).
  rewrite IH by (intros ?; apply H; now right).
  reflexivity.
Qed.

(** The six characters and the three speeds map by the tables. *)
Lemma mapVoiceSettings_tables s :
  map (fun c => voice (mapVoiceSettings (with_character c s))) knownCharacters
  = map (fun v => VString (lit v))
      ["alloy"; "echo"; "fable"; "onyx"; "nova"; "shimmer"]%string
  /\ map (fun v => speed (mapVoiceSettings (with_voiceSpeed v s))) knownSpeeds
     = [VNumber (Num.dyadic 3 (-2)); VNumber (Num.ofZ 1); VNumber (Num.dyadic 5 (-2))]
  /\ model (mapVoiceSettings s) = VString (lit "tts-1").
Proof. repeat split. Qed.

Lemma own_none (o : object) key : ~ In key (map fst o) -> own o key = None.
Proof.
  induction o as [|[k v] o IH]; cbn; [reflexivity|].
  intros H. rewrite eqb_neq by tauto. apply IH. tauto.
Qed.

(** A key that neither table holds and no object inherits maps to the
    defaults. *)
Lemma mapVoiceSettings_defaults s :
  (~ In (character s) knownCharacters -> ~ In (character s) objectPrototypeKeys ->
   voice (mapVoiceSettings s) = VString (lit "alloy"))
  /\ (~ In (voiceSpeed s) knownSpeeds -> ~ In (voiceSpeed s) objectPrototypeKeys ->
      speed (mapVoiceSettings s) = VNumber (Num.ofZ 1)).
Proof.
  unfold mapVoiceSettings, get; cbn [voice speed]. split; intros Hk Hp.
  - rewrite (existsb_eqb_false _ _ Hp), (own_none voiceMapping) by exact Hk.
    reflexivity.
  - rewrite (existsb_eqb_false _ _ Hp), (own_none speedMapping) by exact Hk.
    reflexivity.
Qed.

(** C3, at a character and a speed that are names every object inherits:
    the lookup finds the inherited member, which is truthy, so that the
    defaults do not apply: the voice is not ['alloy'] and the speed is not
    [1.0]. *)
Theorem mapVoiceSettings_inherited_key :
  let s := with_voiceSpeed (lit "toString") (with_character (lit "constructor") settings0) in
  ~ In (character s) knownCharacters
  /\ ~ In (voiceSpeed s) knownSpeeds
  /\ voice (mapVoiceSettings s) = VInherited (lit "constructor")
  /\ voice (mapVoiceSettings s) <> VString (lit "alloy")
  /\ speed (mapVoiceSettings s) = VInherited (lit "toString")
  /\ speed (mapVoiceSettings s) <> VNumber (Num.ofZ 1).
Proof.
  cbn zeta. repeat split; try discriminate.
  - intros H. cbn in H. repeat (destruct H as [H|H]; [discriminate H|]). exact H.
  - intros H. cbn in H. repeat (destruct H as [H|H]; [discriminate H|]). exact H.
Qed.

(** C10: the mapped settings, and with them the whole run of
    [generateSpeech], depend on [character] and [voiceSpeed] only. *)
Theorem mapVoiceSettings_noninterference (s1 s2 : VoiceSettings) :
  character s1 = character s2 ->
  voiceSpeed s1 = voiceSpeed s2 ->
  mapVoiceSettings s1 = mapVoiceSettings s2
  /\ forall env text cb,
      generateSpeech env text s1 cb = generateSpeech env text s2 cb.
Proof.
  intros Hc Hs.
  assert (E : mapVoiceSettings s1 = mapVoiceSettings s2).
  { unfold mapVoiceSettings. now rewrite Hc, Hs. }
  split; [exact E|].
  intros env text cb. unfold generateSpeech. now rewrite E.
Qed.

Lemma mapVoiceSettings_noninterference_witness :
  (voiceStyle settings0 <> voiceStyle settings1
   /\ voicePitch settings0 <> voicePitch settings1
   /\ emotion settings0 <> emotion settings1)
  /\ mapVoiceSettings settings0 = mapVoiceSettings settings1
  /\ forall env text cb,
      generateSpeech env text settings0 cb = generateSpeech env text settings1 cb.
Proof.
  split; [repeat split; discriminate|].
  apply (mapVoiceSettings_noninterference settings0 settings1); reflexivity.
Defined.

End Mapping.

(* ================================================================== *)
(** * Persistence and the generation *)

Section Persistence.

Import TextToSpeechGenerator.

(** The inner [try] around the save never throws. *)
Lemma save_block_swallows env data s :
  exists s' tr,
    ptry (pbind (call (SupabaseService.saveAudioGeneration env data)) (fun _ => pret tt))
         (fun dbError =>
            call (emit (ConsoleWarn (lit "Failed to save generation to database:") dbError)))
         s
    = (s', (tr, inr tt))
    /\ audioUrl s' = audioUrl s /\ audioBlob s' = audioBlob s /\ error s' = error s
    /\ (forall e, outcome (SupabaseService.saveAudioGeneration env data) = inl e ->
        In (ConsoleWarn (lit "Failed to save generation to database:") e) tr).
Proof.
  unfold ptry, pbind, call, pret.
  assert (F : forall l s0,
             let s1 := fold_left (fun s v => setProgress v s) l s0 in
             audioUrl s1 = audioUrl s0 /\ audioBlob s1 = audioBlob s0
             /\ error s1 = error s0).
  { induction l as [|v l IH]; intros s0; cbn; [tauto|].
    destruct (IH (setProgress v s0)) as (A & B & C). cbn in *. tauto. }
  destruct (SupabaseService.saveAudioGeneration env data) as [tr [e|d]] eqn:E;
    cbn [trace fst snd outcome].
  - cbn. eexists _, _. split; [reflexivity|].
    destruct (F (progress_values tr) s) as (A & B & C).
    repeat split; try assumption.
    intros e' [= <-]. apply in_or_app. right. now left.
  - cbn. eexists _, _. split; [reflexivity|].
    destruct (F (progress_values tr) s) as (A & B & C).
    repeat split; try assumption.
    intros e' [=].
Qed.

(** C9: when the generation call returns and the user is signed in, then
    whatever the insert does (resolve, resolve with an error, or reject)
    [handleGenerate] ends normally with the audio of the result in the
    state, no error message, and the generating flag down; a failure of
    the save shows as a console warning only.  For a generation that
    produced audio, the URL and the blob of that audio are the values the
    two state cells hold at the end. *)
Theorem persistence_failure_is_swallowed env i s uid tr result :
  canGenerate i = true ->
  user_id_of i = Some uid ->
  TTSService.generateSpeechWithFallback env (text i) (getCurrentSettings i)
    (Some progressCallback) = (tr, inr result) ->
  exists s' tr',
    handleGenerate env i s = (s', (tr', inr tt))
    /\ audioUrl s' = result_audioUrl result
    /\ audioBlob s' = result_audioBlob result
    /\ error s' = []
    /\ isGenerating s' = false
    /\ (forall e,
         outcome (SupabaseService.saveAudioGeneration env
                    {| text_content := text i; audio_url := None;
                       duration_seconds := option_map TTSService.duration result;
                       preset_id := currentPresetId i; user_id := uid |}) = inl e ->
         In (ConsoleWarn (lit "Failed to save generation to database:") e) tr')
    /\ (forall g, result = Some g ->
        audioUrl s' = JValue (TTSService.audioUrl g)
        /\ audioBlob s' = JValue (TTSService.audioBlob g)).
Proof.
  intros Hcan Huid Hgen.
  unfold handleGenerate. rewrite Hcan. cbn [negb].
  unfold pfinally, ptry at 1.
  unfold pbind at 1 2 3 4 5, update. cbn -[pbind ptry call].
  unfold pbind at 1. unfold call at 1. rewrite Hgen. cbn [trace fst snd].
  set (s1 := fold_left _ _ _).
  unfold pbind at 1 2, update. cbn -[pbind ptry call].
  rewrite Huid.
  set (data := {| text_content := text i |}).
  set (s2 := setAudioBlob _ _).
  unfold pbind at 1.
  destruct (save_block_swallows env data s2) as (s3 & tr3 & E & A & B & C & W).
  rewrite E. cbn.
  eexists _, _. split; [reflexivity|]. cbn.
  rewrite A, B, C. subst s2. cbn.
  assert (Herr : error s1 = []).
  { subst s1. generalize (progress_values tr).
    assert (G : forall l s0, error (fold_left (fun s v => setProgress v s) l s0) = error s0).
    { induction l as [|v l IH]; intros s0; cbn; [reflexivity|]. now rewrite IH. }
    intros l. now rewrite G. }
  do 4 (split; [first [reflexivity | exact Herr]|]).
  split.
  - intros e He. apply in_or_app. right. apply in_or_app. left. now apply W.
  - intros g ->. split; reflexivity.
Qed.

End Persistence.

Lemma persistence_failure_is_swallowed_witness :
  outcome (SupabaseService.saveAudioGeneration env_ok
             {| text_content := lit "Hello world"; audio_url := None;
                duration_seconds := Some (Num.ofZ 1);
                preset_id := None; user_id := lit "user-1" |})
  = inl (Error "connection refused")
  /\ exists s' tr',
      TextToSpeechGenerator.handleGenerate env_ok inputs0 page0 = (s', (tr', inr tt))
      /\ TextToSpeechGenerator.audioUrl s' = TextToSpeechGenerator.JValue (lit "blob:1")
      /\ TextToSpeechGenerator.audioBlob s'
         = TextToSpeechGenerator.JValue (mkBlob [73; 68; 51]%N (lit "audio/mpeg"))
      /\ TextToSpeechGenerator.error s' = []
      /\ TextToSpeechGenerator.isGenerating s' = false
      /\ In (ConsoleWarn (lit "Failed to save generation to database:")
               (Error "connection refused")) tr'.
Proof.
  split; [reflexivity|].
  destruct (persistence_failure_is_swallowed env_ok inputs0 page0 (lit "user-1")
              (trace (TTSService.generateSpeechWithFallback env_ok (lit "Hello world")
                        (TextToSpeechGenerator.getCurrentSettings inputs0)
                        (Some TextToSpeechGenerator.progressCallback)))
              (Some {| TTSService.audioUrl := lit "blob:1";
                       TTSService.audioBlob := mkBlob [73; 68; 51]%N (lit "audio/mpeg");
                       TTSService.duration := Num.ofZ 1;
                       TTSService.fileSize := 3;
                       TTSService.format := lit "mp3" |})
              eq_refl eq_refl eq_refl)
    as (s' & tr' & E & _ & _ & C & D & W & G).
  destruct (G _ eq_refl) as [A B].
  exists s', tr'.
  split; [exact E|]. split; [exact A|]. split; [exact B|].
  split; [exact C|]. split; [exact D|].
  apply W. reflexivity.
Defined.

(* ================================================================== *)
(** * The audio player: volume *)

Section Volume.

Import AudioPlayer.





End Volume.


(* ================================================================== *)
(** * The duration estimate *)

Section Duration.

Import TTSService.

(** C4 as stated fails: for a text of 155 words [generateSpeech] returns
    an estimate of 63 seconds, where the ceiling of [155 / 150 * 60] is
    62: the product [(155 / 150) * 60] comes out of the two roundings just
    above 62. *)
Lemma duration_155_words :
  exists tr r,
    generateSpeech env_ok text155 settings0 None = (tr, inr r)
    /\ specWordCount text155 = 155
    /\ specDuration 155 = 62
    /\ duration r = Num.ofZ 63
    /\ duration r <> Num.ofZ 62.
Proof.
  eexists; eexists. split; [vm_compute; reflexivity|].
  split; [vm_compute; reflexivity|].
  split; [reflexivity|].
  split; [vm_compute; reflexivity|].
  vm_compute. discriminate.
Qed.

(** What a run of [generateSpeech] that returns says of its text and of
    its estimate. *)
Lemma generateSpeech_returns env text vs cb tr r :
  generateSpeech env text vs cb = (tr, inr r) ->
  eqb (trim text) [] = false /\ duration r = estimatedDuration (wordCount text).
Proof.
  intros H.
  destruct (generateSpeech_cases env text vs cb)
    as [(tr' & r' & E & _ & T & D & _) | (tr' & e0 & e & E & _)];
    rewrite E in H.
  - injection H as <- <-. auto.
  - discriminate.
Qed.

Lemma trim_nonempty text : eqb (trim text) [] = false -> trim text <> [].
Proof. intros H E. rewrite E in H. discriminate. Qed.

(** C4, amended: the estimate of a run that returns is
    [Math.ceil((wordCount / 150) * 60)] computed in binary64 arithmetic,
    with [wordCount] the number of whitespace-separated tokens of the
    trimmed text (fewer than 2^32, as an array holds); it is the exact
    ceiling of [wordCount / 150 * 60] when [wordCount] is not a multiple
    of 5, and that ceiling or one second more when it is. *)
Theorem estimated_duration_of_result env text vs cb tr r :
  generateSpeech env text vs cb = (tr, inr r) ->
  specWordCount text < 2 ^ 32 ->
  wordCount text = specWordCount text
  /\ duration r
     = Num.ceil (Num.mul (Num.div (Num.ofZ (specWordCount text)) (Num.ofZ 150))
                   (Num.ofZ 60))
  /\ exists n,
      duration r = Num.ofZ n
      /\ specDuration (specWordCount text) <= n <= specDuration (specWordCount text) + 1
      /\ (specWordCount text mod 5 <> 0 -> n = specDuration (specWordCount text)).
Proof.
  intros H Hw.
  destruct (generateSpeech_returns _ _ _ _ _ _ H) as [T D].
  pose proof (wordCount_spec text (trim_nonempty text T)) as W.
  pose proof (wordCount_pos text) as P.
  rewrite <- W in *. split; [reflexivity|]. split; [exact D|].
  rewrite D. apply estimatedDuration_spec. lia.
Qed.

Lemma estimated_duration_of_result_witness :
  exists tr r,
    generateSpeech env_ok (lit "Hello world") settings0 None = (tr, inr r)
    /\ specWordCount (lit "Hello world") = 2
    /\ specDuration 2 = 1
    /\ duration r = Num.ofZ 1
    /\ exists n,
        duration r = Num.ofZ n
        /\ specDuration (specWordCount (lit "Hello world")) <= n
           <= specDuration (specWordCount (lit "Hello world")) + 1
        /\ (specWordCount (lit "Hello world") mod 5 <> 0 ->
            n = specDuration (specWordCount (lit "Hello world"))).
Proof.
  eexists; eexists. split; [vm_compute; reflexivity|].
  split; [vm_compute; reflexivity|].
  split; [reflexivity|].
  split; [vm_compute; reflexivity|].
  eapply (estimated_duration_of_result env_ok (lit "Hello world") settings0 None).
  - vm_compute; reflexivity.
  - vm_compute; reflexivity.
Defined.

(** C5: of two texts that pass the emptiness test of [generateSpeech], the
    one with at least as many whitespace-separated words has an estimate
    at least as large (the words counted are fewer than 2^32, as an array
    holds). *)
Theorem duration_monotone_in_word_count text1 text2 :
  eqb (trim text1) [] = false ->
  eqb (trim text2) [] = false ->
  specWordCount text2 <= specWordCount text1 ->
  specWordCount text1 < 2 ^ 32 ->
  Num.leb (estimatedDuration (wordCount text2)) (estimatedDuration (wordCount text1))
  = true.
Proof.
  intros T1 T2 L U.
  rewrite <- (wordCount_spec text1 (trim_nonempty text1 T1)) in *.
  rewrite <- (wordCount_spec text2 (trim_nonempty text2 T2)) in *.
  pose proof (wordCount_pos text2).
  apply estimatedDuration_monotone; lia.
Qed.

Lemma duration_monotone_in_word_count_witness :
  specWordCount text155 = 155 /\ specWordCount text160 = 160
  /\ estimatedDuration (wordCount text155) = Num.ofZ 63
  /\ estimatedDuration (wordCount text160) = Num.ofZ 64
  /\ Num.leb (estimatedDuration (wordCount text155))
       (estimatedDuration (wordCount text160)) = true.
Proof.
  split; [vm_compute; reflexivity|].
  split; [vm_compute; reflexivity|].
  split; [vm_compute; reflexivity|].
  split; [vm_compute; reflexivity|].
  apply (duration_monotone_in_word_count text160 text155);
    vm_compute; (reflexivity || discriminate).
Defined.

End Duration.

(* ================================================================== *)
(** * The audio player: seek *)

Section SeekClaims.

Import AudioPlayer.

(** C7 as stated fails: a click event whose [clientX] lies beyond the
    bar leaves second 20 in the position state of a player whose
    duration is 10 seconds; nothing in the handler clamps. *)
Lemma seek_not_clamped :
  let '(s', ref', ex) := handleSeek click_beyond (Some audio0) player0 in
  on_bar click_beyond = false
  /\ duration s' = Num.ofZ 10
  /\ currentTime s' = Num.ofZ 20
  /\ Num.leb (currentTime s') (duration s') = false
  /\ ex = None.
Proof. vm_compute. repeat split. Qed.

Lemma leb_zero_not_ltb t :
  Num.leb (Num.ofZ 0) t = true -> Num.ltb t (Num.ofZ 0) = false.
Proof.
  rewrite ofZ_0. destruct t as [[]|[]| |[] m e]; cbn; congruence.
Qed.

(** C7, amended: the seek handler does not clamp.  It leaves the playing
    flag, the duration and the volume alone.  With an element, when
    [t = (clickX / rect.width) * duration] is a finite number it hands [t]
    to the element, whose position becomes [t] confined to the element's
    own media, and it stores [t] itself in the position state; when [t]
    is not finite the element refuses it, the handler ends with the
    element's exception and neither the element nor the state changes.
    Without an element nothing happens.  For a click on the bar
    (well-formed numbers, [0 <= clickX <= rect.width], a positive finite
    width) and a finite duration that is not negative, [t] lies between
    zero and the duration, the element does not refuse it, and its
    position becomes [t], or the end of its media if [t] lies beyond. *)
Theorem handleSeek_on_bar (e : ClickEvent) (audioRef : option HTMLAudioElement)
    (s : State) :
  (let '(s', ref', ex) := handleSeek e audioRef s in
   isPlaying s' = isPlaying s
   /\ duration s' = duration s
   /\ volume s' = volume s
   /\ (currentTime s' = currentTime s \/ currentTime s' = seekTime e (duration s)))
  /\ (forall audio,
       audioRef = Some audio ->
       (Num.isFinite (seekTime e (duration s)) = true ->
        exists audio',
          handleSeek e audioRef s
          = (mkState (isPlaying s) (seekTime e (duration s)) (duration s) (volume s),
             Some audio', None)
          /\ el_currentTime audio'
             = (if Num.ltb (seekTime e (duration s)) (Num.ofZ 0) then Num.ofZ 0
                else if Num.ltb (el_duration audio) (seekTime e (duration s))
                     then el_duration audio
                     else seekTime e (duration s))
          /\ el_duration audio' = el_duration audio
          /\ el_volume audio' = el_volume audio
          /\ el_paused audio' = el_paused audio)
       /\ (Num.isFinite (seekTime e (duration s)) = false ->
           handleSeek e audioRef s = (s, Some audio, Some TypeError)))
  /\ (audioRef = None -> handleSeek e audioRef s = (s, None, None))
  /\ (forall audio,
       audioRef = Some audio ->
       wf_event e = true -> on_bar e = true -> wf_duration (duration s) = true ->
       exists audio',
         handleSeek e audioRef s
         = (mkState (isPlaying s) (seekTime e (duration s)) (duration s) (volume s),
            Some audio', None)
         /\ Num.leb (Num.ofZ 0) (seekTime e (duration s)) = true
         /\ Num.leb (seekTime e (duration s)) (duration s) = true
         /\ el_paused audio' = el_paused audio
         /\ el_currentTime audio'
            = (if Num.ltb (el_duration audio) (seekTime e (duration s))
               then el_duration audio
               else seekTime e (duration s))).
Proof.
  split; [|split; [|split]].
  - unfold handleSeek. destruct audioRef as [audio|]; [|cbn; auto].
    unfold set_currentTime.
    destruct (Num.isFinite (seekTime e (duration s))); cbn; auto.
  - intros audio ->. unfold handleSeek, set_currentTime. split; intros F; rewrite F.
    + eexists. split; [reflexivity|]. repeat split.
    + reflexivity.
  - intros ->. reflexivity.
  - intros audio -> We Be Wd.
    destruct (seekTime_in_range e (duration s) We Be Wd) as (F & L0 & L1).
    unfold handleSeek, set_currentTime. rewrite F.
    eexists. split; [reflexivity|].
    split; [exact L0|]. split; [exact L1|]. split; [reflexivity|].
    cbn [el_currentTime]. now rewrite (leb_zero_not_ltb _ L0).
Qed.

Lemma handleSeek_on_bar_witness :
  wf_event click_mid = true /\ on_bar click_mid = true
  /\ wf_duration (duration player0) = true
  /\ seekTime click_mid (duration player0) = Num.ofZ 5
  /\ exists audio',
      handleSeek click_mid (Some audio0) player0
      = (mkState true (seekTime click_mid (duration player0)) (Num.ofZ 10) (Num.ofZ 1),
         Some audio', None)
      /\ Num.leb (Num.ofZ 0) (seekTime click_mid (duration player0)) = true
      /\ Num.leb (seekTime click_mid (duration player0)) (duration player0) = true
      /\ el_paused audio' = el_paused audio0
      /\ el_currentTime audio' = Num.ofZ 5.
Proof.
  split; [reflexivity|]. split; [reflexivity|]. split; [reflexivity|].
  split; [reflexivity|].
  destruct (proj2 (proj2 (proj2 (handleSeek_on_bar click_mid (Some audio0) player0)))
              audio0 eq_refl eq_refl eq_refl eq_refl)
    as (audio' & E & L0 & L1 & P & T).
  exists audio'.
  split; [exact E|]. split; [exact L0|]. split; [exact L1|]. split; [exact P|].
  rewrite T. reflexivity.
Defined.

End SeekClaims.

(* ================================================================== *)
(** * Further properties: the word count *)

Lemma count_tokens_app b l r :
  count_tokens b (l ++ r) = (count_tokens b l + count_tokens (ends_ws b l) r)%nat.
Proof.
  revert b. induction l as [|c l IH]; intros b; cbn; [reflexivity|].
  destruct (isWhiteSpace c); rewrite IH; lia.
Qed.

Lemma count_tokens_ws b w : forallb isWhiteSpace w = true -> count_tokens b w = 0%nat.
Proof.
  revert b. induction w as [|c w IH]; intros b; cbn; [reflexivity|].
  destruct (isWhiteSpace c); cbn; [apply IH|discriminate].
Qed.

Lemma ends_ws_ws b w :
  forallb isWhiteSpace w = true -> ends_ws b w = match w with [] => b | _ => true end.
Proof.
  revert b. induction w as [|c w IH]; intros b; cbn; [reflexivity|].
  destruct (isWhiteSpace c) eqn:W; cbn; [|discriminate].
  intros H. rewrite (IH true H). now destruct w.
Qed.

Lemma ends_ws_app b l r : ends_ws b (l ++ r) = ends_ws (ends_ws b l) r.
Proof. revert b. induction l as [|c l IH]; intros b; cbn; [reflexivity|apply IH]. Qed.

Lemma trimStart_suffix_ws s :
  exists w, s = w ++ trimStart s /\ forallb isWhiteSpace w = true.
Proof.
  induction s as [|c s (w & E & W)]; cbn; [now exists []|].
  destruct (isWhiteSpace c) eqn:C; [|now exists []].
  exists (c :: w). cbn. rewrite C, W. split; [congruence|reflexivity].
Qed.

Lemma forallb_rev {A} (f : A -> bool) l : forallb f (rev l) = forallb f l.
Proof.
  induction l as [|a l IH]; cbn; [reflexivity|].
  rewrite forallb_app, IH. cbn. rewrite andb_true_r. apply andb_comm.
Qed.

Lemma trimEnd_prefix_ws s :
  exists w, s = trimEnd s ++ w /\ forallb isWhiteSpace w = true.
Proof.
  unfold trimEnd. destruct (trimStart_suffix_ws (rev s)) as (w & E & W).
  exists (rev w). rewrite forallb_rev. split; [|exact W].
  rewrite <- rev_app_distr, <- E. now rewrite rev_involutive.
Qed.

(** Trimming takes no word away. *)
Lemma count_tokens_trim s : count_tokens true (trim s) = count_tokens true s.
Proof.
  unfold trim.
  destruct (trimStart_suffix_ws s) as (w & E & W).
  destruct (trimEnd_prefix_ws (trimStart s)) as (w' & E' & W').
  rewrite E at 2. rewrite count_tokens_app, (count_tokens_ws _ w W).
  rewrite (ends_ws_ws true w W).
  replace (match w with [] => true | _ :: _ => true end) with true by now destruct w.
  rewrite E' at 2. rewrite count_tokens_app, (count_tokens_ws _ w' W'). lia.
Qed.

(** The count of the code is the number of words of the text as it stands,
    and one for a text without a word. *)
Lemma wordCount_tokens text :
  TTSService.wordCount text = Z.max 1 (Z.of_nat (count_tokens true text)).
Proof.
  destruct (list_eq_dec N.eq_dec (trim text) []) as [E|N].
  - rewrite <- count_tokens_trim. unfold TTSService.wordCount. rewrite E. reflexivity.
  - rewrite (wordCount_spec text N). unfold specWordCount.
    pose proof (wordCount_pos text) as P. rewrite (wordCount_spec text N) in P.
    unfold specWordCount in P. rewrite count_tokens_trim in *. lia.
Qed.

Lemma count_tokens_length b s :
  (2 * count_tokens b s <= List.length s + (if b then 1 else 0))%nat.
Proof.
  revert b. induction s as [|c s IH]; intros b; cbn [count_tokens List.length].
  - destruct b; lia.
  - destruct (isWhiteSpace c).
    + specialize (IH true). cbn in IH. destruct b; lia.
    + specialize (IH false). cbn in IH. destruct b; lia.
Qed.

Section WordCount.

Import TTSService.

(** X4: white space around a text that is not blank does not change its
    word count, and the count of two such texts joined by white space is
    the sum of their counts. *)
Theorem wordCount_whitespace (p q sep a b : jsstring) :
  forallb isWhiteSpace p = true -> forallb isWhiteSpace q = true ->
  forallb isWhiteSpace sep = true -> sep <> [] ->
  eqb (trim a) [] = false -> eqb (trim b) [] = false ->
  wordCount (p ++ a ++ q) = wordCount a
  /\ wordCount (a ++ sep ++ b) = wordCount a + wordCount b.
Proof.
  intros Wp Wq Ws Ns Ta Tb.
  assert (Pa : (0 < count_tokens true a)%nat).
  { pose proof (wordCount_pos a) as P.
    rewrite (wordCount_spec a (trim_nonempty a Ta)) in P. unfold specWordCount in P.
    rewrite count_tokens_trim in P. lia. }
  assert (Pb : (0 < count_tokens true b)%nat).
  { pose proof (wordCount_pos b) as P.
    rewrite (wordCount_spec b (trim_nonempty b Tb)) in P. unfold specWordCount in P.
    rewrite count_tokens_trim in P. lia. }
  rewrite !wordCount_tokens. split.
  - rewrite count_tokens_app, (count_tokens_ws _ p Wp), (ends_ws_ws true p Wp).
    replace (match p with [] => true | _ :: _ => true end) with true by now destruct p.
    rewrite count_tokens_app, (count_tokens_ws _ q Wq). f_equal. lia.
  - rewrite count_tokens_app, count_tokens_app, (count_tokens_ws _ sep Ws).
    rewrite (ends_ws_ws _ sep Ws). destruct sep as [|c sep]; [contradiction|].
    lia.
Qed.

Lemma wordCount_whitespace_witness :
  wordCount ([32; 32]%N ++ lit "Hello world" ++ [10]%N) = 2
  /\ wordCount (lit "Hello world" ++ [32; 9; 32]%N ++ lit "good morning to you") = 6.
Proof.
  destruct (wordCount_whitespace [32; 32]%N [10]%N [32; 9; 32]%N
              (lit "Hello world") (lit "good morning to you"))
    as [A B]; try reflexivity; [discriminate|].
  split.
  - exact A.
  - exact B.
Defined.

(** X5: a text of at most 5000 code units, the limit of the text area, has an
    estimate of at most 1001 seconds. *)
Theorem estimate_within_text_limit text :
  Z.of_nat (List.length text) <= 5000 ->
  wordCount text <= 2500
  /\ Num.leb (estimatedDuration (wordCount text)) (Num.ofZ 1001) = true.
Proof.
  intros L.
  assert (W : wordCount text <= 2500).
  { rewrite wordCount_tokens. pose proof (count_tokens_length true text) as H.
    cbn iota in H. lia. }
  split; [exact W|].
  replace (Num.ofZ 1001) with (estimatedDuration 2500) by (vm_compute; reflexivity).
  pose proof (wordCount_pos text).
  apply estimatedDuration_monotone; lia.
Qed.

Lemma estimate_within_text_limit_witness :
  Z.of_nat (List.length text2500) = 4999
  /\ wordCount text2500 = 2500
  /\ estimatedDuration (wordCount text2500) = Num.ofZ 1001
  /\ Num.leb (estimatedDuration (wordCount text2500)) (Num.ofZ 1001) = true.
Proof.
  split; [vm_compute; reflexivity|].
  split; [vm_compute; reflexivity|].
  split; [vm_compute; reflexivity|].
  apply (estimate_within_text_limit text2500). vm_compute. discriminate.
Defined.

End WordCount.

(* ================================================================== *)
(** * Further properties: the requests of a generation *)

Section Requests.

Import TTSService.

Variable env : Env.
Variable text : jsstring.
Variable voiceSettings : VoiceSettings.

(** Closes a path of [generateSpeech] that throws after [k] events of the
    skeleton. *)
Ltac throws k R :=
  match goal with
  | |- context [rethrow ?e] =>
      let e' := fresh "e'" in
      let He' := fresh "He'" in
      destruct (R e) as [e' He']; rewrite He'; cbn;
      exists k, [ConsoleError (lit "TTS Generation Error:") e];
      split; [reflexivity|];
      split; [right; exists e, e'; split; reflexivity|];
      split; [intros [?|?]; congruence || reflexivity|];
      let Ha := fresh "Ha" in
      let Hb := fresh "Hb" in
      let Hf := fresh "Hf" in
      intros Ha Hb Hf;
      first [ discriminate | lia | congruence
            | destruct (Hf _ eq_refl); congruence ]
  end.

(** The events of a run of [generateSpeech]: a run of the skeleton, all of
    it when the call returns, and then the log of the failure when it
    throws. *)
Lemma generateSpeech_trace (onProgress : option ProgressCallback) :
  exists k tail,
    trace (generateSpeech env text voiceSettings onProgress)
    = visible onProgress (firstn k (skeleton text voiceSettings)) ++ tail
    /\ ((tail = [] /\ k = 6%nat
         /\ exists r, outcome (generateSpeech env text voiceSettings onProgress) = inr r)
        \/ (exists e0 e,
              tail = [ConsoleError (lit "TTS Generation Error:") e0]
              /\ outcome (generateSpeech env text voiceSettings onProgress) = inl e))
    /\ (api_key_missing env = true \/ eqb (trim text) [] = true -> k = 0%nat)
    /\ (api_key_missing env = false -> eqb (trim text) [] = false ->
        (forall f, onProgress = Some f -> f 10 = None /\ f 30 = None) ->
        (3 <= k)%nat).
Proof.
  unfold generateSpeech, call_progress, skeleton, request_of.
  pose proof rethrow_shape as R.
  destruct onProgress as [f|]; cbn.
  - destruct (api_key_missing env) eqn:Hk; cbn. { throws 0%nat R. }
    destruct (eqb (trim text) []) eqn:Ht; cbn. { throws 0%nat R. }
    destruct (f 10) eqn:?; cbn. { throws 1%nat R. }
    destruct (f 30) eqn:?; cbn. { throws 2%nat R. }
    match goal with |- context [SpeechCreate ?r] => set (req := r) end.
    destruct (speech_create env req) as [e|resp] eqn:?; cbn. { throws 3%nat R. }
    destruct (f 70) eqn:?; cbn. { throws 4%nat R. }
    destruct (arrayBuffer resp) as [e|bytes] eqn:?; cbn. { throws 4%nat R. }
    destruct (f 90) eqn:?; cbn. { throws 5%nat R. }
    destruct (f 100) eqn:?; cbn. { throws 6%nat R. }
    exists 6%nat, []. split; [reflexivity|].
    split; [left; repeat split; eexists; reflexivity|].
    split; [intros [?|?]; congruence|intros; lia].
  - destruct (api_key_missing env) eqn:Hk; cbn. { throws 0%nat R. }
    destruct (eqb (trim text) []) eqn:Ht; cbn. { throws 0%nat R. }
    match goal with |- context [SpeechCreate ?r] => set (req := r) end.
    destruct (speech_create env req) as [e|resp] eqn:?; cbn. { throws 3%nat R. }
    destruct (arrayBuffer resp) as [e|bytes] eqn:?; cbn. { throws 4%nat R. }
    exists 6%nat, []. split; [reflexivity|].
    split; [left; repeat split; eexists; reflexivity|].
    split; [intros [?|?]; congruence|intros; lia].
Qed.

End Requests.

Section RequestCount.

Import TTSService.

Lemma count_requests_app a b :
  count_requests (a ++ b) = (count_requests a + count_requests b)%nat.
Proof. unfold count_requests. now rewrite filter_app, length_app. Qed.

Lemma inserted_rows_app a b :
  inserted_rows (a ++ b) = inserted_rows a ++ inserted_rows b.
Proof. induction a as [|[] a IH]; cbn; rewrite ?IH; reflexivity. Qed.

Lemma In_inserted_rows d tr : In (Insert d) tr <-> In d (inserted_rows tr).
Proof.
  induction tr as [|ev tr IH]; cbn; [tauto|].
  destruct ev; cbn; rewrite <- IH; intuition (try discriminate; try congruence).
Qed.

(** What a run of the skeleton holds. *)
Lemma skeleton_requests text vs cb k :
  count_requests (visible cb (firstn k (skeleton text vs)))
  = (if (3 <=? k)%nat then 1 else 0)%nat
  /\ inserted_rows (visible cb (firstn k (skeleton text vs))) = []
  /\ (forall r, In (SpeechCreate r) (visible cb (firstn k (skeleton text vs))) ->
      r = request_of text vs).
Proof.
  assert (E : forall n, (6 <= n)%nat ->
             firstn n (skeleton text vs) = firstn 6 (skeleton text vs)).
  { intros n Hn. now rewrite !firstn_all2 by (cbn; lia). }
  assert (D : (k < 6)%nat \/ (6 <= k)%nat) by lia.
  destruct D as [D|D].
  - destruct cb as [f|];
      do 6 (destruct k as [|k];
            [cbn; repeat split; intros r H;
             repeat (destruct H as [H|H]; try discriminate; try now injection H);
             contradiction|]);
      lia.
  - rewrite (E k D).
    replace (3 <=? k)%nat with true by (symmetry; apply Nat.leb_le; lia).
    destruct cb as [f|]; cbn; repeat split; intros r H;
      repeat (destruct H as [H|H]; try discriminate; try now injection H);
      contradiction.
Qed.

(** [generateSpeech] sends at most one request, the one made of the text
    as given and the mapped settings, and inserts no row. *)
Lemma generateSpeech_requests env text vs cb :
  let tr := trace (generateSpeech env text vs cb) in
  (count_requests tr <= 1)%nat
  /\ inserted_rows tr = []
  /\ (forall r, In (SpeechCreate r) tr -> r = request_of text vs)
  /\ (api_key_missing env = true \/ eqb (trim text) [] = true -> count_requests tr = 0%nat)
  /\ (api_key_missing env = false -> eqb (trim text) [] = false ->
      (forall f, cb = Some f -> f 10 = None /\ f 30 = None) ->
      count_requests tr = 1%nat).
Proof.
  cbv zeta.
  destruct (generateSpeech_trace env text vs cb) as (k & tail & E & T & K0 & K3).
  destruct (skeleton_requests text vs cb k) as (C & I & R).
  rewrite E, count_requests_app, inserted_rows_app, C, I.
  assert (Ht : count_requests tail = 0%nat /\ inserted_rows tail = []
               /\ forall r, ~ In (SpeechCreate r) tail).
  { destruct T as [(-> & _) | (e0 & e & -> & _)]; cbn; repeat split; auto.
    intros r [H|[]]. discriminate. }
  destruct Ht as (Ct & It & Rt). rewrite Ct, It.
  repeat split.
  - destruct (3 <=? k)%nat; lia.
  - intros r H. apply in_app_or in H as [H|H]; [now apply R|now apply Rt in H].
  - intros H. rewrite (K0 H). reflexivity.
  - intros A B F. specialize (K3 A B F).
    destruct (Nat.leb_spec 3 k); lia.
Qed.

(** The wrapper adds at most a warning to the events of the primary call. *)
Lemma generateSpeechWithFallback_trace env text vs cb :
  (exists r,
      outcome (generateSpeech env text vs cb) = inr r
      /\ generateSpeechWithFallback env text vs cb
         = (trace (generateSpeech env text vs cb), inr (Some r)))
  \/ (exists e,
        outcome (generateSpeech env text vs cb) = inl e
        /\ generateSpeechWithFallback env text vs cb
           = (trace (generateSpeech env text vs cb)
              ++ [ConsoleWarn
                    (lit "OpenAI TTS failed, attempting Google Cloud TTS fallback:") e],
              inr None)).
Proof.
  destruct (generateSpeech env text vs cb) as [tr [e|r]] eqn:H.
  - right. exists e. split; [reflexivity|].
    now apply generateSpeechWithFallback_after_failure.
  - left. exists r. split; [reflexivity|].
    now apply generateSpeechWithFallback_after_success.
Qed.

Lemma generateSpeechWithFallback_requests env text vs cb :
  let tr := trace (generateSpeechWithFallback env text vs cb) in
  (count_requests tr <= 1)%nat
  /\ inserted_rows tr = []
  /\ (forall r, In (SpeechCreate r) tr -> r = request_of text vs)
  /\ (api_key_missing env = true \/ eqb (trim text) [] = true -> count_requests tr = 0%nat)
  /\ (api_key_missing env = false -> eqb (trim text) [] = false ->
      (forall f, cb = Some f -> f 10 = None /\ f 30 = None) ->
      count_requests tr = 1%nat).
Proof.
  cbv zeta.
  destruct (generateSpeech_requests env text vs cb) as (A & B & C & D & E).
  destruct (generateSpeechWithFallback_trace env text vs cb)
    as [(r & _ & ->) | (e & _ & ->)]; cbn [trace fst].
  - repeat split; assumption.
  - rewrite count_requests_app, inserted_rows_app, B. cbn.
    rewrite Nat.add_0_r.
    repeat split; try assumption.
    intros r H. apply in_app_or in H as [H|[H|[]]]; [now apply C|discriminate].
Qed.

(** X1: at most one request leaves for the vendor in a call of
    [generateSpeechWithFallback], whatever fails: nothing is sent a second
    time. The request carries the text as it was given, untrimmed, with
    the mapped voice and speed, and asks for mp3. No request is sent when
    the key is missing or the text is blank, and exactly one is sent
    otherwise, unless the progress callback throws before. *)
Theorem vendor_request_at_most_once env text vs cb :
  let tr := trace (generateSpeechWithFallback env text vs cb) in
  (count_requests tr <= 1)%nat
  /\ (forall r, In (SpeechCreate r) tr ->
      req_input r = text
      /\ req_voice r = voice (mapVoiceSettings vs)
      /\ req_speed r = speed (mapVoiceSettings vs)
      /\ req_model r = VString (lit "tts-1")
      /\ req_response_format r = lit "mp3")
  /\ (api_key_missing env = true \/ eqb (trim text) [] = true -> count_requests tr = 0%nat)
  /\ (api_key_missing env = false -> eqb (trim text) [] = false ->
      (forall f, cb = Some f -> f 10 = None /\ f 30 = None) ->
      count_requests tr = 1%nat).
Proof.
  cbv zeta.
  destruct (generateSpeechWithFallback_requests env text vs cb) as (A & B & C & D & E).
  repeat split; try assumption; apply C in H; subst r; reflexivity.
Qed.

End RequestCount.

Lemma vendor_request_at_most_once_witness :
  count_requests
    (trace (TTSService.generateSpeechWithFallback env_ok (lit "  Hello world ")
              settings0 (Some TextToSpeechGenerator.progressCallback))) = 1%nat
  /\ count_requests
       (trace (TTSService.generateSpeechWithFallback env_nokey (lit "  Hello world ")
                 settings0 (Some TextToSpeechGenerator.progressCallback))) = 0%nat.
Proof.
  split.
  - apply (vendor_request_at_most_once env_ok (lit "  Hello world ") settings0
             (Some TextToSpeechGenerator.progressCallback)).
    + reflexivity.
    + reflexivity.
    + intros f [= <-]. split; reflexivity.
  - apply (vendor_request_at_most_once env_nokey (lit "  Hello world ") settings0
             (Some TextToSpeechGenerator.progressCallback)).
    left. reflexivity.
Defined.

(* ================================================================== *)
(** * Further properties: the page's generation handler *)

Section Generation.

Import TextToSpeechGenerator.

Lemma last_cons_default {A} (l : list A) (a d : A) : last (a :: l) d = last l a.
Proof.
  revert a d. induction l as [|b l IH]; intros a d; [reflexivity|].
  change (last (a :: b :: l) d) with (last (b :: l) d).
  now rewrite (IH b d), (IH b a).
Qed.

(** The progress values of a call end up in the progress cell, the last
    one stays. *)
Lemma fold_setProgress l s0 :
  fold_left (fun s v => setProgress v s) l s0
  = mkState (isGenerating s0) (last l (progress s0)) (audioUrl s0) (audioBlob s0)
      (error s0).
Proof.
  revert s0. induction l as [|v l IH]; intros s0.
  - now destruct s0.
  - cbn [fold_left]. rewrite IH. cbn [setProgress isGenerating progress audioUrl audioBlob error].
    now rewrite last_cons_default.
Qed.

(** The inner [try] around the save: the row is handed to the insert
    once, a failure is logged twice, and the block ends normally with the
    state as it was. *)
Lemma save_block_trace env data s :
  exists rest,
    ptry (pbind (call (SupabaseService.saveAudioGeneration env data)) (fun _ => pret tt))
         (fun dbError =>
            call (emit (ConsoleWarn (lit "Failed to save generation to database:") dbError)))
         s
    = (s, (Insert data :: rest, inr tt))
    /\ (rest = []
        \/ exists e,
            rest = [ConsoleError (lit "Error saving audio generation:") e;
                    ConsoleWarn (lit "Failed to save generation to database:") e]).
Proof.
  destruct data as [tc au ds pid uid]. destruct s as [g p u b er].
  unfold ptry, pbind, call, pret, SupabaseService.saveAudioGeneration.
  cbn.
  destruct (audio_generations_insert env _) as [e|res]; cbn.
  - eexists. split; [reflexivity|]. right. now exists e.
  - destruct (ins_error res) as [e|]; cbn.
    + eexists. split; [reflexivity|]. right. now exists e.
    + eexists. split; [reflexivity|]. now left.
Qed.

(** A run of [handleGenerate] on inputs that can be generated: the call,
    then the save for a signed-in user, then the timer; the state at the
    end is given in full. *)
Lemma handleGenerate_run env i s :
  canGenerate i = true ->
  exists result saved,
    outcome (generation env i) = inr result
    /\ handleGenerate env i s
       = (mkState false (last (progress_values (trace (generation env i))) 0)
            (result_audioUrl result) (result_audioBlob result) [],
          (trace (generation env i) ++ saved ++ [SetTimeout 1500], inr tt))
    /\ match user_id_of i with
       | None => saved = []
       | Some uid =>
           exists rest,
             saved = Insert (row_of i result uid) :: rest
             /\ (rest = []
                 \/ exists e,
                     rest = [ConsoleError (lit "Error saving audio generation:") e;
                             ConsoleWarn (lit "Failed to save generation to database:") e])
       end.
Proof.
  intros Hcan.
  destruct (generateSpeechWithFallback_never_throws env (text i) (getCurrentSettings i)
              (Some progressCallback)) as [result Hres].
  fold (generation env i) in Hres.
  destruct (generation env i) as [tr o] eqn:Hgen. cbn in Hres. subst o.
  unfold generation in Hgen.
  unfold handleGenerate. rewrite Hcan. cbn [negb].
  unfold pfinally, ptry at 1.
  unfold pbind at 1 2 3 4 5, update. cbn -[pbind ptry call].
  unfold pbind at 1. unfold call at 1. rewrite Hgen. cbn [trace fst snd].
  rewrite fold_setProgress. cbn -[pbind ptry call last].
  unfold pbind at 1 2, update. cbn -[pbind ptry call last].
  destruct (user_id_of i) as [uid|] eqn:Huid.
  - unfold pbind at 1.
    match goal with
    | |- context [ptry _ _ ?st] =>
        destruct (save_block_trace env (row_of i result uid) st) as (rest & E & Hrest)
    end.
    unfold row_of in E. rewrite E. cbn -[last].
    exists result, (Insert (row_of i result uid) :: rest).
    split; [reflexivity|]. split; [reflexivity|].
    exists rest. split; [reflexivity|assumption].
  - cbn -[last]. exists result, []. repeat split.
Qed.

(** The requests and the rows of a run. *)
Lemma handleGenerate_events env i s :
  canGenerate i = true ->
  exists result s' tr,
    outcome (generation env i) = inr result
    /\ handleGenerate env i s = (s', (tr, inr tt))
    /\ s' = mkState false (last (progress_values (trace (generation env i))) 0)
              (result_audioUrl result) (result_audioBlob result) []
    /\ count_requests tr = count_requests (trace (generation env i))
    /\ inserted_rows tr
       = match user_id_of i with
         | Some uid => [row_of i result uid]
         | None => []
         end
    /\ (forall ev, In ev (trace (generation env i)) -> In ev tr).
Proof.
  intros Hcan.
  destruct (handleGenerate_run env i s Hcan) as (result & saved & O & E & S).
  exists result. eexists _, _. split; [exact O|]. split; [exact E|].
  split; [reflexivity|].
  destruct (generateSpeechWithFallback_requests env (text i) (getCurrentSettings i)
              (Some progressCallback)) as (_ & I & _).
  fold (generation env i) in I.
  rewrite !count_requests_app, !inserted_rows_app, I.
  assert (Hs : count_requests saved = 0%nat
               /\ inserted_rows saved
                  = match user_id_of i with
                    | Some uid => [row_of i result uid]
                    | None => []
                    end).
  { destruct (user_id_of i) as [uid|].
    - destruct S as (rest & -> & [->|(e & ->)]); split; reflexivity.
    - subst saved. split; reflexivity. }
  destruct Hs as [-> ->]. cbn. rewrite app_nil_r, !Nat.add_0_r.
  split; [reflexivity|]. split; [reflexivity|].
  intros ev H. apply in_or_app. now left.
Qed.

(** X8: a click on Generate always ends normally. With inputs that cannot be
    generated nothing happens. Otherwise the generating flag is down at
    the end and the error message is empty, whatever the vendor and the
    database answered; at most one request went to the vendor and at most
    one row to the database. *)
Theorem handleGenerate_completes env i s :
  exists s' tr,
    handleGenerate env i s = (s', (tr, inr tt))
    /\ if canGenerate i
       then isGenerating s' = false /\ error s' = []
            /\ (count_requests tr <= 1)%nat
            /\ (List.length (inserted_rows tr) <= 1)%nat
       else s' = s /\ tr = [].
Proof.
  destruct (canGenerate i) eqn:Hcan.
  - destruct (handleGenerate_events env i s Hcan)
      as (result & s' & tr & _ & E & -> & C & I & _).
    eexists; exists tr. split; [exact E|].
    destruct (generateSpeechWithFallback_requests env (text i) (getCurrentSettings i)
                (Some progressCallback)) as (L & _).
    fold (generation env i) in L.
    rewrite C, I. repeat split; [exact L|].
    destruct (user_id_of i); cbn; lia.
  - exists s, []. unfold handleGenerate. rewrite Hcan. repeat split.
Qed.


(** X10: the row saved for a signed-in user carries the text as typed, no
    audio URL, the preset id of the page, and as duration the estimate of
    the result; a visitor who is not signed in saves nothing. *)
Theorem saved_row_of_generation env i s :
  canGenerate i = true ->
  exists s' tr result,
    handleGenerate env i s = (s', (tr, inr tt))
    /\ outcome (generation env i) = inr result
    /\ inserted_rows tr
       = match user_id_of i with
         | Some uid =>
             [ {| text_content := text i; audio_url := None;
                  duration_seconds :=
                    match result with
                    | Some _ =>
                        Some (TTSService.estimatedDuration
                                (TTSService.wordCount (text i)))
                    | None => None
                    end;
                  preset_id := currentPresetId i; user_id := uid |} ]
         | None => []
         end.
Proof.
  intros Hcan.
  destruct (handleGenerate_events env i s Hcan)
    as (result & s' & tr & O & E & _ & _ & I & _).
  exists s', tr, result. split; [exact E|]. split; [exact O|].
  rewrite I. destruct (user_id_of i) as [uid|]; [|reflexivity].
  unfold row_of. destruct result as [g|]; [|reflexivity].
  destruct (generateSpeechWithFallback_trace env (text i) (getCurrentSettings i)
              (Some progressCallback)) as [(r & Hr & G) | (e' & He' & G)];
    fold (generation env i) in G; rewrite G in O; cbn in O; [|discriminate].
  injection O as <-.
  destruct (TTSService.generateSpeech env (text i) (getCurrentSettings i)
              (Some progressCallback)) as [tr0 o] eqn:Hgs.
  cbn in Hr. subst o.
  destruct (generateSpeech_returns _ _ _ _ _ _ Hgs) as [_ D].
  cbn. now rewrite D.
Qed.

(** X11: a preset loaded from the preset manager is not recorded with the
    generations made with it: the manager hands over the settings alone,
    the page resets its preset id, and every row saved afterwards has no
    preset id. *)
Theorem loaded_preset_is_not_recorded env presets presetId preset i s d :
  PresetManager.find_preset presets presetId = Some preset ->
  In (Insert d)
     (trace (snd (handleGenerate env (PresetManager.handleLoadPreset presets presetId i) s))) ->
  currentPresetId (PresetManager.handleLoadPreset presets presetId i) = None
  /\ preset_id d = None.
Proof.
  intros Hfind Hin.
  set (i' := PresetManager.handleLoadPreset presets presetId i) in *.
  assert (Hid : currentPresetId i' = None).
  { subst i'. unfold PresetManager.handleLoadPreset. rewrite Hfind.
    destruct (user_id_of i); reflexivity. }
  split; [exact Hid|].
  destruct (canGenerate i') eqn:Hcan.
  - destruct (handleGenerate_events env i' s Hcan)
      as (result & s' & tr & _ & E & _ & _ & I & _).
    rewrite E in Hin. cbn in Hin.
    apply In_inserted_rows in Hin. rewrite I in Hin.
    destruct (user_id_of i') as [uid|]; [|contradiction].
    destruct Hin as [<-|[]]. exact Hid.
  - unfold handleGenerate in Hin. rewrite Hcan in Hin. contradiction.
Qed.

End Generation.


Lemma saved_row_of_generation_witness :
  exists s' tr result,
    TextToSpeechGenerator.handleGenerate env_ok inputs_anonymous page0
    = (s', (tr, inr tt))
    /\ outcome (generation env_ok inputs_anonymous) = inr result
    /\ inserted_rows tr = [].
Proof.
  exact (saved_row_of_generation env_ok inputs_anonymous page0 eq_refl).
Defined.

Lemma loaded_preset_is_not_recorded_witness :
  TextToSpeechGenerator.character
    (PresetManager.handleLoadPreset [Some preset1] (lit "p1") inputs0) = lit "david"
  /\ TextToSpeechGenerator.currentPresetId
       (PresetManager.handleLoadPreset [Some preset1] (lit "p1") inputs0) = None
  /\ preset_id
       (row_of (PresetManager.handleLoadPreset [Some preset1] (lit "p1") inputs0) None
          (lit "user-1")) = None.
Proof.
  split; [reflexivity|].
  apply (loaded_preset_is_not_recorded env_quota [Some preset1] (lit "p1") preset1 inputs0
           page0).
  - reflexivity.
  - vm_compute. tauto.
Defined.

(* ================================================================== *)
(** * Further properties: options, validation, presets, download *)

Section Options.

Import TTSService TTSServiceHelpers.

(** X6: what the options list promises is what the mapping does: a settings
    object whose character is one of the offered values is sent with the
    vendor voice shown for it, one whose speed is an offered value with
    the multiplier shown for it; and the offered values are the keys of
    the two tables, in their order. *)
Theorem voice_options_agree_with_mapping (vs : VoiceSettings) :
  (forall c, In c (characters getVoiceOptions) -> character vs = c_value c ->
     voice (mapVoiceSettings vs) = VString (openaiVoice c))
  /\ (forall sp, In sp (speeds getVoiceOptions) -> voiceSpeed vs = s_value sp ->
     speed (mapVoiceSettings vs) = VNumber (multiplier sp))
  /\ map c_value (characters getVoiceOptions) = map fst voiceMapping
  /\ map s_value (speeds getVoiceOptions) = map fst speedMapping.
Proof.
  split; [|split; [|split; reflexivity]].
  - intros c Hin Hc. unfold mapVoiceSettings. cbn [voice]. rewrite Hc.
    cbn in Hin.
    repeat (destruct Hin as [<-|Hin]; [reflexivity|]). contradiction.
  - intros sp Hin Hs. unfold mapVoiceSettings. cbn [speed]. rewrite Hs.
    cbn in Hin.
    repeat (destruct Hin as [<-|Hin]; [reflexivity|]). contradiction.
Qed.

End Options.

Section Validation.

Import TTSServiceHelpers TextToSpeechGenerator.

Lemma validateVoiceSettings_fields (vs : TTSService.VoiceSettings) :
  validateVoiceSettings vs
  = nonempty (TTSService.voiceStyle vs) && nonempty (TTSService.voiceSpeed vs)
    && nonempty (TTSService.voicePitch vs)
    && nonempty (TTSService.emotion vs) && nonempty (TTSService.character vs).
Proof.
  unfold validateVoiceSettings, required, settings_object, nonempty.
  cbn [map forallb].
  change (get _ (lit "voiceStyle")) with (VString (TTSService.voiceStyle vs)).
  change (get _ (lit "voiceSpeed")) with (VString (TTSService.voiceSpeed vs)).
  change (get _ (lit "voicePitch")) with (VString (TTSService.voicePitch vs)).
  change (get _ (lit "emotion")) with (VString (TTSService.emotion vs)).
  change (get _ (lit "character")) with (VString (TTSService.character vs)).
  cbn [truthy]. now rewrite andb_true_r, !andb_assoc.
Qed.

Lemma canGenerate_validate (i : Inputs) :
  canGenerate i
  = nonempty (trim (text i)) && validateVoiceSettings (getCurrentSettings i).
Proof.
  rewrite validateVoiceSettings_fields. unfold canGenerate.
  cbn [getCurrentSettings TTSService.voiceStyle TTSService.voiceSpeed
       TTSService.voicePitch TTSService.emotion TTSService.character].
  now rewrite !andb_assoc.
Qed.

(** X7: [validateVoiceSettings] asks for presence only: it holds exactly when
    none of the five settings is the empty string, known value or not;
    and the page's own check is this one together with a text that is
    not blank. *)
Theorem validateVoiceSettings_presence (i : Inputs) :
  (validateVoiceSettings (getCurrentSettings i) = true
   <-> voiceStyle i <> [] /\ voiceSpeed i <> [] /\ voicePitch i <> []
       /\ emotion i <> [] /\ character i <> [])
  /\ canGenerate i
     = nonempty (trim (text i)) && validateVoiceSettings (getCurrentSettings i).
Proof.
  split; [|apply canGenerate_validate].
  rewrite validateVoiceSettings_fields.
  cbn [getCurrentSettings TTSService.voiceStyle TTSService.voiceSpeed
       TTSService.voicePitch TTSService.emotion TTSService.character].
  assert (N : forall x : jsstring, nonempty x = true <-> x <> []).
  { intros x. unfold nonempty. destruct x; cbn; split; congruence. }
  rewrite !andb_true_iff, !N. tauto.
Qed.

End Validation.

Lemma voice_options_agree_with_mapping_witness :
  TTSService.voice
    (TTSService.mapVoiceSettings (with_character (lit "david") settings0))
  = VString (lit "onyx")
  /\ TTSService.speed
       (TTSService.mapVoiceSettings (with_voiceSpeed (lit "fast") settings0))
     = VNumber (Num.dyadic 5 (-2)).
Proof.
  split.
  - apply (voice_options_agree_with_mapping (with_character (lit "david") settings0))
      with (c := TTSServiceHelpers.mkCharacterOption (lit "david") (lit "David")
                   (lit "onyx")).
    + vm_compute. tauto.
    + reflexivity.
  - apply (voice_options_agree_with_mapping (with_voiceSpeed (lit "fast") settings0))
      with (sp := TTSServiceHelpers.mkSpeedOption (lit "fast") (lit "Fast (1.25x)")
                    (Num.dyadic 5 (-2))).
    + vm_compute. tauto.
    + reflexivity.
Defined.

Lemma validateVoiceSettings_presence_witness :
  TTSServiceHelpers.validateVoiceSettings
    (TextToSpeechGenerator.getCurrentSettings inputs0) = true.
Proof.
  destruct (validateVoiceSettings_presence inputs0) as [[_ H] _].
  apply H. repeat split; discriminate.
Defined.

Section Presets.

Import TTSServiceHelpers TextToSpeechGenerator.

Lemma or_default_nonempty x d :
  eqb (lit d) [] = false -> nonempty (PageHandlers.or_default x d) = true.
Proof.
  intros Hd. unfold PageHandlers.or_default, nonempty.
  destruct x as [v|]; [|now rewrite Hd].
  destruct (eqb v []) eqn:E; [now rewrite Hd|now rewrite E].
Qed.

Lemma or_default_valid x d : nonempty x = true -> PageHandlers.or_default (Some x) d = x.
Proof.
  unfold PageHandlers.or_default, nonempty. now destruct (eqb x []).
Qed.

(** The page's [handleLoadPreset] leaves five settings that are present,
    whatever the settings object holds. *)
Lemma handleLoadPreset_valid st pid i :
  validateVoiceSettings (getCurrentSettings (PageHandlers.handleLoadPreset st pid i))
  = true
  /\ canGenerate (PageHandlers.handleLoadPreset st pid i) = nonempty (trim (text i)).
Proof.
  rewrite canGenerate_validate, validateVoiceSettings_fields.
  unfold PageHandlers.handleLoadPreset.
  cbn [getCurrentSettings TTSService.voiceStyle TTSService.voiceSpeed
       TTSService.voicePitch TTSService.emotion TTSService.character
       voiceStyle voiceSpeed voicePitch emotion character text].
  rewrite !or_default_nonempty by reflexivity.
  split; [reflexivity|]. now rewrite andb_true_r.
Qed.

(** X12: loading a preset never disables the Generate button: whatever the
    stored preset holds (fields missing or empty, values the mapping does
    not know), the five settings of the page are present afterwards, the
    text and the user are untouched, and the page can generate exactly
    when its text is not blank. *)
Theorem preset_load_keeps_settings_valid presets presetId preset i :
  PresetManager.find_preset presets presetId = Some preset ->
  let i' := PresetManager.handleLoadPreset presets presetId i in
  text i' = text i /\ user i' = user i
  /\ validateVoiceSettings (getCurrentSettings i') = true
  /\ canGenerate i' = nonempty (trim (text i)).
Proof.
  intros Hfind. cbv zeta. unfold PresetManager.handleLoadPreset. rewrite Hfind.
  destruct (user_id_of i);
    (split; [reflexivity|]; split; [reflexivity|]; apply handleLoadPreset_valid).
Qed.

End Presets.

Lemma preset_load_keeps_settings_valid_witness :
  TextToSpeechGenerator.voicePitch
    (PresetManager.handleLoadPreset [Some preset1] (lit "p1") inputs0) = lit "medium"
  /\ TextToSpeechGenerator.canGenerate
       (PresetManager.handleLoadPreset [Some preset1] (lit "p1") inputs0) = true.
Proof.
  split; [reflexivity|].
  destruct (preset_load_keeps_settings_valid [Some preset1] (lit "p1") preset1 inputs0
              eq_refl) as (_ & _ & _ & ->).
  reflexivity.
Defined.

Section Download.

Import TTSServiceHelpers TextToSpeechGenerator.

Lemma map_no_separator (s : jsstring) :
  no_separator s = true ->
  map (fun c => if (c =? 58) || (c =? 46) then 45 else c)%N s = s.
Proof.
  induction s as [|c s IH]; cbn; [reflexivity|].
  intros H. apply andb_prop in H as [Hc Hs].
  apply negb_true_iff in Hc. rewrite Hc. now rewrite IH.
Qed.

(** The stamp of an ISO time string [date T hh : mm : ss . fraction Z]. *)
Lemma timestamp_iso (date hh mm ss frac : jsstring) :
  List.length date = 10%nat -> List.length hh = 2%nat ->
  List.length mm = 2%nat -> List.length ss = 2%nat ->
  no_separator (date ++ hh ++ mm ++ ss) = true ->
  PageHandlers.timestamp
    (date ++ lit "T" ++ hh ++ lit ":" ++ mm ++ lit ":" ++ ss ++ frac)
  = date ++ lit "T" ++ hh ++ lit "-" ++ mm ++ lit "-" ++ ss.
Proof.
  intros Ld Lh Lm Ls Hn. unfold PageHandlers.timestamp.
  unfold no_separator in Hn. rewrite !forallb_app in Hn.
  apply andb_prop in Hn as [Hd Hn]. apply andb_prop in Hn as [Hh Hn].
  apply andb_prop in Hn as [Hm Hs].
  replace (date ++ lit "T" ++ hh ++ lit ":" ++ mm ++ lit ":" ++ ss ++ frac)
    with ((date ++ lit "T" ++ hh ++ lit ":" ++ mm ++ lit ":" ++ ss) ++ frac)
    by (now rewrite <- !app_assoc).
  rewrite firstn_app.
  assert (L : List.length (date ++ lit "T" ++ hh ++ lit ":" ++ mm ++ lit ":" ++ ss)
              = 19%nat).
  { rewrite !length_app, Ld, Lh, Lm, Ls. reflexivity. }
  rewrite L, Nat.sub_diag, firstn_all2 by lia. cbn [firstn]. rewrite app_nil_r.
  rewrite !map_app.
  rewrite (map_no_separator date Hd), (map_no_separator hh Hh),
    (map_no_separator mm Hm), (map_no_separator ss Hs).
  reflexivity.
Qed.

(** X16: download: without audio nothing happens. With audio the file is
    offered under the name [tts-<character>-<speed>-<stamp>.mp3], never
    under the service's default name; the stamp of an ISO time string is
    its date and time to the second with the colons turned into hyphens;
    and the object URL made for the link is the one revoked a second
    later. *)
Theorem download_file_name env now i s (date hh mm ss frac : jsstring) :
  List.length date = 10%nat -> List.length hh = 2%nat ->
  List.length mm = 2%nat -> List.length ss = 2%nat ->
  no_separator (date ++ hh ++ mm ++ ss) = true ->
  PageHandlers.handleDownload env
    (date ++ lit "T" ++ hh ++ lit ":" ++ mm ++ lit ":" ++ ss ++ frac) now i s
  = match audioBlob s with
    | JValue b =>
        let link :=
          {| href := createObjectURL env b;
             download := lit "tts-" ++ character i ++ lit "-" ++ voiceSpeed i
                         ++ lit "-" ++ date ++ lit "T" ++ hh ++ lit "-" ++ mm
                         ++ lit "-" ++ ss ++ lit ".mp3" |} in
        [ CreateObjectURL b; AppendChild link; Click link; RemoveChild link;
          RevokeObjectURLAfter 1000 (createObjectURL env b) ]
    | _ => []
    end.
Proof.
  intros Ld Lh Lm Ls Hn. unfold PageHandlers.handleDownload.
  destruct (audioBlob s) as [| |b]; try reflexivity.
  unfold downloadAudio, download_name, PageHandlers.filename.
  rewrite (timestamp_iso date hh mm ss frac Ld Lh Lm Ls Hn).
  cbn [getCurrentSettings TTSService.character TTSService.voiceSpeed href].
  match goal with
  | |- context [eqb ?x []] =>
      assert (E : eqb x [] = false) by reflexivity; rewrite E
  end.
  now rewrite <- !app_assoc.
Qed.

End Download.

Lemma download_file_name_witness :
  PageHandlers.handleDownload env_ok (lit "2024-03-05T14:07:09.123Z") 1709647629123
    inputs0 page_with_audio
  = let link :=
      {| TTSServiceHelpers.href := lit "blob:1";
         TTSServiceHelpers.download := lit "tts-chloe-normal-2024-03-05T14-07-09.mp3" |} in
    [ TTSServiceHelpers.CreateObjectURL (mkBlob [73; 68; 51]%N (lit "audio/mpeg"));
      TTSServiceHelpers.AppendChild link; TTSServiceHelpers.Click link;
      TTSServiceHelpers.RemoveChild link;
      TTSServiceHelpers.RevokeObjectURLAfter 1000 (lit "blob:1") ].
Proof.
  exact (download_file_name env_ok 1709647629123 inputs0 page_with_audio
           (lit "2024-03-05") (lit "14") (lit "07") (lit "09") (lit ".123Z")
           eq_refl eq_refl eq_refl eq_refl eq_refl).
Defined.

(* ================================================================== *)
(** * Further properties: the audio player *)

Section Player.

Import AudioPlayer PlayerControls.

Lemma or_zero_wf d :
  d = Num.NaN \/ wf_duration d = true -> wf_duration (or_zero d) = true.
Proof.
  intros [->|H]; [reflexivity|].
  unfold or_zero. destruct (Num.truthy d); [exact H|reflexivity].
Qed.

(** X17: the duration the player shows is never [NaN]: once the element has
    reported its metadata, be its duration still unknown ([NaN]) or a
    finite number that is not negative, the duration state is a finite
    number that is not negative, and every click on the bar seeks to a
    position between zero and that duration, which the element accepts. *)
Theorem seek_after_metadata_in_range ev audio audio1 s e :
  ev = loadedmetadata \/ ev = loadeddata ->
  el_duration audio = Num.NaN \/ wf_duration (el_duration audio) = true ->
  wf_event e = true -> on_bar e = true ->
  let s1 := fst (listener ev audio s) in
  duration s1 = or_zero (el_duration audio)
  /\ wf_duration (duration s1) = true
  /\ exists audio',
      handleSeek e (Some audio1) s1
      = (mkState (isPlaying s) (seekTime e (duration s1)) (duration s1) (volume s),
         Some audio', None)
      /\ Num.leb (Num.ofZ 0) (seekTime e (duration s1)) = true
      /\ Num.leb (seekTime e (duration s1)) (duration s1) = true.
Proof.
  intros Hev Hd We Be. cbv zeta.
  assert (E : fst (listener ev audio s) = setDuration (or_zero (el_duration audio)) s).
  { destruct Hev as [->| ->]; reflexivity. }
  rewrite E. cbn [setDuration duration isPlaying volume].
  pose proof (or_zero_wf _ Hd) as Wd.
  split; [reflexivity|]. split; [exact Wd|].
  destruct (seekTime_in_range e _ We Be Wd) as (F & L0 & L1).
  unfold handleSeek, set_currentTime, setDuration. cbv zeta.
  cbn [duration isPlaying volume].
  rewrite F. eexists. split; [reflexivity|]. auto.
Qed.

(** X18: a seek and a volume change do not interfere: in either order they
    leave the same state and the same element, and each ends with the
    same exception, if any. *)
Theorem seek_and_volume_commute e c audioRef s :
  seek_then_volume e c audioRef s = volume_then_seek e c audioRef s.
Proof.
  unfold seek_then_volume, volume_then_seek, handleSeek, handleVolumeChange.
  destruct audioRef as [audio|]; [|reflexivity].
  unfold set_currentTime, set_volume. cbv zeta.
  cbn [duration isPlaying currentTime volume].
  destruct (Num.isFinite (seekTime e (duration s))) eqn:F1;
    destruct (Num.isFinite (target_value c)) eqn:F2;
    try destruct (Num.leb (Num.ofZ 0) (target_value c)
                  && Num.leb (target_value c) (Num.ofZ 1)) eqn:R;
    cbn [duration isPlaying currentTime volume el_duration el_volume el_currentTime
         el_paused];
    rewrite ?F1, ?F2, ?R; reflexivity.
Qed.

(** X19: after the media has ended or failed, the flag is down whatever it was,
    so the next press of the button calls [play()], it never pauses: the
    element is left as [play()] leaves it, and the flag goes up exactly
    when [play()] resolves. *)
Theorem toggle_after_ended_plays ev audio audio1 s play :
  (ev = ended \/ exists err, ev = error err) ->
  let s1 := fst (listener ev audio s) in
  isPlaying s1 = false
  /\ togglePlayPause play (Some audio1) s1
     = match play with
       | Resolved after =>
           (mkState true (currentTime s) (duration s) (volume s), Some after, [])
       | Rejected err after =>
           (mkState false (currentTime s) (duration s) (volume s), Some after,
            [ConsoleWarn (lit "Audio playback error:") err])
       end.
Proof.
  intros [->|(err & ->)]; cbn; (split; [reflexivity|]); destruct play; reflexivity.
Qed.

End Player.

Lemma seek_after_metadata_in_range_witness :
  AudioPlayer.duration
    (fst (PlayerControls.listener PlayerControls.loadedmetadata audio0 player_fresh))
  = Num.ofZ 10
  /\ exists audio',
      AudioPlayer.handleSeek click_mid (Some audio0)
        (fst (PlayerControls.listener PlayerControls.loadedmetadata audio0 player_fresh))
      = (AudioPlayer.mkState false (Num.ofZ 5) (Num.ofZ 10) (Num.ofZ 1),
         Some audio', None).
Proof.
  split; [reflexivity|].
  destruct (seek_after_metadata_in_range PlayerControls.loadedmetadata audio0 audio0
              player_fresh click_mid (or_introl eq_refl) (or_intror eq_refl)
              eq_refl eq_refl) as (_ & _ & audio' & E & _).
  exists audio'. exact E.
Defined.

Lemma toggle_after_ended_plays_witness :
  PlayerControls.togglePlayPause (PlayerControls.Resolved audio0) (Some audio0)
    (fst (PlayerControls.listener PlayerControls.ended audio0 player0))
  = (AudioPlayer.mkState true (Num.ofZ 3) (Num.ofZ 10) (Num.ofZ 1), Some audio0, []).
Proof.
  destruct (toggle_after_ended_plays PlayerControls.ended audio0 audio0 player0
              (PlayerControls.Resolved audio0) (or_introl eq_refl)) as [_ E].
  exact E.
Defined.

(* ================================================================== *)
(** * Further properties: the queries of services/supabaseService.js *)

Section Queries.

Import SupabaseQueries.

(** A query function: it fails exactly when the query is rejected or
    answers with an error, logs that error once under its tag and throws
    it again unchanged; a success is silent. *)
Lemma query_contract {A B} (q : JsError + Answer A) (k : option A -> B) tag :
  try_catch (bind (lift q) (fun r => unwrap k r)) (log_and_rethrow tag)
  = match q with
    | inl e => ([ConsoleError (lit tag) e], inl e)
    | inr r =>
        match error r with
        | Some e => ([ConsoleError (lit tag) e], inl e)
        | None => ([], inr (k (data r)))
        end
    end.
Proof.
  destruct q as [e|[d [e|]]]; reflexivity.
Qed.

(** X20: premium access fails closed: the check never throws, and it answers
    [true] only when the profile query resolved without error to a row
    whose role is ['premium'] and whose subscription is active; a query
    that fails is logged by both functions and answered with [false]. *)
Theorem checkPremiumAccess_fails_closed db userId :
  exists tr b,
    checkPremiumAccess db userId = (tr, inr b)
    /\ (b = true <->
        exists p,
          select_user_profile db userId = inr (mkAnswer (Some p) None)
          /\ role p = Some (lit "premium") /\ subscription_active p = Some true)
    /\ (b = true -> tr = [])
    /\ (forall e, outcome (getUserProfile db userId) = inl e ->
        b = false
        /\ tr = [ConsoleError (lit "Error fetching user profile:") e;
                 ConsoleError (lit "Error checking premium access:") e]).
Proof.
  unfold checkPremiumAccess, getUserProfile. rewrite query_contract.
  destruct (select_user_profile db userId) as [e|[d [e|]]] eqn:Q; cbn.
  - eexists _, _. split; [reflexivity|]. split; [|split].
    + split; [discriminate|]. intros (p & H & _). discriminate.
    + discriminate.
    + intros e' [= <-]. split; reflexivity.
  - eexists _, _. split; [reflexivity|]. split; [|split].
    + split; [discriminate|]. intros (p & H & _). discriminate.
    + discriminate.
    + intros e' [= <-]. split; reflexivity.
  - eexists _, _. split; [reflexivity|]. split; [|split].
    + unfold is_premium. destruct d as [p|].
      * destruct (role p) as [r|] eqn:R; destruct (subscription_active p) as [[]|] eqn:S;
          cbn; rewrite ?andb_false_r, ?andb_true_r;
          (split; [intros H|intros (p' & [= <-] & Hr & Hs)]);
          try discriminate; try congruence.
        -- exists p. apply eqb_eq in H. subst r. auto.
        -- rewrite R in Hr. injection Hr as ->. apply eqb_refl.
      * split; [discriminate|]. intros (p & H & _). discriminate.
    + reflexivity.
    + discriminate.
Qed.


End Queries.

Lemma checkPremiumAccess_fails_closed_witness :
  SupabaseQueries.checkPremiumAccess db0 (lit "user-1") = ([], inr true).
Proof.
  destruct (checkPremiumAccess_fails_closed db0 (lit "user-1"))
    as (tr & b & E & [_ B] & T & _).
  assert (Hb : b = true).
  { apply B. eexists. split; [reflexivity|]. split; reflexivity. }
  rewrite E, (T Hb), Hb. reflexivity.
Defined.


(* ================================================================== *)
(** * Further properties: the usage statistics *)

Section Usage.

Import SupabaseQueries.

(** Two canonical floats of the same value are the same float. *)
Lemma canonical_unique m1 e1 m2 e2 :
  SpecFloat.bounded Num.prec Num.emax m1 e1 = true ->
  SpecFloat.bounded Num.prec Num.emax m2 e2 = true ->
  F2R (Zpos m1) e1 = F2R (Zpos m2) e2 -> m1 = m2 /\ e1 = e2.
Proof.
  intros B1 B2 E.
  assert (He : e1 = e2).
  { destruct (Z.lt_trichotomy e1 e2) as [L|[L|L]]; [|exact L|].
    - pose proof (bounded_exponent_lt _ _ _ _ B1 B2 L). lra.
    - pose proof (bounded_exponent_lt _ _ _ _ B2 B1 L). lra. }
  subst e2. split; [|reflexivity].
  destruct (F2R_same_exponent (Zpos m1) (Zpos m2) e1) as [[A _] _].
  destruct (F2R_same_exponent (Zpos m2) (Zpos m1) e1) as [[A' _] _].
  assert (Zpos m1 <= Zpos m2) by (apply A; lra).
  assert (Zpos m2 <= Zpos m1) by (apply A'; lra).
  lia.
Qed.

Lemma shl_align_value m e e' :
  e' <= e -> F2R (Zpos (fst (shl_align m e e'))) e' = F2R (Zpos m) e.
Proof.
  intros L. unfold shl_align. destruct (e' - e) as [|p|p] eqn:D; cbn [fst].
  - now replace e' with e by lia.
  - lia.
  - rewrite Pos_iter_xO. replace e' with (e - Zpos p) by lia.
    apply F2R_shift. lia.
Qed.

Lemma F2R_plus m1 m2 e : F2R (m1 + m2) e = (F2R m1 e + F2R m2 e)%R.
Proof. unfold F2R. rewrite plus_IZR. ring. Qed.

(** The sum of two whole numbers below [2^53] is exact. *)
Lemma add_ofZ a b :
  0 <= a -> 0 <= b -> a + b < 2 ^ 53 -> add (Num.ofZ a) (Num.ofZ b) = Num.ofZ (a + b).
Proof.
  intros Ha Hb Hs.
  destruct (Z.eq_dec a 0) as [->|Na]; [|destruct (Z.eq_dec b 0) as [->|Nb]].
  - rewrite Z.add_0_l, ofZ_0.
    destruct (Z.eq_dec b 0) as [->|Nb]; [now rewrite ofZ_0|].
    destruct (ofZ_integer b ltac:(lia)) as (m & e & -> & _). reflexivity.
  - rewrite Z.add_0_r, ofZ_0.
    destruct (ofZ_integer a ltac:(lia)) as (m & e & -> & _). reflexivity.
  - destruct (ofZ_integer a ltac:(lia)) as (ma & ea & Ea & Ba & Va).
    destruct (ofZ_integer b ltac:(lia)) as (mb & eb & Eb & Bb & Vb).
    destruct (ofZ_integer (a + b) ltac:(lia)) as (mc & ec & Ec & Bc & Vc).
    rewrite Ea, Eb, Ec. unfold add, SFadd. cbn [cond_Zopp].
    set (ez := Z.min ea eb).
    change (Z.pos (fst (shl_align ma ea ez)) + Z.pos (fst (shl_align mb eb ez)))
      with (Z.pos (fst (shl_align ma ea ez) + fst (shl_align mb eb ez))).
    cbn [binary_normalize].
    pose proof (binary_round_spec false
                  (fst (shl_align ma ea ez) + fst (shl_align mb eb ez)) ez) as R.
    replace (F2R (Z.pos (fst (shl_align ma ea ez) + fst (shl_align mb eb ez))) ez)
      with (IZR (a + b)) in R.
    2:{ rewrite Pos2Z.inj_add, F2R_plus, !shl_align_value by (subst ez; lia).
        rewrite Va, Vb, plus_IZR. reflexivity. }
    destruct (rounded_integer false (a + b) _ ltac:(lia) R) as (m & e & -> & B & V).
    destruct (canonical_unique m e mc ec B Bc ltac:(lra)) as [-> ->].
    reflexivity.
Qed.

Lemma or_zero_ofZ n :
  0 <= n < 2 ^ 53 -> PlayerControls.or_zero (Num.ofZ n) = Num.ofZ n.
Proof.
  intros Hn. unfold PlayerControls.or_zero.
  destruct (Z.eq_dec n 0) as [->|N]; [reflexivity|].
  destruct (ofZ_integer n ltac:(lia)) as (m & e & -> & _). reflexivity.
Qed.

Lemma seconds_total_nonneg l : seconds_ok l = true -> 0 <= seconds_total l.
Proof.
  unfold seconds_total.
  induction l as [|r l IH]; cbn; [lia|].
  intros H. apply andb_prop in H as [Hr Hl]. apply Z.leb_le in Hr.
  specialize (IH Hl). lia.
Qed.

(** The running sum of whole seconds stays exact. *)
Lemma fold_add_duration l : forall acc,
  seconds_ok l = true -> 0 <= acc -> acc + seconds_total l < 2 ^ 53 ->
  fold_left add_duration (map usage_row l) (Num.ofZ acc)
  = Num.ofZ (acc + seconds_total l).
Proof.
  induction l as [|r l IH]; intros acc Hok Ha Hs.
  - cbn. now rewrite Z.add_0_r.
  - cbn in Hok. apply andb_prop in Hok as [Hr Hl]. apply Z.leb_le in Hr.
    pose proof (seconds_total_nonneg l Hl) as Hn.
    cbn [map fold_left seconds_total fold_right] in *.
    fold (seconds_total l) in *.
    assert (E : add_duration (Num.ofZ acc) (usage_row r)
                = Num.ofZ (acc + seconds_of r)).
    { unfold add_duration, usage_row, seconds_of in *. cbn [duration_seconds].
      destruct (fst r) as [d|]; cbn [option_map].
      - rewrite or_zero_ofZ by lia. apply add_ofZ; lia.
      - apply add_ofZ; lia. }
    rewrite E, IH by (try assumption; lia).
    f_equal. lia.
Qed.


(** X23: for rows that hold whole seconds, none negative, with a sum below
    [2^53], the total is that sum exactly, missing durations counting as
    zero, the number of generations is the number of rows, and the count
    for the month is the number of rows dated at or after the first of
    the month. *)
Theorem usage_totals_exact db userId l :
  select_usage db userId = inr (mkAnswer (Some (map usage_row l)) None) ->
  seconds_ok l = true ->
  seconds_total l < 2 ^ 53 ->
  exists st,
    getUserUsageStats db userId = ([], inr st)
    /\ totalGenerations st = Z.of_nat (List.length l)
    /\ totalDurationSeconds st = Num.ofZ (seconds_total l)
    /\ thisMonthGenerations st
       = Z.of_nat (List.length
                     (filter (fun r => match snd r with
                                       | Some t => currentMonth db <=? t
                                       | None => false
                                       end) l))
    /\ averageDuration st
       = if 0 <? Z.of_nat (List.length l)
         then Math_round (Num.div (Num.ofZ (seconds_total l))
                            (Num.ofZ (Z.of_nat (List.length l))))
         else Num.ofZ 0.
Proof.
  intros Q Hok Hs.
  pose proof (seconds_total_nonneg l Hok) as Hn.
  unfold getUserUsageStats. rewrite Q. cbn.
  eexists. split; [reflexivity|].
  unfold usage_stats.
  cbn [thisMonthGenerations totalGenerations totalDurationSeconds averageDuration].
  rewrite (fold_add_duration l 0 Hok) by lia.
  rewrite Z.add_0_l, or_zero_ofZ by lia.
  rewrite length_map.
  repeat split.
  f_equal. f_equal.
  clear. induction l as [|r l IH]; cbn; [reflexivity|].
  unfold in_current_month at 1. unfold usage_row at 1. cbn [generated_at].
  destruct (snd r) as [t|]; [destruct (currentMonth db <=? t)|]; cbn; now rewrite IH.
Qed.

End Usage.


Lemma usage_totals_exact_witness :
  exists st,
    SupabaseQueries.getUserUsageStats db0 (lit "user-1") = ([], inr st)
    /\ SupabaseQueries.totalGenerations st = 3
    /\ SupabaseQueries.totalDurationSeconds st = Num.ofZ 7
    /\ SupabaseQueries.thisMonthGenerations st = 1.
Proof.
  destruct (usage_totals_exact db0 (lit "user-1")
              [(Some 3, Some 100); (None, Some 5); (Some 4, None)]
              eq_refl eq_refl eq_refl) as (st & E & A & B & C & _).
  exists st. repeat split; assumption.
Defined.

(* ================================================================== *)
(** * Further properties: the preset manager *)

Section PresetStore.

Import PresetManager TextToSpeechGenerator.

Lemma or_default_or_string x d : PageHandlers.or_default (Some x) d = or_string x d.
Proof. reflexivity. Qed.

Lemma or_string_valid x d : nonempty x = true -> or_string x d = x.
Proof. unfold or_string, nonempty. now destruct (eqb x []). Qed.

Lemma find_filter_same presetId (l : list (option Preset)) :
  find (has_id presetId) (filter (fun p => negb (has_id presetId p)) l) = None.
Proof.
  induction l as [|p l IH]; cbn; [reflexivity|].
  destruct (has_id presetId p) eqn:E; cbn; [exact IH|]. now rewrite E.
Qed.

Lemma find_filter_other presetId other (l : list (option Preset)) :
  other <> presetId ->
  find (has_id other) (filter (fun p => negb (has_id presetId p)) l)
  = find (has_id other) l.
Proof.
  intros N. induction l as [|p l IH]; cbn; [reflexivity|].
  destruct (has_id presetId p) eqn:E; cbn.
  - destruct p as [p|]; [|discriminate]. cbn in E. apply eqb_eq in E.
    cbn. rewrite eqb_neq by congruence. exact IH.
  - now rewrite IH.
Qed.

(** X13: a preset saved without an account loads back what was saved. With a
    name that is not blank and not taken, the save adds one preset at the
    head of the list, makes no query and leaves no error; loading the new
    preset afterwards, whatever the page holds by then, sets the five
    settings to the saved ones, an empty one replaced by its default, so
    settings that were all present come back unchanged. *)
Theorem local_preset_round_trip h i i2 (s : PresetManager.State) :
  user_id_of i = None -> user_id_of i2 = None ->
  eqb (trim (presetName s)) [] = false ->
  existsb (same_name h (presetName s)) (presets s) = false ->
  let s' := fst (handleSavePreset h (user_id_of i) (getCurrentSettings i) s) in
  let effects := snd (handleSavePreset h (user_id_of i) (getCurrentSettings i) s) in
  let i3 := handleLoadPreset (presets s') (TTSServiceHelpers.decimal (now h)) i2 in
  effects = []
  /\ List.length (presets s') = S (List.length (presets s))
  /\ loading s' = false /\ saveError s' = []
  /\ voiceStyle i3 = or_string (voiceStyle i) "female"
  /\ voiceSpeed i3 = or_string (voiceSpeed i) "normal"
  /\ voicePitch i3 = or_string (voicePitch i) "medium"
  /\ emotion i3 = or_string (emotion i) "neutral"
  /\ character i3 = or_string (character i) "chloe"
  /\ text i3 = text i2
  /\ (TTSServiceHelpers.validateVoiceSettings (getCurrentSettings i) = true ->
      getCurrentSettings i3 = getCurrentSettings i).
Proof.
  intros Hu Hu2 Hn Hd. rewrite Hu.
  unfold handleSavePreset.
  cbn [setSaveError presetName presets setLoading].
  rewrite Hn, Hd. cbv zeta.
  cbn [fst snd setLoading setShowSaveDialog setPresetName setPresets presets showSaveDialog
       presetName saveError loading].
  unfold handleLoadPreset, find_preset. cbn [find has_id PresetManager.id].
  rewrite eqb_refl, Hu2. cbn [settings].
  unfold PageHandlers.handleLoadPreset, copy_settings.
  cbn [voiceStyle voiceSpeed voicePitch emotion character text getCurrentSettings
       TTSService.voiceStyle TTSService.voiceSpeed TTSService.voicePitch
       TTSService.emotion TTSService.character
       PageHandlers.l_voiceStyle PageHandlers.l_voiceSpeed PageHandlers.l_voicePitch
       PageHandlers.l_emotion PageHandlers.l_character List.length].
  rewrite !or_default_or_string.
  do 10 (split; [reflexivity|]).
  intros V. rewrite validateVoiceSettings_fields in V.
  cbn [getCurrentSettings TTSService.voiceStyle TTSService.voiceSpeed
       TTSService.voicePitch TTSService.emotion TTSService.character] in V.
  rewrite !andb_true_iff in V. destruct V as [[[[V1 V2] V3] V4] V5].
  now rewrite !or_string_valid by assumption.
Qed.

(** X14: a preset that was deleted cannot be loaded any more. Once the user
    has confirmed, and for a signed-in user the query has not failed, no
    preset of that id is left, loading it leaves the page as it is, and
    every preset of another id is found as before. A deletion that the
    user declines changes nothing, and one whose query fails keeps the
    list and reports the failure. *)
Theorem deleted_preset_cannot_be_loaded h userId presetId (s : PresetManager.State) i :
  let s' := fst (handleDeletePreset h userId presetId s) in
  let effects := snd (handleDeletePreset h userId presetId s) in
  (confirm h = true ->
   (forall uid, userId = Some uid ->
      exists d, delete_voice_preset h presetId uid = inr (SupabaseQueries.mkAnswer d None)) ->
   find_preset (presets s') presetId = None
   /\ handleLoadPreset (presets s') presetId i = i
   /\ (forall other, other <> presetId ->
       find_preset (presets s') other = find_preset (presets s) other)
   /\ loading s' = false /\ saveError s' = saveError s)
  /\ (confirm h = false -> s' = s /\ effects = [])
  /\ (forall uid e,
        confirm h = true -> userId = Some uid ->
        delete_voice_preset h presetId uid = inl e
        \/ (exists d, delete_voice_preset h presetId uid
                      = inr (SupabaseQueries.mkAnswer d (Some e))) ->
        presets s' = presets s /\ saveError s' = lit "Failed to delete preset"
        /\ loading s' = false
        /\ effects = [DeletePreset presetId uid;
                      LogError (lit "Error deleting preset:") e]).
Proof.
  assert (R : forall st : PresetManager.State,
             find_preset (filter (fun p => negb (has_id presetId p)) (presets st)) presetId
             = None
             /\ handleLoadPreset
                  (filter (fun p => negb (has_id presetId p)) (presets st)) presetId i = i
             /\ (forall other, other <> presetId ->
                 find_preset (filter (fun p => negb (has_id presetId p)) (presets st)) other
                 = find_preset (presets st) other)).
  { intros st. unfold handleLoadPreset, find_preset. rewrite find_filter_same.
    repeat split. intros other N. now rewrite find_filter_other. }
  unfold handleDeletePreset.
  destruct (confirm h) eqn:C; cbn [negb].
  2:{ cbn. repeat split; intros; congruence. }
  cbv zeta.
  destruct userId as [uid|].
  - destruct (delete_voice_preset h presetId uid) as [e|[d [e|]]] eqn:Q;
      cbn [SupabaseQueries.error fst snd].
    + split; [|split; [discriminate|]].
      * intros _ H. destruct (H uid eq_refl) as (d & Hd). congruence.
      * intros uid' e' _ [= <-] [H|(d0 & H)]; rewrite Q in H; try discriminate;
          injection H; intros; subst; repeat split.
    + split; [|split; [discriminate|]].
      * intros _ H. destruct (H uid eq_refl) as (d' & Hd). congruence.
      * intros uid' e' _ [= <-] [H|(d0 & H)]; rewrite Q in H; try discriminate;
          injection H; intros; subst; repeat split.
    + split; [|split; [discriminate|]].
      * intros _ _. destruct (R s) as (A & B & D).
        cbn [setLoading setPresets presets loading saveError].
        repeat split; assumption.
      * intros uid' e' _ [= <-] [H|(d0 & H)]; rewrite Q in H; try discriminate;
          injection H; intros; subst; repeat split.
  - cbn [fst snd]. split; [|split; [discriminate|]].
    + intros _ _. destruct (R s) as (A & B & D).
      cbn [setLoading setPresets presets loading saveError].
      repeat split; assumption.
    + intros uid e _ [=].
Qed.

Lemma cons_neq {A} (x : A) (l : list A) : l <> x :: l.
Proof.
  intros H. apply (f_equal (@List.length A)) in H. cbn in H. lia.
Qed.

(** X15: the save dialog reports an error exactly when nothing was saved. A
    name that is blank or, compared in lower case, taken is refused
    before any query and before the loading flag is raised; in every
    other case the flag is down at the end; and the list either stays as
    it is or gains one entry at its head. *)
Theorem save_reports_what_it_did h userId currentSettings (s : PresetManager.State) :
  let s' := fst (handleSavePreset h userId currentSettings s) in
  let effects := snd (handleSavePreset h userId currentSettings s) in
  (saveError s' = [] <-> exists p, presets s' = p :: presets s)
  /\ (saveError s' <> [] -> presets s' = presets s)
  /\ (eqb (trim (presetName s)) [] = true
      \/ existsb (same_name h (presetName s)) (presets s) = true ->
      effects = [] /\ loading s' = loading s /\ presetName s' = presetName s
      /\ showSaveDialog s' = showSaveDialog s)
  /\ (eqb (trim (presetName s)) [] = false ->
      existsb (same_name h (presetName s)) (presets s) = false ->
      loading s' = false).
Proof.
  unfold handleSavePreset.
  cbn [setSaveError presetName presets setLoading].
  destruct (eqb (trim (presetName s)) []) eqn:Hn;
    [|destruct (existsb (same_name h (presetName s)) (presets s)) eqn:Hd;
      [|cbv zeta; destruct userId as [uid|];
        [match goal with
         | |- context [insert_voice_preset h ?np] =>
             destruct (insert_voice_preset h np) as [e|[d [e|]]]
         end|]]];
    cbn; repeat split; intros;
    repeat match goal with
           | H : exists _, _ |- _ => destruct H
           | H : _ \/ _ |- _ => destruct H
           end;
    try discriminate; try congruence; eauto;
    match goal with
    | H : ?l = _ :: ?l |- _ => now apply cons_neq in H
    | H : _ <> _ |- _ => exfalso; apply H; reflexivity
    end.
Qed.

End PresetStore.

Lemma local_preset_round_trip_witness :
  TextToSpeechGenerator.getCurrentSettings
    (PresetManager.handleLoadPreset
       (PresetManager.presets
          (fst (PresetManager.handleSavePreset host0
                  (TextToSpeechGenerator.user_id_of inputs_anonymous)
                  (TextToSpeechGenerator.getCurrentSettings inputs_anonymous) manager0)))
       (TTSServiceHelpers.decimal (PresetManager.now host0))
       (PageHandlers.handleLoadPreset PresetManager.empty_settings None
          inputs_anonymous))
  = TextToSpeechGenerator.getCurrentSettings inputs_anonymous.
Proof.
  apply (local_preset_round_trip host0 inputs_anonymous
           (PageHandlers.handleLoadPreset PresetManager.empty_settings None
              inputs_anonymous)
           manager0 eq_refl eq_refl eq_refl eq_refl).
  reflexivity.
Defined.

Lemma deleted_preset_cannot_be_loaded_witness :
  PresetManager.handleLoadPreset
    (PresetManager.presets
       (fst (PresetManager.handleDeletePreset host0 None (lit "p1") manager0)))
    (lit "p1") inputs_anonymous
  = inputs_anonymous.
Proof.
  apply (deleted_preset_cannot_be_loaded host0 None (lit "p1") manager0
           inputs_anonymous).
  - reflexivity.
  - discriminate.
Defined.

Lemma save_reports_what_it_did_witness :
  PresetManager.presets
    (fst (PresetManager.handleSavePreset host0 (Some (lit "user-1")) settings0
            manager0))
  = PresetManager.presets manager0.
Proof.
  apply (save_reports_what_it_did host0 (Some (lit "user-1")) settings0 manager0).
  discriminate.
Defined.

(* ================================================================== *)
(** * Further properties: what [generateSpeech] returns and throws *)

Section Result.

Import TTSService.

Variable env : Env.
Variable text : jsstring.
Variable voiceSettings : VoiceSettings.

(** Closes a path of [generateSpeech] that throws. *)
Ltac dead R :=
  match goal with
  | |- context [rethrow ?e] =>
      let e' := fresh "e'" in
      let He' := fresh "He'" in
      let H := fresh "H" in
      destruct (R e) as [e' He']; rewrite He'; cbn; intros H; discriminate H
  end.

(** X2: the audio of a run that returns is the vendor's answer to the request
    of this text and these settings, byte for byte: the blob holds the
    bytes of the response under the type [audio/mpeg], the URL is the
    object URL of that blob, the size is the number of bytes, the format
    is [mp3], and the duration is the estimate for the text. One request
    was sent. *)
Theorem generateSpeech_result (onProgress : option ProgressCallback) tr r :
  generateSpeech env text voiceSettings onProgress = (tr, inr r) ->
  exists response bytes,
    speech_create env (request_of text voiceSettings) = inr response
    /\ arrayBuffer response = inr bytes
    /\ r = {| audioUrl := createObjectURL env (mkBlob bytes (lit "audio/mpeg"));
              audioBlob := mkBlob bytes (lit "audio/mpeg");
              duration := estimatedDuration (wordCount text);
              fileSize := Z.of_nat (List.length bytes);
              format := lit "mp3" |}
    /\ count_requests tr = 1%nat.
Proof.
  unfold generateSpeech, call_progress, request_of.
  pose proof rethrow_shape as R.
  destruct onProgress as [f|]; cbn.
  - destruct (api_key_missing env); cbn. { dead R. }
    destruct (eqb (trim text) []); cbn. { dead R. }
    destruct (f 10); cbn. { dead R. }
    destruct (f 30); cbn. { dead R. }
    match goal with |- context [SpeechCreate ?q] => set (req := q) end.
    destruct (speech_create env req) as [e|resp] eqn:Q; cbn. { dead R. }
    destruct (f 70); cbn. { dead R. }
    destruct (arrayBuffer resp) as [e|bytes] eqn:B; cbn. { dead R. }
    destruct (f 90); cbn. { dead R. }
    destruct (f 100); cbn. { dead R. }
    intros [= <- <-]. exists resp, bytes. repeat split; assumption.
  - destruct (api_key_missing env); cbn. { dead R. }
    destruct (eqb (trim text) []); cbn. { dead R. }
    match goal with |- context [SpeechCreate ?q] => set (req := q) end.
    destruct (speech_create env req) as [e|resp] eqn:Q; cbn. { dead R. }
    destruct (arrayBuffer resp) as [e|bytes] eqn:B; cbn. { dead R. }
    intros [= <- <-]. exists resp, bytes. repeat split; assumption.
Qed.

(** X3: whatever goes wrong, [generateSpeech] throws a new error with a
    message of its own: one of the three fixed messages when the message
    of the original error holds [API key], [quota], or [network] or
    [fetch], in this order of precedence, and else the original message,
    or [Unknown error] for none, after [Speech generation failed: ]. The
    original error is the last thing logged. *)
Theorem generateSpeech_error_message (onProgress : option ProgressCallback) e :
  outcome (generateSpeech env text voiceSettings onProgress) = inl e ->
  exists e0,
    last (trace (generateSpeech env text voiceSettings onProgress)) (Progress 0)
    = ConsoleError (lit "TTS Generation Error:") e0
    /\ message e
       = Some
           (if message_includes e0 "API key" then
              lit "Invalid or missing OpenAI API key. Please check your configuration."
            else if message_includes e0 "quota" then
              lit "OpenAI API quota exceeded. Please check your account limits."
            else if message_includes e0 "network" || message_includes e0 "fetch" then
              lit "Network error. Please check your internet connection and try again."
            else lit "Speech generation failed: " ++ message_or_unknown e0)
    /\ message e <> Some [].
Proof.
  intros H.
  destruct (generateSpeech_cases env text voiceSettings onProgress)
    as [(tr & r & E & _) | (tr & e0 & e1 & E & Rt & _)]; rewrite E in H; cbn in H.
  - discriminate.
  - injection H as ->. exists e0. rewrite E. cbn [trace fst].
    split; [apply last_last|].
    unfold rethrow in Rt. cbn in Rt.
    destruct (message_includes e0 "API key");
      [|destruct (message_includes e0 "quota");
        [|destruct (message_includes e0 "network" || message_includes e0 "fetch")]];
      cbn in Rt; injection Rt as <-; cbn [message Error]; split; try reflexivity;
      intros [= H]; discriminate H.
Qed.

End Result.

Lemma generateSpeech_result_witness :
  exists response bytes,
    speech_create env_ok (request_of (lit "Hello world") settings0) = inr response
    /\ arrayBuffer response = inr bytes
    /\ bytes = [73; 68; 51]%N.
Proof.
  destruct (generateSpeech_result env_ok (lit "Hello world") settings0 None
              (trace (TTSService.generateSpeech env_ok (lit "Hello world") settings0 None))
              {| TTSService.audioUrl := lit "blob:1";
                 TTSService.audioBlob := mkBlob [73; 68; 51]%N (lit "audio/mpeg");
                 TTSService.duration := Num.ofZ 1;
                 TTSService.fileSize := 3;
                 TTSService.format := lit "mp3" |}
              eq_refl) as (response & bytes & Q & B & E & _).
  exists response, bytes. split; [exact Q|]. split; [exact B|].
  apply (f_equal (fun g => blob_bytes (TTSService.audioBlob g))) in E.
  symmetry. exact E.
Defined.

Lemma generateSpeech_error_message_witness :
  exists e0,
    TTSService.message_includes e0 "quota" = true
    /\ last (trace (TTSService.generateSpeech env_quota (lit "Hello world") settings0 None))
         (Progress 0)
       = ConsoleError (lit "TTS Generation Error:") e0.
Proof.
  destruct (generateSpeech_error_message env_quota (lit "Hello world") settings0 None
              (Error "OpenAI API quota exceeded. Please check your account limits.")
              eq_refl) as (e0 & L & _).
  exists e0. split; [|exact L].
  cbv in L. injection L as <-. reflexivity.
Defined.
